(** * Data-at-rest encryption of InnoDB pages and redo-log blocks

    A shallow embedding of [storage/innobase/os/os0enc.cc]: the page
    cryptor ([Encryption::encrypt_low], [Encryption::decrypt]), the log block
    cryptor ([Encryption::encrypt_log_block], [Encryption::decrypt_log_block]),
    the encryption-info decoder ([Encryption::decode_encryption_info]) and the
    master key id bookkeeping ([Encryption::create_master_key],
    [Encryption::get_master_key]).

    The server build is modelled: [UNIV_HOTBACKUP], [UNIV_INNOCHECKSUM] and
    [UNIV_ENCRYPT_DEBUG] are not defined.  Buffers are lists of bytes, every
    access is bounds-checked, and integers are [Z] with the C wrap-around
    written where the source computes in an unsigned type. *)

From Stdlib Require Import ZArith List Lia Bool.
From Stdlib.Strings Require Import Byte.
Import ListNotations.
Local Open Scope Z_scope.

(** ** Outcomes of a run

    A run either returns, or it stops in one of two ways the C program has:
    an access outside a buffer (undefined behaviour), or a failed assertion
    ([ut_a], [ut_error], and [ut_ad] in a [UNIV_DEBUG] build). *)

Inductive fault : Set :=
| OutOfBounds
| AssertionFailure.

Inductive result (A : Type) : Type :=
| Ok (a : A)
| Fault (f : fault).

Arguments Ok {A} a.
Arguments Fault {A} f.

Definition bind {A B : Type} (m : result A) (k : A -> result B) : result B :=
  match m with
  | Ok a => k a
  | Fault f => Fault f
  end.

Notation "x <- m ;; k" := (bind m (fun x => k))
  (at level 61, m at next level, right associativity).
Notation "m ;;; k" := (bind m (fun _ => k))
  (at level 61, right associativity).

(** [ut_a(cond)]: checked in every build. *)
Definition ut_a (cond : bool) : result unit :=
  if cond then Ok tt else Fault AssertionFailure.

(** [ut_ad(cond)]: checked only when the build defines [UNIV_DEBUG]. *)
Definition ut_ad (UNIV_DEBUG : bool) (cond : bool) : result unit :=
  if UNIV_DEBUG then ut_a cond else Ok tt.

(** ** Bytes and buffers *)

Definition byte_to_Z (b : byte) : Z := Z.of_N (Byte.to_N b).

(** The conversion [(byte) n] of C: the low eight bits. *)
Definition byte_of_Z (z : Z) : byte :=
  match Byte.of_N (Z.to_N (z mod 256)) with
  | Some b => b
  | None => x00
  end.

Definition buffer : Set := list byte.

Definition blen (b : buffer) : Z := Z.of_nat (length b).

Definition byte_at (b : buffer) (i : Z) : byte := nth (Z.to_nat i) b x00.

(** The [len] bytes of [b] from offset [off]. *)
Definition sub (b : buffer) (off len : Z) : buffer :=
  firstn (Z.to_nat len) (skipn (Z.to_nat off) b).

(** [b] with the bytes [d] stored from offset [off]. *)
Definition blit (b : buffer) (off : Z) (d : buffer) : buffer :=
  firstn (Z.to_nat off) b ++ d ++ skipn (Z.to_nat (off + blen d)) b.

Definition in_bounds (b : buffer) (off len : Z) : bool :=
  (0 <=? off) && (0 <=? len) && (off + len <=? blen b).

(** The offset [i] lies in the field of [len] bytes at [off]. *)
Definition in_range (off len i : Z) : bool := (off <=? i) && (i <? off + len).

(** Reading [len] bytes at [b + off] (the source side of [memcpy]). *)
Definition mem_read (b : buffer) (off len : Z) : result buffer :=
  if in_bounds b off len then Ok (sub b off len) else Fault OutOfBounds.

(** Storing [d] at [b + off] (the destination side of [memcpy]). *)
Definition mem_write (b : buffer) (off : Z) (d : buffer) : result buffer :=
  if in_bounds b off (blen d) then Ok (blit b off d) else Fault OutOfBounds.

(** A local array of [n] bytes that the function has not written yet: it
    holds what was in memory before, the bytes that [junk] gives. *)
Definition uninitialised (junk : Z -> byte) (n : Z) : buffer :=
  map (fun i => junk (Z.of_nat i)) (seq 0 (Z.to_nat n)).

(** [memset(b + off, c, len)]. *)
Definition memset (b : buffer) (off : Z) (c : byte) (len : Z) : result buffer :=
  if in_bounds b off len then Ok (blit b off (repeat c (Z.to_nat len)))
  else Fault OutOfBounds.

(** Unsigned machine arithmetic: [ulint] is 64 bits wide, [uint32] 32 and
    [uint16] 16. *)
Definition ulint (z : Z) : Z := z mod 2 ^ 64.
Definition uint32 (z : Z) : Z := z mod 2 ^ 32.
Definition uint16 (z : Z) : Z := z mod 2 ^ 16.

(** ** Big-endian integer fields ([mach0data]) *)

Definition rd2 (b : buffer) (off : Z) : Z :=
  Z.lor (Z.shiftl (byte_to_Z (byte_at b off)) 8) (byte_to_Z (byte_at b (off + 1))).

Definition rd4 (b : buffer) (off : Z) : Z :=
  Z.lor (Z.shiftl (byte_to_Z (byte_at b off)) 24)
    (Z.lor (Z.shiftl (byte_to_Z (byte_at b (off + 1))) 16)
       (Z.lor (Z.shiftl (byte_to_Z (byte_at b (off + 2))) 8)
          (byte_to_Z (byte_at b (off + 3))))).

Definition enc2 (n : Z) : buffer :=
  [byte_of_Z (Z.shiftr n 8); byte_of_Z n].

Definition enc4 (n : Z) : buffer :=
  [byte_of_Z (Z.shiftr n 24); byte_of_Z (Z.shiftr n 16);
   byte_of_Z (Z.shiftr n 8); byte_of_Z n].

(** Modelled from the spec: [mach_read_from_2] of mach0data, which src/ does
    not hold; the on-disk integers are big-endian. *)
Definition mach_read_from_2 (b : buffer) (off : Z) : result Z :=
  if in_bounds b off 2 then Ok (rd2 b off) else Fault OutOfBounds.

(** Modelled from the spec: [mach_read_from_4] of mach0data. *)
Definition mach_read_from_4 (b : buffer) (off : Z) : result Z :=
  if in_bounds b off 4 then Ok (rd4 b off) else Fault OutOfBounds.

(** Modelled from the spec: [mach_write_to_2] of mach0data. *)
Definition mach_write_to_2 (b : buffer) (off : Z) (n : Z) : result buffer :=
  mem_write b off (enc2 n).

(** Modelled from the spec: [mach_write_to_4] of mach0data. *)
Definition mach_write_to_4 (b : buffer) (off : Z) (n : Z) : result buffer :=
  mem_write b off (enc4 n).

(** C strings: the bytes before the first NUL ([strlen], [strcmp]). *)
Fixpoint cstring (b : buffer) : buffer :=
  match b with
  | [] => []
  | c :: r => if Byte.eqb c x00 then [] else c :: cstring r
  end.

Definition buffer_eqb (a b : buffer) : bool :=
  (length a =? length b)%nat && forallb (fun p => Byte.eqb (fst p) (snd p)) (combine a b).

(** ** What the file takes from headers that src/ does not hold *)

(** Modelled from the spec: [MY_AES_BLOCK_SIZE] of my_aes.h, the block of
    AES. *)
Definition MY_AES_BLOCK_SIZE : Z := 16.

(** Modelled from the spec: [Encryption::KEY_LEN] of os0enc.h, the length of
    a tablespace key and of an initial vector (32 bytes each). *)
Definition KEY_LEN : Z := 32.

(** Modelled from the spec: [FIL_PAGE_DATA] of fil0types.h, the first 38
    bytes of a page are its header. *)
Definition FIL_PAGE_DATA : Z := 38.

(** The other offsets and codes of fil0types.h and os0enc.h that the page
    cryptor names.  Their values are not in src/, so the model takes them as
    parameters; [fil_consts_ok] says what the code relies on. *)
Class FilConsts : Set := {
  FIL_PAGE_LSN : Z;
  FIL_PAGE_TYPE : Z;
  FIL_PAGE_ORIGINAL_TYPE_V1 : Z;
  FIL_PAGE_COMPRESS_SIZE_V1 : Z;
  FIL_PAGE_ENCRYPTION_KEY_VERSION : Z;
  FIL_PAGE_ZIP_KEYRING_ENCRYPTION_MAGIC : Z;
  FIL_PAGE_END_LSN_OLD_CHKSUM : Z;
  FIL_PAGE_TYPE_ALLOCATED : Z;
  FIL_PAGE_COMPRESSED : Z;
  FIL_PAGE_ENCRYPTED : Z;
  FIL_PAGE_COMPRESSED_AND_ENCRYPTED : Z;
  FIL_PAGE_ENCRYPTED_RTREE : Z;
  FIL_PAGE_RTREE : Z;
  FIL_PAGE_VERSION_1 : Z;
  ZIP_PAGE_KEYRING_ENCRYPTION_MAGIC : buffer;
  ZIP_PAGE_KEYRING_ENCRYPTION_MAGIC_LEN : Z
}.

Inductive my_aes_opmode : Set :=
| my_aes_256_ecb
| my_aes_256_cbc.

(** The functions of other files that the cryptor calls.  [my_aes_encrypt]
    and [my_aes_decrypt] get the source bytes, the key pointer (which may be
    null) with its length, the mode, the initial vector pointer and the
    padding flag, and give the produced bytes, or [None] for
    [MY_AES_BAD_DATA]. *)
Class Primitives : Type := {
  UNIV_DEBUG : bool;
  my_aes_encrypt :
    buffer -> option buffer -> Z -> my_aes_opmode -> option buffer -> bool -> option buffer;
  my_aes_decrypt :
    buffer -> option buffer -> Z -> my_aes_opmode -> option buffer -> bool -> option buffer;
  ut_crc32 : buffer -> Z;
  (** [fil_crypt_calculate_checksum(page_size, page, is_zip_compressed)] *)
  fil_crypt_calculate_checksum : Z -> buffer -> bool -> Z;
  (** [Compression::deserialize_header(page, &header); header.m_version] *)
  compression_header_version : buffer -> Z;
  (** the block [os_alloc_block()] hands out *)
  os_alloc_block : buffer
}.

(** Modelled from the spec: [ut_calc_align(n, align_no)] of ut0ut.h, [n]
    rounded up to a multiple of the power of two [align_no]. *)
Definition ut_calc_align (n align_no : Z) : Z :=
  ulint (Z.land (n + align_no - 1) (Z.lnot (align_no - 1))).

(** ** The encryption context and the I/O request *)

Inductive Encryption_Type : Set :=
| NONE
| AES
| KEYRING.

(** [Encryption_rotation]: only [MASTER_KEY_TO_KEYRING] is told apart here;
    every other enumerator behaves as [NO_ROTATION]. *)
Inductive Encryption_rotation : Set :=
| NO_ROTATION
| MASTER_KEY_TO_KEYRING.

Record Encryption : Set := mkEncryption {
  m_type : Encryption_Type;
  m_key : option buffer;
  m_klen : Z;
  m_iv : option buffer;
  m_key_version : Z;
  m_key_id : Z;
  m_checksum : Z;
  m_encryption_rotation : Encryption_rotation;
  m_key_id_uuid : buffer
}.

Definition set_m_checksum (e : Encryption) (c : Z) : Encryption :=
  mkEncryption (m_type e) (m_key e) (m_klen e) (m_iv e) (m_key_version e)
    (m_key_id e) c (m_encryption_rotation e) (m_key_id_uuid e).

Definition set_m_key_and_version (e : Encryption) (k : option buffer) (v : Z) : Encryption :=
  mkEncryption (m_type e) k (m_klen e) (m_iv e) v
    (m_key_id e) (m_checksum e) (m_encryption_rotation e) (m_key_id_uuid e).

Definition is_KEYRING (t : Encryption_Type) : bool :=
  match t with KEYRING => true | _ => false end.

Definition is_NONE (t : Encryption_Type) : bool :=
  match t with NONE => true | _ => false end.

Definition is_MASTER_KEY_TO_KEYRING (r : Encryption_rotation) : bool :=
  match r with MASTER_KEY_TO_KEYRING => true | NO_ROTATION => false end.

Definition is_null (p : option buffer) : bool :=
  match p with None => true | Some _ => false end.

(** The part of [IORequest] that the cryptor asks for. *)
Record IORequest : Set := mkIORequest {
  is_page_zip_compressed : bool;
  get_zip_page_physical_size : Z;
  block_size : Z;
  is_dblwr : bool
}.

Inductive dberr_t : Set :=
| DB_SUCCESS
| DB_IO_DECRYPT_FAIL
| DB_UNSUPPORTED.

(** What [encrypt_low] leaves behind: the context (its [m_checksum]), the
    source page, the destination page and [*dst_len]. *)
Record crypt_state : Set := mkCryptState {
  cs_enc : Encryption;
  cs_src : buffer;
  cs_dst : buffer;
  cs_dst_len : Z
}.

(** ** The page cryptor *)

Section PageCryptor.
Context {fc : FilConsts} {prim : Primitives}.

(** [ut_ad] of a condition that itself reads memory. *)
Definition ut_ad_m (cond : result bool) : result unit :=
  if UNIV_DEBUG then (c <- cond ;; ut_a c) else Ok tt.

(** [memcmp(a + aoff, b + boff, len) == 0] *)
Definition memcmp_eq (a : buffer) (aoff : Z) (b : buffer) (boff : Z) (len : Z) : result bool :=
  x <- mem_read a aoff len ;;
  y <- mem_read b boff len ;;
  Ok (buffer_eqb x y).

(** Minimum length needed for encryption *)
Definition MIN_ENCRYPTION_LEN : Z := 2 * MY_AES_BLOCK_SIZE + FIL_PAGE_DATA.

(** [Encryption::is_encrypted_page] *)
Definition is_encrypted_page (page : buffer) : result bool :=
  page_type <- mach_read_from_2 page FIL_PAGE_TYPE ;;
  Ok ((page_type =? FIL_PAGE_ENCRYPTED)
      || (page_type =? FIL_PAGE_COMPRESSED_AND_ENCRYPTED)
      || (page_type =? FIL_PAGE_ENCRYPTED_RTREE)).

(** [encrypt_low], lines 1133-1145: the length of the page that is
    encrypted; for a compressed page the compressed length, at least
    [MIN_ENCRYPTION_LEN]. *)
Definition encrypt_src_enc_len (page_type : Z) (src : buffer) (src_len : Z) : result Z :=
  if page_type =? FIL_PAGE_COMPRESSED then
    z <- mach_read_from_2 src FIL_PAGE_COMPRESS_SIZE_V1 ;;
    let src_enc_len := z + FIL_PAGE_DATA in
    let src_enc_len :=
      if src_enc_len <? MIN_ENCRYPTION_LEN then MIN_ENCRYPTION_LEN else src_enc_len in
    ut_a (src_enc_len <=? src_len) ;;;
    Ok src_enc_len
  else Ok src_len.

(** [encrypt_low], lines 1160-1171: total length of the data to encrypt. *)
Definition encrypt_data_len (type : IORequest) (e : Encryption)
    (page_type src_enc_len : Z) : Z :=
  if is_KEYRING (m_type e) && (page_type =? FIL_PAGE_COMPRESSED) then
    ulint (src_enc_len - FIL_PAGE_DATA)
  else if is_KEYRING (m_type e) && negb (is_page_zip_compressed type) then
    ulint (ulint (src_enc_len - FIL_PAGE_DATA) - 4)
  else
    ulint (src_enc_len - FIL_PAGE_DATA).

(** [encrypt_low], lines 1156-1230, the [KEYRING]/[AES] case of the switch:
    the block-aligned chunk is encrypted first, then the last two blocks once
    more.  The boolean is [false] when [my_aes_encrypt] gave
    [MY_AES_BAD_DATA]. *)
Definition encrypt_low_cbc (e : Encryption) (src : buffer)
    (data_len DST_HEADER_SIZE : Z) (dst : buffer) : result (bool * buffer) :=
  ut_ad UNIV_DEBUG (m_klen e =? KEY_LEN) ;;;
  ut_ad UNIV_DEBUG (negb (is_null (m_iv e))) ;;;
  ut_ad UNIV_DEBUG (2 * MY_AES_BLOCK_SIZE <=? data_len) ;;;
  let chunk_len := (data_len / MY_AES_BLOCK_SIZE) * MY_AES_BLOCK_SIZE in
  let remain_len := data_len - chunk_len in
  plain <- mem_read src FIL_PAGE_DATA (uint32 chunk_len) ;;
  match my_aes_encrypt plain (m_key e) (uint32 (m_klen e)) my_aes_256_cbc (m_iv e) false with
  | None => Ok (false, dst)
  | Some out =>
    dst <- mem_write dst DST_HEADER_SIZE out ;;
    let len := blen out in
    ut_a (len =? chunk_len) ;;;
    if negb (remain_len =? 0) then
      (* Copy remaining bytes and page tailer. *)
      tail <- mem_read src (FIL_PAGE_DATA + len) remain_len ;;
      dst <- mem_write dst (DST_HEADER_SIZE + len) tail ;;
      let trailer_len := MY_AES_BLOCK_SIZE * 2 in
      last2 <- mem_read dst (DST_HEADER_SIZE + data_len - trailer_len) (uint32 trailer_len) ;;
      match my_aes_encrypt last2 (m_key e) (uint32 (m_klen e)) my_aes_256_cbc (m_iv e) false with
      | None => Ok (false, dst)
      | Some out2 =>
        (* buf is not initialised; the assertion below lets the run go on
           only when the cipher text has filled it. *)
        buf <- mem_write (repeat x00 (Z.to_nat trailer_len)) 0 out2 ;;
        ut_a (blen out2 =? trailer_len) ;;;
        cp <- mem_read buf 0 trailer_len ;;
        dst <- mem_write dst (DST_HEADER_SIZE + data_len - trailer_len) cp ;;
        Ok (true, dst)
      end
    else Ok (true, dst)
  end.

(** [encrypt_low], lines 1236-1253: the header is copied as it is, then the
    page type is rewritten. *)
Definition encrypt_low_header (page_type : Z) (src dst : buffer) : result buffer :=
  hdr <- mem_read src 0 FIL_PAGE_DATA ;;
  dst <- mem_write dst 0 hdr ;;
  ut_ad_m (memcmp_eq src 0 dst 0 FIL_PAGE_DATA) ;;;
  if page_type =? FIL_PAGE_COMPRESSED then
    dst <- mach_write_to_2 dst FIL_PAGE_TYPE FIL_PAGE_COMPRESSED_AND_ENCRYPTED ;;
    ut_ad_m (memcmp_eq src (FIL_PAGE_TYPE + 2) dst (FIL_PAGE_TYPE + 2)
               (ulint (FIL_PAGE_DATA - FIL_PAGE_TYPE - 2))) ;;;
    Ok dst
  else if page_type =? FIL_PAGE_RTREE then
    mach_write_to_2 dst FIL_PAGE_TYPE FIL_PAGE_ENCRYPTED_RTREE
  else
    dst <- mach_write_to_2 dst FIL_PAGE_TYPE FIL_PAGE_ENCRYPTED ;;
    mach_write_to_2 dst FIL_PAGE_ORIGINAL_TYPE_V1 page_type.

(** [encrypt_low], lines 1261-1317: in [KEYRING] mode the key version is
    assigned to the page, and for the master key to keyring rotation the
    post-encryption checksum. *)
Definition encrypt_low_keyring (type : IORequest) (e : Encryption) (page_type : Z)
    (src : buffer) (src_len : Z) (dst : buffer) (dst_len : Z)
    : result (Encryption * buffer * buffer) :=
  let e := set_m_checksum e 0 in
  ut_ad UNIV_DEBUG (dst_len =? src_len) ;;;
  dst <- (if page_type =? FIL_PAGE_COMPRESSED then
            dst <- memset dst FIL_PAGE_DATA x00 4 ;;
            mach_write_to_4 dst (FIL_PAGE_DATA + 4) (m_key_version e)
          else Ok dst) ;;
  r <- (if is_MASTER_KEY_TO_KEYRING (m_encryption_rotation e) then
          dst <- (if is_page_zip_compressed type then
                    magic <- mem_read ZIP_PAGE_KEYRING_ENCRYPTION_MAGIC 0
                               ZIP_PAGE_KEYRING_ENCRYPTION_MAGIC_LEN ;;
                    mem_write dst FIL_PAGE_ZIP_KEYRING_ENCRYPTION_MAGIC magic
                  else Ok dst) ;;
          page_size <- (if page_type =? FIL_PAGE_COMPRESSED then
                          z <- mach_read_from_2 dst FIL_PAGE_COMPRESS_SIZE_V1 ;;
                          Ok (uint16 z)
                        else if is_page_zip_compressed type then
                          Ok (uint32 (get_zip_page_physical_size type))
                        else Ok (uint32 dst_len)) ;;
          let e := set_m_checksum e
                     (uint32 (fil_crypt_calculate_checksum page_size dst
                                (is_page_zip_compressed type))) in
          ut_ad UNIV_DEBUG (negb (m_checksum e =? 0)) ;;;
          Ok (e, dst)
        else Ok (e, dst)) ;;
  let (e, dst) := r in
  ut_ad UNIV_DEBUG (negb (m_key_version e =? 0)) ;;;
  src <- mach_write_to_4 src FIL_PAGE_ENCRYPTION_KEY_VERSION (m_key_version e) ;;
  dst <- (if page_type =? FIL_PAGE_COMPRESSED then
            if negb (m_checksum e =? 0) then
              mach_write_to_4 dst FIL_PAGE_DATA (m_checksum e)
            else Ok dst
          else if negb (is_page_zip_compressed type) then
            dst <- mach_write_to_4 dst FIL_PAGE_ENCRYPTION_KEY_VERSION (m_key_version e) ;;
            if negb (m_checksum e =? 0) then
              mach_write_to_4 dst (dst_len - 4) (m_checksum e)
            else Ok dst
          else
            dst <- mach_write_to_4 dst FIL_PAGE_ENCRYPTION_KEY_VERSION (m_key_version e) ;;
            ut_ad UNIV_DEBUG (negb (m_key_version e =? 0)) ;;;
            Ok dst) ;;
  Ok (e, src, dst).

(** [Encryption::encrypt_low].  The boolean is the function's result; the
    state holds what the call left in the context, in both pages and in
    [*dst_len]. *)
Definition encrypt_low (type : IORequest) (e : Encryption)
    (src : buffer) (src_len : Z) (dst : buffer) (dst_len : Z)
    : result (bool * crypt_state) :=
  page_type <- mach_read_from_2 src FIL_PAGE_TYPE ;;
  let DST_HEADER_SIZE :=
    if is_KEYRING (m_type e) && (page_type =? FIL_PAGE_COMPRESSED)
    then FIL_PAGE_DATA + 8 else FIL_PAGE_DATA in
  (* Shouldn't encrypt an already encrypted page. *)
  ut_ad_m (enc <- is_encrypted_page src ;; Ok (negb enc)) ;;;
  src_enc_len <- encrypt_src_enc_len page_type src src_len ;;
  match m_type e with
  | NONE => Fault AssertionFailure
  | KEYRING | AES =>
    let data_len := encrypt_data_len type e page_type src_enc_len in
    r <- encrypt_low_cbc e src data_len DST_HEADER_SIZE dst ;;
    let (ok, dst) := r in
    if negb ok then Ok (false, mkCryptState e src dst src_len)
    else
      dst <- encrypt_low_header page_type src dst ;;
      (* Add padding 0 for unused portion *)
      dst <- (if src_enc_len <? src_len then
                memset dst (DST_HEADER_SIZE + data_len) x00
                  (ulint (src_len - DST_HEADER_SIZE - data_len))
              else Ok dst) ;;
      r <- (if is_KEYRING (m_type e) then
              encrypt_low_keyring type e page_type src src_len dst dst_len
            else Ok (e, src, dst)) ;;
      let '(e, src, dst) := r in
      Ok (true, mkCryptState e src dst src_len)
  end.

(** [decrypt], lines 1565-1582: for a compressed and encrypted page the
    length is recomputed from the compressed size in the header. *)
Definition decrypt_src_len (type : IORequest) (page_type : Z) (src : buffer)
    (src_len : Z) : result (Z * Z) :=
  if page_type =? FIL_PAGE_COMPRESSED_AND_ENCRYPTED then
    z <- mach_read_from_2 src FIL_PAGE_COMPRESS_SIZE_V1 ;;
    let z_len := uint16 z in
    let src_len := z_len + FIL_PAGE_DATA in
    if compression_header_version src =? FIL_PAGE_VERSION_1 then
      Ok (z_len, ut_calc_align src_len (block_size type))
    else
      Ok (z_len, if src_len <? MIN_ENCRYPTION_LEN then MIN_ENCRYPTION_LEN else src_len)
  else Ok (0, src_len).

(** [decrypt], lines 1622-1630. *)
Definition decrypt_data_len (type : IORequest) (e : Encryption)
    (page_type src_len HEADER_SIZE : Z) : Z :=
  let data_len := ulint (src_len - HEADER_SIZE) in
  if is_KEYRING (m_type e) && (page_type =? FIL_PAGE_COMPRESSED_AND_ENCRYPTED) then
    ulint (data_len + 8)
  else if (page_type =? FIL_PAGE_ENCRYPTED) && is_KEYRING (m_type e)
          && negb (is_page_zip_compressed type) then
    ulint (data_len - 4)
  else data_len.

(** [decrypt], lines 1636-1702, the [KEYRING]/[AES] case of the switch: the
    last two blocks are decrypted first, into the scratch block [dst], then
    the main data.  The boolean is [false] for [DB_IO_DECRYPT_FAIL]. *)
Definition decrypt_cbc (e : Encryption) (page_type : Z) (src : buffer)
    (data_len HEADER_SIZE : Z) (dst : buffer) : result (bool * (buffer * buffer)) :=
  let main_len := (data_len / MY_AES_BLOCK_SIZE) * MY_AES_BLOCK_SIZE in
  let remain_len := data_len - main_len in
  r <- (if negb (remain_len =? 0) then
          ut_ad UNIV_DEBUG (m_klen e =? KEY_LEN) ;;;
          ut_ad UNIV_DEBUG (negb (is_null (m_iv e))) ;;;
          let remain_len := MY_AES_BLOCK_SIZE * 2 in
          (* Copy the last 2 blocks. *)
          remain_buf <- mem_read src (HEADER_SIZE + data_len - remain_len) remain_len ;;
          match my_aes_decrypt remain_buf (m_key e) (uint32 (m_klen e))
                  my_aes_256_cbc (m_iv e) false with
          | None => Ok (false, dst)
          | Some out =>
            dst <- mem_write dst (data_len - remain_len) out ;;
            ut_ad UNIV_DEBUG (blen out =? remain_len) ;;;
            (* Copy the other data bytes to temp area. *)
            cp <- mem_read src HEADER_SIZE (ulint (data_len - remain_len)) ;;
            dst <- mem_write dst 0 cp ;;
            Ok (true, dst)
          end
        else
          ut_ad UNIV_DEBUG (data_len =? main_len) ;;;
          cp <- mem_read src HEADER_SIZE data_len ;;
          dst <- mem_write dst 0 cp ;;
          Ok (true, dst)) ;;
  let (ok, dst) := r in
  if negb ok then Ok (false, (src, dst))
  else
    let keyring_zip := is_KEYRING (m_type e)
                       && (page_type =? FIL_PAGE_COMPRESSED_AND_ENCRYPTED) in
    let ptr := if keyring_zip then HEADER_SIZE - 8 else HEADER_SIZE in
    src <- (if keyring_zip then memset src (ptr + data_len) x00 8 else Ok src) ;;
    (* Then decrypt the main data *)
    main <- mem_read dst 0 (uint32 main_len) ;;
    match my_aes_decrypt main (m_key e) (uint32 (m_klen e))
            my_aes_256_cbc (m_iv e) false with
    | None => Ok (false, (src, dst))
    | Some out =>
      src <- mem_write src ptr out ;;
      ut_ad UNIV_DEBUG (blen out =? main_len) ;;;
      (* Copy the remain bytes. *)
      cp <- mem_read dst main_len (ulint (data_len - main_len)) ;;
      src <- mem_write src (ptr + main_len) cp ;;
      Ok (true, (src, dst))
    end.

(** [decrypt], lines 1748-1759 ([UNIV_DEBUG] only): all [n] padding bytes
    from [off] are zeroes. *)
Fixpoint check_padding (src : buffer) (off : Z) (n : nat) : result unit :=
  match n with
  | O => Ok tt
  | S n' =>
    pad <- mem_read src off 1 ;;
    ut_a (Byte.eqb (byte_at pad 0) x00) ;;;
    check_padding src (off + 1) n'
  end.

(** [decrypt], lines 1717-1759: the trailing LSN copy and the page type are
    restored. *)
Definition decrypt_restore (type : IORequest) (e : Encryption)
    (page_type original_type z_len src_len : Z) (src : buffer) : result buffer :=
  src <- (if is_KEYRING (m_type e)
             && negb (page_type =? FIL_PAGE_COMPRESSED_AND_ENCRYPTED)
             && negb (is_page_zip_compressed type) then
            (* restore LSN *)
            lsn <- mem_read src (FIL_PAGE_LSN + 4) 4 ;;
            mem_write src (src_len - FIL_PAGE_END_LSN_OLD_CHKSUM + 4) lsn
          else Ok src) ;;
  src <- (if page_type =? FIL_PAGE_ENCRYPTED then
            mach_write_to_2 src FIL_PAGE_TYPE original_type
          else if page_type =? FIL_PAGE_ENCRYPTED_RTREE then
            mach_write_to_2 src FIL_PAGE_TYPE FIL_PAGE_RTREE
          else
            ut_ad UNIV_DEBUG (page_type =? FIL_PAGE_COMPRESSED_AND_ENCRYPTED) ;;;
            mach_write_to_2 src FIL_PAGE_TYPE FIL_PAGE_COMPRESSED) ;;
  (* mark original page_type as encrypted *)
  src <- (if negb (original_type =? FIL_PAGE_TYPE_ALLOCATED)
             && negb (page_type =? FIL_PAGE_COMPRESSED_AND_ENCRYPTED) then
            mach_write_to_2 src FIL_PAGE_ORIGINAL_TYPE_V1 FIL_PAGE_ENCRYPTED
          else Ok src) ;;
  (if UNIV_DEBUG && (page_type =? FIL_PAGE_COMPRESSED_AND_ENCRYPTED) then
     let padding := uint32 (src_len - FIL_PAGE_DATA - z_len) in
     check_padding src (z_len + FIL_PAGE_DATA) (Z.to_nat padding)
   else Ok tt) ;;;
  Ok src.

(** [Encryption::decrypt].  The page is decrypted in place in [src]; [dst] is
    the scratch block, [os_alloc_block()] when the caller passes none.  The
    result holds the error code, the page and the scratch block. *)
Definition decrypt (type : IORequest) (e : Encryption)
    (src : buffer) (src_len : Z) (dst : option buffer) (dst_len : Z)
    : result (dberr_t * (buffer * option buffer)) :=
  enc <- is_encrypted_page src ;;
  (* If the page is encrypted, then we need key to decrypt it. *)
  if enc && is_NONE (m_type e) then Ok (DB_IO_DECRYPT_FAIL, (src, dst))
  else if negb enc || is_NONE (m_type e) then Ok (DB_SUCCESS, (src, dst))
  else
    page_type <- mach_read_from_2 src FIL_PAGE_TYPE ;;
    lens <- decrypt_src_len type page_type src src_len ;;
    let (z_len, src_len) := lens in
    let HEADER_SIZE :=
      if is_KEYRING (m_type e) && (page_type =? FIL_PAGE_COMPRESSED_AND_ENCRYPTED)
      then FIL_PAGE_DATA + 8 else FIL_PAGE_DATA in
    ot <- mach_read_from_2 src FIL_PAGE_ORIGINAL_TYPE_V1 ;;
    let original_type := uint16 ot in
    let block := match dst with Some d => d | None => os_alloc_block end in
    ut_ad UNIV_DEBUG (negb (is_null (m_key e))) ;;;
    let data_len := decrypt_data_len type e page_type src_len HEADER_SIZE in
    match m_type e with
    | KEYRING | AES =>
      r <- decrypt_cbc e page_type src data_len HEADER_SIZE block ;;
      let '(ok, (src, block)) := r in
      let dst := match dst with Some _ => Some block | None => None end in
      if negb ok then Ok (DB_IO_DECRYPT_FAIL, (src, dst))
      else
        src <- decrypt_restore type e page_type original_type z_len src_len src ;;
        Ok (DB_SUCCESS, (src, dst))
    | NONE => Ok (DB_UNSUPPORTED, (src, dst))
    end.

End PageCryptor.

(** ** The redo-log block cryptor *)

(** Modelled from the spec: [OS_FILE_LOG_BLOCK_SIZE] of os0file.h, a log
    block is a fixed 512-byte unit. *)
Definition OS_FILE_LOG_BLOCK_SIZE : Z := 512.

(** The constants of log0types.h and log0log.h that the block cryptor names;
    their values are not in src/. *)
Class LogConsts : Set := {
  LOG_BLOCK_HDR_SIZE : Z;
  LOG_BLOCK_TRL_SIZE : Z;
  LOG_BLOCK_HDR_DATA_LEN : Z;
  LOG_BLOCK_ENCRYPT_BIT_MASK : Z;
  LOG_BLOCK_CHECKSUM : Z;
  REDO_LOG_ENCRYPT_NO_VERSION : Z
}.

(** [redo_log_key_mgr.load_key_version(thd, uuid, version)]: the key of the
    given version as [(mkey->version, mkey->key)], or a null pointer. *)
Class RedoLogKeys : Type := {
  load_key_version : buffer -> Z -> option (Z * option buffer)
}.

Section LogCryptor.
Context {lc : LogConsts} {prim : Primitives} {rk : RedoLogKeys}.

(** Modelled from the spec: [log_block_calc_checksum_crc32] of log0log, the
    CRC-32 of the block without its trailer. *)
Definition log_block_calc_checksum_crc32 (block : buffer) : result Z :=
  d <- mem_read block 0 (OS_FILE_LOG_BLOCK_SIZE - LOG_BLOCK_TRL_SIZE) ;;
  Ok (uint32 (ut_crc32 d)).

(** Modelled from the spec: [log_block_get_checksum] of log0log, the four
    bytes of the trailer that hold the checksum. *)
Definition log_block_get_checksum (block : buffer) : result Z :=
  mach_read_from_4 block (OS_FILE_LOG_BLOCK_SIZE - LOG_BLOCK_CHECKSUM).

(** Modelled from the spec: [log_block_set_checksum] of log0log. *)
Definition log_block_set_checksum (block : buffer) (checksum : Z) : result buffer :=
  mach_write_to_4 block (OS_FILE_LOG_BLOCK_SIZE - LOG_BLOCK_CHECKSUM) checksum.

(** Modelled from the spec: [log_block_get_encrypt_bit] of log0log, the
    encrypted bit of the block header. *)
Definition log_block_get_encrypt_bit (block : buffer) : result bool :=
  field <- mach_read_from_2 block LOG_BLOCK_HDR_DATA_LEN ;;
  Ok (negb (Z.land LOG_BLOCK_ENCRYPT_BIT_MASK field =? 0)).

(** Modelled from the spec: [log_block_set_encrypt_bit] of log0log. *)
Definition log_block_set_encrypt_bit (block : buffer) (val : bool) : result buffer :=
  field <- mach_read_from_2 block LOG_BLOCK_HDR_DATA_LEN ;;
  let field :=
    if val then Z.lor field LOG_BLOCK_ENCRYPT_BIT_MASK
    else Z.land field (uint32 (Z.lnot LOG_BLOCK_ENCRYPT_BIT_MASK)) in
  mach_write_to_2 block LOG_BLOCK_HDR_DATA_LEN field.

(** [Encryption::is_encrypted_log] *)
Definition is_encrypted_log (block : buffer) : result bool :=
  log_block_get_encrypt_bit block.

(** The length of the data of a block that is encrypted: in [KEYRING] mode
    the trailer is left as it is. *)
Definition log_data_len (e : Encryption) : Z :=
  let unencrypted_trailer_size := if is_KEYRING (m_type e) then LOG_BLOCK_TRL_SIZE else 0 in
  ulint (ulint (OS_FILE_LOG_BLOCK_SIZE - LOG_BLOCK_HDR_SIZE) - unencrypted_trailer_size).

(** [Encryption::encrypt_log_block]: the result of the function and the
    destination block.  The array [remain_buf] is not initialised (line
    968): [junk] gives what it holds before [my_aes_encrypt] writes the
    cipher text of the last two blocks into it. *)
Definition encrypt_log_block (e : Encryption) (src_ptr dst_ptr : buffer)
    (junk : Z -> byte) : result (bool * buffer) :=
  let data_len := log_data_len e in
  let main_len := (data_len / MY_AES_BLOCK_SIZE) * MY_AES_BLOCK_SIZE in
  let remain_len := data_len - main_len in
  (* Copy the header as is. *)
  hdr <- mem_read src_ptr 0 LOG_BLOCK_HDR_SIZE ;;
  dst_ptr <- mem_write dst_ptr 0 hdr ;;
  ut_ad_m (memcmp_eq src_ptr 0 dst_ptr 0 LOG_BLOCK_HDR_SIZE) ;;;
  match m_type e with
  | NONE => Fault AssertionFailure
  | KEYRING | AES =>
    ut_ad UNIV_DEBUG (m_klen e =? KEY_LEN) ;;;
    plain <- mem_read src_ptr LOG_BLOCK_HDR_SIZE (uint32 main_len) ;;
    match my_aes_encrypt plain (m_key e) (uint32 (m_klen e)) my_aes_256_cbc (m_iv e) false with
    | None => Ok (false, dst_ptr)
    | Some out =>
      dst_ptr <- mem_write dst_ptr LOG_BLOCK_HDR_SIZE out ;;
      let len := blen out in
      ut_ad UNIV_DEBUG (len =? main_len) ;;;
      (* Copy remain bytes. *)
      rest <- mem_read src_ptr (LOG_BLOCK_HDR_SIZE + len)
                (ulint (ulint (OS_FILE_LOG_BLOCK_SIZE - LOG_BLOCK_HDR_SIZE) - len)) ;;
      dst_ptr <- mem_write dst_ptr (LOG_BLOCK_HDR_SIZE + len) rest ;;
      r <- (if negb (remain_len =? 0) then
              let remain_len := MY_AES_BLOCK_SIZE * 2 in
              last2 <- mem_read dst_ptr (LOG_BLOCK_HDR_SIZE + data_len - remain_len)
                         (uint32 remain_len) ;;
              match my_aes_encrypt last2 (m_key e) (uint32 (m_klen e))
                      my_aes_256_cbc (m_iv e) false with
              | None => Ok (false, dst_ptr)
              | Some out2 =>
                remain_buf <- mem_write (uninitialised junk (MY_AES_BLOCK_SIZE * 2)) 0 out2 ;;
                cp <- mem_read remain_buf 0 remain_len ;;
                dst_ptr <- mem_write dst_ptr (LOG_BLOCK_HDR_SIZE + data_len - remain_len) cp ;;
                Ok (true, dst_ptr)
              end
            else Ok (true, dst_ptr)) ;;
      let (ok, dst_ptr) := r in
      if negb ok then Ok (false, dst_ptr)
      else
        (* Set the encrypted flag. *)
        dst_ptr <- log_block_set_encrypt_bit dst_ptr true ;;
        dst_ptr <- (if is_KEYRING (m_type e) then
                      crc <- log_block_calc_checksum_crc32 dst_ptr ;;
                      log_block_set_checksum dst_ptr (ulint (crc + m_key_version e))
                    else Ok dst_ptr) ;;
        Ok (true, dst_ptr)
    end
  end.

(** [decrypt_log_block], lines 1391-1404: in [KEYRING] mode the version of
    the key that encrypted the block is taken from the checksum, and that
    key is loaded when the context holds another version. *)
Definition decrypt_log_key_version (src : buffer) : result Z :=
  block_crc <- log_block_calc_checksum_crc32 src ;;
  written_crc <- log_block_get_checksum src ;;
  Ok (ulint (written_crc - block_crc)).

Definition decrypt_log_load_key (e : Encryption) (src : buffer) : result Encryption :=
  enc_key_version <- decrypt_log_key_version src ;;
  if negb (m_key_version e =? enc_key_version)
     && negb (enc_key_version =? REDO_LOG_ENCRYPT_NO_VERSION) then
    match load_key_version (m_key_id_uuid e) enc_key_version with
    | None => Fault OutOfBounds
    | Some (version, key) => Ok (set_m_key_and_version e key version)
    end
  else Ok e.

(** [Encryption::decrypt_log_block]: the block is decrypted in place in
    [src]; [dst] is the scratch area. *)
Definition decrypt_log_block (e : Encryption) (src dst : buffer)
    : result (dberr_t * (Encryption * buffer * buffer)) :=
  let data_len := log_data_len e in
  let main_len := (data_len / MY_AES_BLOCK_SIZE) * MY_AES_BLOCK_SIZE in
  let remain_len := data_len - main_len in
  let ptr := LOG_BLOCK_HDR_SIZE in
  match m_type e with
  | NONE => Ok (DB_UNSUPPORTED, (e, src, dst))
  | KEYRING | AES =>
    e <- (if is_KEYRING (m_type e) then decrypt_log_load_key e src else Ok e) ;;
    r <- (if negb (remain_len =? 0) then
            ut_ad UNIV_DEBUG (m_klen e =? KEY_LEN) ;;;
            let remain_len := MY_AES_BLOCK_SIZE * 2 in
            (* Copy the last 2 blocks. *)
            remain_buf <- mem_read src (ptr + data_len - remain_len) remain_len ;;
            match my_aes_decrypt remain_buf (m_key e) (uint32 (m_klen e))
                    my_aes_256_cbc (m_iv e) false with
            | None => Ok (false, dst)
            | Some out =>
              dst <- mem_write dst (data_len - remain_len) out ;;
              (* Copy the other data bytes to temp area. *)
              cp <- mem_read src ptr (ulint (data_len - remain_len)) ;;
              dst <- mem_write dst 0 cp ;;
              Ok (true, dst)
            end
          else
            ut_ad UNIV_DEBUG (data_len =? main_len) ;;;
            cp <- mem_read src ptr data_len ;;
            dst <- mem_write dst 0 cp ;;
            Ok (true, dst)) ;;
    let (ok, dst) := r in
    if negb ok then Ok (DB_IO_DECRYPT_FAIL, (e, src, dst))
    else
      (* Then decrypt the main data *)
      main <- mem_read dst 0 (uint32 main_len) ;;
      match my_aes_decrypt main (m_key e) (uint32 (m_klen e))
              my_aes_256_cbc (m_iv e) false with
      | None => Ok (DB_IO_DECRYPT_FAIL, (e, src, dst))
      | Some out =>
        src <- mem_write src ptr out ;;
        ut_ad UNIV_DEBUG (blen out =? main_len) ;;;
        (* Copy the remain bytes. *)
        cp <- mem_read dst main_len (ulint (data_len - main_len)) ;;
        src <- mem_write src (ptr + main_len) cp ;;
        (* Reset the encrypted flag. *)
        src <- log_block_set_encrypt_bit src false ;;
        src <- (if is_KEYRING (m_type e) then
                  crc <- log_block_calc_checksum_crc32 src ;;
                  log_block_set_checksum src crc
                else Ok src) ;;
        Ok (DB_SUCCESS, (e, src, dst))
      end
  end.

End LogCryptor.

(** ** The master key manager and the encryption-info decoder *)

(** Modelled from the spec: [Encryption::DEFAULT_MASTER_KEY_ID] of os0enc.h,
    the id 0 says that no master key has been created yet. *)
Definition DEFAULT_MASTER_KEY_ID : Z := 0.

(** Modelled from the spec: [Encryption::MAGIC_SIZE] of os0enc.h, a magic is
    three bytes. *)
Definition MAGIC_SIZE : Z := 3.

(** Modelled from the spec: [Encryption::SERVER_UUID_LEN] of os0enc.h, a
    server uuid is 36 characters. *)
Definition SERVER_UUID_LEN : Z := 36.

(** The magics and the default master key of os0enc.h; their bytes are not
    in src/. *)
Class InfoConsts : Set := {
  KEY_MAGIC_V1 : buffer;
  KEY_MAGIC_V2 : buffer;
  KEY_MAGIC_V3 : buffer;
  DEFAULT_MASTER_KEY : buffer
}.

(** The name of a master key in the keyring.  The source prints it with
    [snprintf]: ["%s-%s-%u"] from [MASTER_KEY_PREFIX], a uuid and the key id,
    or ["%s-%lu-%u"] with the server id in place of the uuid (5.7.11).  The
    model keeps what is printed. *)
Inductive key_name : Set :=
| master_key_by_uuid (uuid : buffer) (master_key_id : Z)
| master_key_by_server_id (server_id : Z) (master_key_id : Z).

(** The keyring service over a keyring [K]: [my_key_generate] gives its
    return code and the keyring it leaves; [my_key_fetch] gives its return
    code and the key it stored through the pointer (null when it found
    none). *)
Class KeyringService (K : Type) : Type := {
  my_key_generate : K -> key_name -> Z * K;
  my_key_fetch : K -> key_name -> Z * option buffer
}.

(** The process-wide state that the functions below read and write. *)
Record server (K : Type) : Type := mkServer {
  s_master_key_id : Z;
  s_uuid : buffer;
  keyring : K;
  server_uuid : buffer;
  server_id : Z;
  recv_recovery_is_on : bool
}.

Arguments mkServer {K}.
Arguments s_master_key_id {K}.
Arguments s_uuid {K}.
Arguments keyring {K}.
Arguments server_uuid {K}.
Arguments server_id {K}.
Arguments recv_recovery_is_on {K}.

Inductive Version : Set :=
| VERSION_1
| VERSION_2
| VERSION_3.

(** What [decode_encryption_info] leaves behind: its result, the buffers
    [key] and [iv] of the caller, and the process-wide state. *)
Record decode_result (K : Type) : Type := mkDecodeResult {
  dr_ok : bool;
  dr_key : buffer;
  dr_iv : buffer;
  dr_server : server K
}.

Arguments mkDecodeResult {K}.
Arguments dr_ok {K}.
Arguments dr_key {K}.
Arguments dr_iv {K}.
Arguments dr_server {K}.

Section MasterKey.
Context {K : Type} {ks : KeyringService K} {ic : InfoConsts} {prim : Primitives}.

Definition set_master_key_id (s : server K) (id : Z) : server K :=
  mkServer id (s_uuid s) (keyring s) (server_uuid s) (server_id s) (recv_recovery_is_on s).

Definition set_s_uuid (s : server K) (u : buffer) : server K :=
  mkServer (s_master_key_id s) u (keyring s) (server_uuid s) (server_id s)
    (recv_recovery_is_on s).

Definition set_keyring (s : server K) (k : K) : server K :=
  mkServer (s_master_key_id s) (s_uuid s) k (server_uuid s) (server_id s)
    (recv_recovery_is_on s).

(** [memcpy(s_uuid, uuid, sizeof(s_uuid) - 1)] *)
Definition copy_uuid (s_uuid uuid : buffer) : result buffer :=
  u <- mem_read uuid 0 SERVER_UUID_LEN ;;
  mem_write s_uuid 0 u.

(** [Encryption::create_master_key]: the new master key, or a null
    pointer. *)
Definition create_master_key (s : server K) : result (option buffer * server K) :=
  (* If uuid does not match with current server uuid, set uuid as current
     server uuid. *)
  u <- (if negb (buffer_eqb (cstring (s_uuid s)) (cstring (server_uuid s))) then
          copy_uuid (s_uuid s) (server_uuid s)
        else Ok (s_uuid s)) ;;
  let s := set_s_uuid s u in
  (* Generate new master key *)
  let key_name := master_key_by_uuid (cstring (s_uuid s)) (uint32 (s_master_key_id s + 1)) in
  let (_, k) := my_key_generate (keyring s) key_name in
  let s := set_keyring s k in
  let (ret, master_key) := my_key_fetch (keyring s) key_name in
  if negb (ret =? 0) || is_null master_key then Ok (None, s)
  else Ok (master_key, set_master_key_id s (uint32 (s_master_key_id s + 1))).

(** [Encryption::get_keyring_key] *)
Definition get_keyring_key (s : server K) (name : key_name) : option buffer :=
  let (ret, key) := my_key_fetch (keyring s) name in
  if negb (ret =? 0) then None else key.

(** [Encryption::get_master_key(master_key_id, srv_uuid, master_key)]: the
    master key of the given id. *)
Definition get_master_key_by_id (s : server K) (master_key_id : Z)
    (srv_uuid : option buffer) : result (option buffer) :=
  match srv_uuid with
  | Some u =>
    ut_ad UNIV_DEBUG (negb (length (cstring u) =? 0)%nat) ;;;
    Ok (get_keyring_key s (master_key_by_uuid (cstring u) master_key_id))
  | None =>
    (* For compitable with 5.7.11, we need to get master key with server id. *)
    Ok (get_keyring_key s (master_key_by_server_id (server_id s) master_key_id))
  end.

(** [Encryption::get_master_key(master_key_id, master_key)]: the current
    master key, created when there is none yet.  [master_key_id] is the value
    the caller holds at [*master_key_id]; the result gives what is there
    afterwards, and the key. *)
Definition get_master_key (s : server K) (master_key_id : Z)
    : result (Z * option buffer * server K) :=
  if s_master_key_id s =? DEFAULT_MASTER_KEY_ID then
    u <- memset (s_uuid s) 0 x00 (SERVER_UUID_LEN + 1) ;;
    u <- copy_uuid u (server_uuid s) ;;
    let s := set_s_uuid s u in
    let key_name := master_key_by_uuid (cstring (s_uuid s)) 1 in
    let (_, k) := my_key_generate (keyring s) key_name in
    let s := set_keyring s k in
    let (ret, master_key) := my_key_fetch (keyring s) key_name in
    if (ret =? 0) && negb (is_null master_key) then
      let s := set_master_key_id s (uint32 (s_master_key_id s + 1)) in
      Ok (s_master_key_id s, master_key, s)
    else
      Ok (master_key_id, if negb (ret =? 0) then None else master_key, s)
  else
    let master_key_id := s_master_key_id s in
    let (ret, master_key) :=
      my_key_fetch (keyring s) (master_key_by_uuid (cstring (s_uuid s)) master_key_id) in
    (* For compitability with 5.7.11, we need to try to get master key with
       server id when get master key with server uuid failure. *)
    let (ret, master_key) :=
      if negb (ret =? 0) || is_null master_key then
        my_key_fetch (keyring s) (master_key_by_server_id (server_id s) master_key_id)
      else (ret, master_key) in
    Ok (master_key_id, if negb (ret =? 0) then None else master_key, s).

(** What [get_master_key_from_info] gives back: the pointer it returns, as
    an offset into the encryption info, and what it stored in [*m_key_id],
    [srv_uuid] and [*master_key]. *)
Record master_key_info : Set := mkMasterKeyInfo {
  mki_ptr : Z;
  mki_key_id : Z;
  mki_srv_uuid : buffer;
  mki_master_key : option buffer
}.

(** [memset(srv_uuid, 0, SERVER_UUID_LEN + 1); memcpy(srv_uuid, ptr,
    SERVER_UUID_LEN)] *)
Definition read_srv_uuid (info : buffer) (ptr : Z) (srv_uuid : buffer) : result buffer :=
  u <- memset srv_uuid 0 x00 (SERVER_UUID_LEN + 1) ;;
  b <- mem_read info ptr SERVER_UUID_LEN ;;
  mem_write u 0 b.

(** [Encryption::get_master_key_from_info]; [encrypt_info] is the offset of
    the master key id in the encryption info [info]. *)
Definition get_master_key_from_info (s : server K) (info : buffer) (encrypt_info : Z)
    (version : Version) (srv_uuid : buffer) : result master_key_info :=
  let ptr := encrypt_info in
  (* Get master key id. *)
  key_id <- mach_read_from_4 info ptr ;;
  let ptr := ptr + 4 in
  match version with
  | VERSION_1 =>
    (* For version 1, it's possible master key id occupied 8 bytes. *)
    pad <- mach_read_from_4 info ptr ;;
    let ptr := if pad =? 0 then ptr + 4 else ptr in
    master_key <- get_master_key_by_id s key_id None ;;
    if is_null master_key then Ok (mkMasterKeyInfo encrypt_info 0 srv_uuid master_key)
    else Ok (mkMasterKeyInfo ptr key_id srv_uuid master_key)
  | VERSION_2 =>
    (* For version 2, it's also possible master key id occupied 8 bytes. *)
    pad <- mach_read_from_4 info ptr ;;
    let ptr := if pad =? 0 then ptr + 4 else ptr in
    (* Get server uuid. *)
    srv_uuid <- read_srv_uuid info ptr srv_uuid ;;
    ut_ad UNIV_DEBUG (negb (length (cstring srv_uuid) =? 0)%nat) ;;;
    let ptr := ptr + SERVER_UUID_LEN in
    (* Get master key. *)
    master_key <- get_master_key_by_id s key_id (Some srv_uuid) ;;
    if is_null master_key then Ok (mkMasterKeyInfo encrypt_info 0 srv_uuid master_key)
    else Ok (mkMasterKeyInfo ptr key_id srv_uuid master_key)
  | VERSION_3 =>
    (* Get server uuid. *)
    srv_uuid <- read_srv_uuid info ptr srv_uuid ;;
    let ptr := ptr + SERVER_UUID_LEN in
    if key_id =? 0 then
      (* When key_id is 0, which means it's the default master key for
         bootstrap. *)
      master_key <- mem_write (repeat x00 (Z.to_nat KEY_LEN)) 0 DEFAULT_MASTER_KEY ;;
      Ok (mkMasterKeyInfo ptr 0 srv_uuid (Some master_key))
    else
      ut_ad UNIV_DEBUG (negb (length (cstring srv_uuid) =? 0)%nat) ;;;
      (* Get master key. *)
      master_key <- get_master_key_by_id s key_id (Some srv_uuid) ;;
      if is_null master_key then Ok (mkMasterKeyInfo encrypt_info 0 srv_uuid master_key)
      else Ok (mkMasterKeyInfo ptr key_id srv_uuid master_key)
  end.

(** [decode_encryption_info], lines 826-847: the version of the encryption
    information, from its magic. *)
Definition info_version (encryption_info : buffer) : result (option Version) :=
  v1 <- memcmp_eq encryption_info 0 KEY_MAGIC_V1 0 MAGIC_SIZE ;;
  if v1 then Ok (Some VERSION_1)
  else
    v2 <- memcmp_eq encryption_info 0 KEY_MAGIC_V2 0 MAGIC_SIZE ;;
    if v2 then Ok (Some VERSION_2)
    else
      v3 <- memcmp_eq encryption_info 0 KEY_MAGIC_V3 0 MAGIC_SIZE ;;
      if v3 then Ok (Some VERSION_3) else Ok None.

(** [decode_encryption_info], lines 849-896: the 64 bytes {key, iv}, decrypted
    with the master key of the info or copied as they are.  The result is
    [None] when the function returns [false] here; otherwise the pointer
    behind the 64 bytes, the master key id and server uuid that were read,
    and the bytes.  The arrays [srv_uuid] and [key_info] are not initialised
    (lines 820 and 823): [junk] gives what they hold at first, [srv_uuid]
    the bytes from 0 on and [key_info] the bytes behind them.  For an
    information of version 1 [srv_uuid] is never written, and [key_info]
    keeps what [my_aes_decrypt] does not write. *)
Definition decode_key_info (s : server K) (encryption_info : buffer)
    (version : Version) (decrypt_key : bool) (junk : Z -> byte)
    : result (option (Z * Z * buffer * buffer)) :=
  let ptr := MAGIC_SIZE in
  let key_info := uninitialised (fun i => junk (SERVER_UUID_LEN + 1 + i)) (KEY_LEN * 2) in
  let srv_uuid := uninitialised junk (SERVER_UUID_LEN + 1) in
  if decrypt_key then
    (* Get master key by key id. *)
    mki <- get_master_key_from_info s encryption_info ptr version srv_uuid ;;
    (* If can't find the master key, return failure. *)
    if is_null (mki_master_key mki) then Ok None
    else
      (* Decrypt tablespace key and iv. *)
      wrapped <- mem_read encryption_info (mki_ptr mki) (uint32 (KEY_LEN * 2)) ;;
      match my_aes_decrypt wrapped (mki_master_key mki) (uint32 KEY_LEN)
              my_aes_256_ecb None false with
      | None => Ok None
      | Some out =>
        key_info <- mem_write key_info 0 out ;;
        Ok (Some (mki_ptr mki + KEY_LEN * 2, mki_key_id mki, mki_srv_uuid mki, key_info))
      end
  else
    ut_ad UNIV_DEBUG (match version with VERSION_3 => true | _ => false end) ;;;
    (* Skip master Key and server UUID *)
    let ptr := ptr + 4 + SERVER_UUID_LEN in
    (* Get tablespace key information. *)
    key_info <- mem_read encryption_info ptr (KEY_LEN * 2) ;;
    Ok (Some (ptr + KEY_LEN * 2, DEFAULT_MASTER_KEY_ID, srv_uuid, key_info)).

(** [Encryption::decode_encryption_info]; [junk] is what the memory of the
    local arrays [srv_uuid] and [key_info] holds when the function is
    entered. *)
Definition decode_encryption_info (s : server K) (key iv : buffer)
    (encryption_info : buffer) (decrypt_key : bool) (junk : Z -> byte)
    : result (decode_result K) :=
  v <- info_version encryption_info ;;
  match v with
  | None =>
    (* We don't report an error during recovery, since the encryption info
       maybe hasn't writen into datafile when the table is newly created. *)
    if recv_recovery_is_on s then Ok (mkDecodeResult true key iv s)
    else Ok (mkDecodeResult false key iv s)
  | Some version =>
    r <- decode_key_info s encryption_info version decrypt_key junk ;;
    match r with
    | None => Ok (mkDecodeResult false key iv s)
    | Some (ptr, master_key_id, srv_uuid, key_info) =>
      (* Check checksum bytes. *)
      crc1 <- mach_read_from_4 encryption_info ptr ;;
      let crc2 := uint32 (ut_crc32 key_info) in
      if negb (crc1 =? crc2) then
        (* This check could fail only while decrypting key. *)
        ut_ad UNIV_DEBUG decrypt_key ;;;
        Ok (mkDecodeResult false key iv s)
      else
        (* Get tablespace key *)
        k <- mem_read key_info 0 KEY_LEN ;;
        key <- mem_write key 0 k ;;
        (* Get tablespace iv *)
        v <- mem_read key_info KEY_LEN KEY_LEN ;;
        iv <- mem_write iv 0 v ;;
        if decrypt_key && (s_master_key_id s <? master_key_id) then
          u <- copy_uuid (s_uuid s) srv_uuid ;;
          Ok (mkDecodeResult true key iv (set_s_uuid (set_master_key_id s master_key_id) u))
        else Ok (mkDecodeResult true key iv s)
    end
  end.

End MasterKey.

(** ** Notions in which the properties are stated *)

Section Notions.
Context {fc : FilConsts} {prim : Primitives}.

(** The page type that [encrypt_low] writes for a page of type
    [page_type]. *)
Definition encrypted_type (page_type : Z) : Z :=
  if page_type =? FIL_PAGE_COMPRESSED then FIL_PAGE_COMPRESSED_AND_ENCRYPTED
  else if page_type =? FIL_PAGE_RTREE then FIL_PAGE_ENCRYPTED_RTREE
  else FIL_PAGE_ENCRYPTED.

(** A field of [len] bytes at [off] lies in the page header. *)
Definition header_field (off len : Z) : bool :=
  (0 <=? off) && (off + len <=? FIL_PAGE_DATA).

(** Two fields do not overlap. *)
Definition fields_apart (o1 l1 o2 l2 : Z) : bool :=
  (o1 + l1 <=? o2) || (o2 + l2 <=? o1).

(** A page type fits the two bytes of [FIL_PAGE_TYPE]. *)
Definition page_type_code (t : Z) : bool := (0 <=? t) && (t <? 2 ^ 16).

(** What the cryptor relies on about the constants of fil0types.h: the
    fields that it reads and stamps lie in the header and keep apart from
    each other, the trailer holds the low LSN word in its last four bytes,
    and the page types that it tells apart are different two-byte codes. *)
Definition fil_consts_ok : bool :=
  header_field FIL_PAGE_LSN 8
  && header_field FIL_PAGE_TYPE 2
  && header_field FIL_PAGE_ORIGINAL_TYPE_V1 2
  && header_field FIL_PAGE_COMPRESS_SIZE_V1 2
  && header_field FIL_PAGE_ENCRYPTION_KEY_VERSION 4
  && header_field FIL_PAGE_ZIP_KEYRING_ENCRYPTION_MAGIC ZIP_PAGE_KEYRING_ENCRYPTION_MAGIC_LEN
  && (0 <=? ZIP_PAGE_KEYRING_ENCRYPTION_MAGIC_LEN)
  && (ZIP_PAGE_KEYRING_ENCRYPTION_MAGIC_LEN <=? blen ZIP_PAGE_KEYRING_ENCRYPTION_MAGIC)
  && fields_apart FIL_PAGE_TYPE 2 FIL_PAGE_ORIGINAL_TYPE_V1 2
  && fields_apart FIL_PAGE_TYPE 2 FIL_PAGE_COMPRESS_SIZE_V1 2
  && fields_apart FIL_PAGE_TYPE 2 FIL_PAGE_ENCRYPTION_KEY_VERSION 4
  && fields_apart FIL_PAGE_TYPE 2 FIL_PAGE_ZIP_KEYRING_ENCRYPTION_MAGIC
       ZIP_PAGE_KEYRING_ENCRYPTION_MAGIC_LEN
  && fields_apart FIL_PAGE_ORIGINAL_TYPE_V1 2 FIL_PAGE_ENCRYPTION_KEY_VERSION 4
  && fields_apart FIL_PAGE_ORIGINAL_TYPE_V1 2 FIL_PAGE_ZIP_KEYRING_ENCRYPTION_MAGIC
       ZIP_PAGE_KEYRING_ENCRYPTION_MAGIC_LEN
  && fields_apart FIL_PAGE_COMPRESS_SIZE_V1 2 FIL_PAGE_ZIP_KEYRING_ENCRYPTION_MAGIC
       ZIP_PAGE_KEYRING_ENCRYPTION_MAGIC_LEN
  && fields_apart FIL_PAGE_ENCRYPTION_KEY_VERSION 4 FIL_PAGE_ZIP_KEYRING_ENCRYPTION_MAGIC
       ZIP_PAGE_KEYRING_ENCRYPTION_MAGIC_LEN
  && (FIL_PAGE_END_LSN_OLD_CHKSUM =? 8)
  && page_type_code FIL_PAGE_TYPE_ALLOCATED
  && page_type_code FIL_PAGE_COMPRESSED
  && page_type_code FIL_PAGE_RTREE
  && page_type_code FIL_PAGE_ENCRYPTED
  && page_type_code FIL_PAGE_COMPRESSED_AND_ENCRYPTED
  && page_type_code FIL_PAGE_ENCRYPTED_RTREE
  && negb (FIL_PAGE_COMPRESSED =? FIL_PAGE_RTREE)
  && negb (FIL_PAGE_ENCRYPTED =? FIL_PAGE_COMPRESSED_AND_ENCRYPTED)
  && negb (FIL_PAGE_ENCRYPTED =? FIL_PAGE_ENCRYPTED_RTREE)
  && negb (FIL_PAGE_COMPRESSED_AND_ENCRYPTED =? FIL_PAGE_ENCRYPTED_RTREE).

(** The bytes of the destination that [encrypt_low] stamps in [KEYRING]
    mode: the key version and, for the master key to keyring rotation, the
    magic of a zip page and the checksum. *)
Definition keyring_stamped (type : IORequest) (e : Encryption)
    (page_type dst_len i : Z) : bool :=
  (if page_type =? FIL_PAGE_COMPRESSED then in_range FIL_PAGE_DATA 8 i
   else in_range FIL_PAGE_ENCRYPTION_KEY_VERSION 4 i
        || (negb (is_page_zip_compressed type)
            && is_MASTER_KEY_TO_KEYRING (m_encryption_rotation e)
            && in_range (dst_len - 4) 4 i))
  || (is_page_zip_compressed type
      && is_MASTER_KEY_TO_KEYRING (m_encryption_rotation e)
      && in_range FIL_PAGE_ZIP_KEYRING_ENCRYPTION_MAGIC
           ZIP_PAGE_KEYRING_ENCRYPTION_MAGIC_LEN i).

(** The bytes of the destination header that [encrypt_low] writes after it
    has copied the header: the page type, the original type of a page that
    is neither compressed nor an R-tree page, and the stamps of [KEYRING]
    mode. *)
Definition header_stamped (type : IORequest) (e : Encryption)
    (page_type dst_len i : Z) : bool :=
  in_range FIL_PAGE_TYPE 2 i
  || (negb (page_type =? FIL_PAGE_COMPRESSED) && negb (page_type =? FIL_PAGE_RTREE)
      && in_range FIL_PAGE_ORIGINAL_TYPE_V1 2 i)
  || (is_KEYRING (m_type e) && keyring_stamped type e page_type dst_len i).

(** The cipher in CBC mode without padding keeps the length, and decrypting
    with the key and initial vector of the encryption gives the plaintext
    back. *)
Definition cbc_inverse : Prop :=
  forall (p c : buffer) (key : option buffer) (klen : Z) (iv : option buffer),
    my_aes_encrypt p key klen my_aes_256_cbc iv false = Some c ->
    blen c = blen p /\ my_aes_decrypt c key klen my_aes_256_cbc iv false = Some p.





End Notions.

(** What the log block cryptor relies on about the constants of the redo
    log: the checksum field lies in the trailer, which the CRC-32 of a block
    leaves out. *)
Definition log_consts_ok {lc : LogConsts} : bool :=
  (0 <=? LOG_BLOCK_CHECKSUM) && (LOG_BLOCK_CHECKSUM <=? LOG_BLOCK_TRL_SIZE).

(** One step of the process-wide master key state: one of the three
    functions that write [s_master_key_id] returns. *)
Inductive master_key_step {K : Type} {ks : KeyringService K} {ic : InfoConsts}
    {prim : Primitives} (s s' : server K) : Prop :=
| step_create_master_key (master_key : option buffer) :
    create_master_key s = Ok (master_key, s') -> master_key_step s s'
| step_get_master_key (id id' : Z) (master_key : option buffer) :
    get_master_key s id = Ok (id', master_key, s') -> master_key_step s s'
| step_decode_encryption_info (key iv info : buffer) (decrypt_key : bool)
    (junk : Z -> byte) (r : decode_result K) :
    decode_encryption_info s key iv info decrypt_key junk = Ok r ->
    s' = dr_server r -> master_key_step s s'.

(** A run of the process in which no step starts from the largest 32-bit
    master key id. *)
Inductive master_key_run {K : Type} {ks : KeyringService K} {ic : InfoConsts}
    {prim : Primitives} : server K -> server K -> Prop :=
| run_done (s : server K) : master_key_run s s
| run_step (s s' s'' : server K) :
    s_master_key_id s < 2 ^ 32 - 1 ->
    master_key_step s s' -> master_key_run s' s'' -> master_key_run s s''.


(** ** The callers of the cryptors

    [Encryption::encrypt], [Encryption::encrypt_log] and
    [Encryption::decrypt_log] hand whole pages and runs of log blocks to the
    functions above. *)

(** The pointer that [encrypt] and [encrypt_log] return: the source when
    nothing was encrypted, the destination otherwise. *)
Inductive returned : Set :=
| returned_src
| returned_dst.

(** The memory behind the pointer [b + off]. *)
Definition advance (b : buffer) (off : Z) : buffer := skipn (Z.to_nat off) b.

(** [b] once the memory behind [b + off] has become [v]. *)
Definition store_behind (b : buffer) (off : Z) (v : buffer) : buffer :=
  firstn (Z.to_nat off) b ++ v.

(** The page types of fil0types.h that only
    [can_page_be_keyring_encrypted] names; their values are not in src/. *)
Class KeyringPageTypes : Set := {
  FIL_PAGE_TYPE_FSP_HDR : Z;
  FIL_PAGE_TYPE_XDES : Z
}.

(** What the block cryptor relies on about the layout of a log block: the
    field of the data length lies in the header, the checksum in the
    trailer, and between the header and the trailer there are at least two
    cipher blocks. *)
Definition log_layout_ok {lc : LogConsts} : bool :=
  (0 <=? LOG_BLOCK_HDR_DATA_LEN)
  && (LOG_BLOCK_HDR_DATA_LEN + 2 <=? LOG_BLOCK_HDR_SIZE)
  && (0 <=? LOG_BLOCK_TRL_SIZE)
  && (4 <=? LOG_BLOCK_CHECKSUM)
  && (LOG_BLOCK_CHECKSUM <=? LOG_BLOCK_TRL_SIZE)
  && (LOG_BLOCK_HDR_SIZE + 2 * MY_AES_BLOCK_SIZE + LOG_BLOCK_TRL_SIZE
      <=? OS_FILE_LOG_BLOCK_SIZE).

Section Callers.
Context {fc : FilConsts} {kp : KeyringPageTypes} {lc : LogConsts} {prim : Primitives}
  {rk : RedoLogKeys}.

(** [Encryption::is_encrypted_and_compressed] *)
Definition is_encrypted_and_compressed (page : buffer) : result bool :=
  page_type <- mach_read_from_2 page FIL_PAGE_TYPE ;;
  Ok (page_type =? FIL_PAGE_COMPRESSED_AND_ENCRYPTED).

(** [Encryption::can_page_be_keyring_encrypted(ulint page_type)] *)
Definition can_page_be_keyring_encrypted (page_type : Z) : bool :=
  if (page_type =? FIL_PAGE_TYPE_FSP_HDR) || (page_type =? FIL_PAGE_TYPE_XDES)
     || (page_type =? FIL_PAGE_RTREE)
  then
    (* File space header, extent descriptor or spatial index are not
       encrypted. *)
    false
  else true.

(** [Encryption::can_page_be_keyring_encrypted(byte *page)] *)
Definition can_page_be_keyring_encrypted_page (page : buffer) : result bool :=
  page_type <- mach_read_from_2 page FIL_PAGE_TYPE ;;
  Ok (can_page_be_keyring_encrypted page_type).

(** [Encryption::encrypt].  [is_log] is [type.is_log()], and
    [pages_encrypted] the counter [srv_stats.pages_encrypted]; the result
    holds the pointer that is returned, what [encrypt_low] left, and the
    counter. *)
Definition encrypt (is_log : bool) (type : IORequest) (e : Encryption)
    (src : buffer) (src_len : Z) (dst : buffer) (dst_len : Z) (pages_encrypted : Z)
    : result (returned * crypt_state * Z) :=
  (* For encrypting redo log, take another way. *)
  ut_ad UNIV_DEBUG (negb is_log) ;;;
  ut_ad UNIV_DEBUG (negb (is_NONE (m_type e))) ;;;
  r <- encrypt_low type e src src_len dst dst_len ;;
  let (ok, st) := r in
  if negb ok then Ok (returned_src, st, pages_encrypted)
  else Ok (returned_dst, st, pages_encrypted + 1).

(** The loop of [encrypt_log]: the blocks from [src + off] on are encrypted
    one by one into [dst + off], until [src + src_len] is reached.  The
    boolean is [false] when [encrypt_log_block] returned [false]; there is no
    result when the loop is still running after [fuel] blocks.  [junk off]
    gives what the array of [encrypt_log_block] that is not initialised holds
    when the block at [off] is encrypted. *)
Fixpoint encrypt_log_blocks (fuel : nat) (e : Encryption) (src : buffer)
    (src_len off : Z) (dst : buffer) (junk : Z -> Z -> byte)
    : option (result (bool * buffer)) :=
  if off =? src_len then Some (Ok (true, dst))
  else
    match fuel with
    | O => None
    | S fuel' =>
      match encrypt_log_block e (advance src off) (advance dst off) (junk off) with
      | Fault f => Some (Fault f)
      | Ok (false, block) => Some (Ok (false, store_behind dst off block))
      | Ok (true, block) =>
        encrypt_log_blocks fuel' e src src_len (off + OS_FILE_LOG_BLOCK_SIZE)
          (store_behind dst off block) junk
      end
    end.

(** [Encryption::encrypt_log]: the pointer that is returned, the destination
    and [*dst_len], which is written only when a block could not be
    encrypted. *)
Definition encrypt_log (fuel : nat) (is_log : bool) (e : Encryption)
    (src : buffer) (src_len : Z) (dst : buffer) (dst_len : Z)
    (junk : Z -> Z -> byte) : option (result (returned * buffer * Z)) :=
  match ut_ad UNIV_DEBUG is_log ;;;
        ut_ad UNIV_DEBUG (src_len mod OS_FILE_LOG_BLOCK_SIZE =? 0) ;;;
        ut_ad UNIV_DEBUG (negb (is_NONE (m_type e))) with
  | Fault f => Some (Fault f)
  | Ok _ =>
    (* Encrypt the log blocks one by one. *)
    match encrypt_log_blocks fuel e src src_len 0 dst junk with
    | None => None
    | Some (Fault f) => Some (Fault f)
    | Some (Ok (false, dst)) => Some (Ok (returned_src, dst, src_len))
    | Some (Ok (true, dst)) => Some (Ok (returned_dst, dst, dst_len))
    end
  end.

(** The loop of [decrypt_log]: the blocks from [src + off] on that have the
    encrypted bit are decrypted in place, with the scratch area [dst], until
    [src + src_len] is reached or a block fails. *)
Fixpoint decrypt_log_blocks (fuel : nat) (e : Encryption) (src : buffer)
    (src_len off : Z) (dst : buffer)
    : option (result (dberr_t * (Encryption * buffer * buffer))) :=
  if off =? src_len then Some (Ok (DB_SUCCESS, (e, src, dst)))
  else
    match fuel with
    | O => None
    | S fuel' =>
      match is_encrypted_log (advance src off) with
      | Fault f => Some (Fault f)
      | Ok false =>
        (* If it's not an encrypted block, skip it. *)
        decrypt_log_blocks fuel' e src src_len (off + OS_FILE_LOG_BLOCK_SIZE) dst
      | Ok true =>
        (* Decrypt block *)
        match decrypt_log_block e (advance src off) dst with
        | Fault f => Some (Fault f)
        | Ok (DB_SUCCESS, (e, block, dst)) =>
          decrypt_log_blocks fuel' e (store_behind src off block) src_len
            (off + OS_FILE_LOG_BLOCK_SIZE) dst
        | Ok (ret, (e, block, dst)) =>
          Some (Ok (ret, (e, store_behind src off block, dst)))
        end
      end
    end.

(** [Encryption::decrypt_log].  The scratch area is [dst], or the block of
    [os_alloc_block()] when the caller passes none, which is freed at the
    end. *)
Definition decrypt_log (fuel : nat) (is_log : bool) (e : Encryption)
    (src : buffer) (src_len : Z) (dst : option buffer) (dst_len : Z)
    : option (result (dberr_t * (Encryption * buffer * option buffer))) :=
  (* Do nothing if it's not a log request. *)
  match ut_ad UNIV_DEBUG is_log with
  | Fault f => Some (Fault f)
  | Ok _ =>
    (* The caller doesn't know what to expect *)
    let block := match dst with Some d => d | None => os_alloc_block end in
    (* Decrypt the log blocks one by one. *)
    match decrypt_log_blocks fuel e src src_len 0 block with
    | None => None
    | Some (Fault f) => Some (Fault f)
    | Some (Ok (ret, (e, src, block))) =>
      Some (Ok (ret, (e, src, match dst with Some _ => Some block | None => None end)))
    end
  end.

End Callers.

(** ** The encryption-info encoder *)

(** The size of an encryption information and the magic of the information
    of a redo log key, of os0enc.h; they are not in src/. *)
Class InfoLayout : Set := {
  INFO_SIZE : Z;
  KEY_MAGIC_RK_V2 : buffer
}.

(** What [fill_encryption_info] leaves behind: its result, the caller's
    [encrypt_info], the process-wide state and the flag
    [default_master_key_used]. *)
Record fill_result (K : Type) : Type := mkFillResult {
  fr_ok : bool;
  fr_info : buffer;
  fr_server : server K;
  fr_default_master_key_used : bool
}.

Arguments mkFillResult {K}.
Arguments fr_ok {K}.
Arguments fr_info {K}.
Arguments fr_server {K}.
Arguments fr_default_master_key_used {K}.

Section InfoEncoder.
Context {K : Type} {ks : KeyringService K} {ic : InfoConsts} {il : InfoLayout}
  {prim : Primitives}.

(** [fill_encryption_info], lines 618-635: the master key that wraps the
    tablespace key, with its id.  For bootstrap it is the default master
    key, whose id is 0; [DEFAULT_MASTER_KEY] is the characters of the string,
    which [strcpy] stores with the NUL behind them. *)
Definition fill_master_key (s : server K) (default_master_key_used is_boot : bool)
    : result (option buffer * Z * server K * bool) :=
  let master_key_id := DEFAULT_MASTER_KEY_ID in
  if is_boot || (length (cstring (server_uuid s)) =? 0)%nat then
    ut_ad UNIV_DEBUG (blen DEFAULT_MASTER_KEY + 1 <=? KEY_LEN) ;;;
    master_key <- mem_write (repeat x00 (Z.to_nat KEY_LEN)) 0 (DEFAULT_MASTER_KEY ++ [x00]) ;;
    Ok (Some master_key, master_key_id, s, true)
  else
    r <- get_master_key s master_key_id ;;
    let '(master_key_id, master_key, s) := r in
    Ok (master_key, master_key_id, s, default_master_key_used).

(** [fill_encryption_info], lines 637-697: magic, master key id, server uuid,
    the 64 bytes {key, iv} under the master key or as they are, and their
    checksum.  The boolean is [false] when [my_aes_encrypt] gave
    [MY_AES_BAD_DATA]. *)
Definition fill_info (s : server K) (srv_is_uuid_ready : bool)
    (key iv encrypt_info : buffer) (master_key : option buffer) (master_key_id : Z)
    (encrypt_key : bool) : result (bool * buffer) :=
  info <- memset encrypt_info 0 x00 INFO_SIZE ;;
  (* Use the new master key to encrypt the key. *)
  let ptr := 0 in
  magic <- mem_read KEY_MAGIC_V3 0 MAGIC_SIZE ;;
  info <- mem_write info ptr magic ;;
  let ptr := ptr + MAGIC_SIZE in
  (* Write master key id. *)
  info <- mach_write_to_4 info ptr master_key_id ;;
  let ptr := ptr + 4 in
  (* Write server uuid. *)
  u <- mem_read (s_uuid s) 0 (SERVER_UUID_LEN + 1) ;;
  info <- mem_write info ptr u ;;
  let ptr := ptr + (SERVER_UUID_LEN + 1) - 1 in
  (* We should never write empty UUID. *)
  ut_ad UNIV_DEBUG (negb srv_is_uuid_ready || negb (length (cstring (s_uuid s)) =? 0)%nat) ;;;
  let key_info := repeat x00 (Z.to_nat (KEY_LEN * 2)) in
  k <- mem_read key 0 KEY_LEN ;;
  key_info <- mem_write key_info 0 k ;;
  v <- mem_read iv 0 KEY_LEN ;;
  key_info <- mem_write key_info KEY_LEN v ;;
  r <- (if encrypt_key then
          (* Encrypt key and iv. *)
          match my_aes_encrypt key_info master_key (uint32 KEY_LEN) my_aes_256_ecb None false with
          | None => Ok None
          | Some out =>
            info <- mem_write info ptr out ;;
            Ok (Some info)
          end
        else
          (* Keep tablespace key unencrypted. Used by clone. *)
          info <- mem_write info ptr key_info ;;
          Ok (Some info)) ;;
  match r with
  | None => Ok (false, info)
  | Some info =>
    let ptr := ptr + KEY_LEN * 2 in
    (* Write checksum bytes. *)
    let crc := uint32 (ut_crc32 key_info) in
    info <- mach_write_to_4 info ptr crc ;;
    ut_ad UNIV_DEBUG (negb encrypt_key || negb (is_null master_key)) ;;;
    Ok (true, info)
  end.

(** [Encryption::fill_encryption_info(key, iv, encrypt_info, is_boot,
    encrypt_key)].  [srv_is_uuid_ready] and [default_master_key_used] are the
    values of the two flags when the function is called. *)
Definition fill_encryption_info (s : server K)
    (srv_is_uuid_ready default_master_key_used : bool)
    (key iv encrypt_info : buffer) (is_boot encrypt_key : bool)
    : result (fill_result K) :=
  (* Get master key from key ring. For bootstrap, we use a default master
     key which master_key_id is 0. *)
  if encrypt_key then
    r <- fill_master_key s default_master_key_used is_boot ;;
    let '(master_key, master_key_id, s, used) := r in
    if is_null master_key then Ok (mkFillResult false encrypt_info s used)
    else
      r <- fill_info s srv_is_uuid_ready key iv encrypt_info master_key master_key_id true ;;
      let (ok, info) := r in
      Ok (mkFillResult ok info s used)
  else
    r <- fill_info s srv_is_uuid_ready key iv encrypt_info None DEFAULT_MASTER_KEY_ID false ;;
    let (ok, info) := r in
    Ok (mkFillResult ok info s default_master_key_used).

(** [Encryption::fill_encryption_info(key_version, iv, encrypt_info)]: the
    information of a redo log key. *)
Definition fill_encryption_info_key_version (s : server K) (key_version : Z)
    (iv encrypt_info : buffer) : result (bool * buffer) :=
  let ptr := 0 in
  info <- memset encrypt_info 0 x00 INFO_SIZE ;;
  magic <- mem_read KEY_MAGIC_RK_V2 0 MAGIC_SIZE ;;
  info <- mem_write info ptr magic ;;
  let ptr := ptr + MAGIC_SIZE in
  (* Write master key id. *)
  info <- mach_write_to_4 info ptr key_version ;;
  let ptr := ptr + 4 in
  (* Write server uuid. *)
  u <- mem_read (server_uuid s) 0 SERVER_UUID_LEN ;;
  info <- mem_write info ptr u ;;
  let ptr := ptr + SERVER_UUID_LEN in
  (* Write tablespace iv. *)
  v <- mem_read iv 0 KEY_LEN ;;
  info <- mem_write info ptr v ;;
  let ptr := ptr + KEY_LEN in
  (* Write checksum bytes. *)
  c <- mem_read info 0 KEY_LEN ;;
  let crc := ulint (ut_crc32 c) in
  info <- mach_write_to_4 info ptr crc ;;
  Ok (true, info).

End InfoEncoder.

Section InfoNotions.
Context {ic : InfoConsts} {il : InfoLayout} {prim : Primitives}.

(** The cipher in ECB mode without padding and without an initial vector
    keeps the length, and decrypting with the key of the encryption gives
    the plaintext back. *)
Definition ecb_inverse : Prop :=
  forall (p c : buffer) (key : option buffer) (klen : Z),
    my_aes_encrypt p key klen my_aes_256_ecb None false = Some c ->
    blen c = blen p /\ my_aes_decrypt c key klen my_aes_256_ecb None false = Some p.

(** What the encoder and the decoder rely on about os0enc.h: the magics
    have [MAGIC_SIZE] bytes, the magic of version 3 is neither of the two
    older ones, and an information has room for the magic, the master key
    id, the server uuid, the 64 bytes {key, iv} and the checksum. *)
Definition info_layout_ok : bool :=
  (MAGIC_SIZE <=? blen KEY_MAGIC_V1)
  && (MAGIC_SIZE <=? blen KEY_MAGIC_V2)
  && (MAGIC_SIZE <=? blen KEY_MAGIC_V3)
  && negb (buffer_eqb (sub KEY_MAGIC_V3 0 MAGIC_SIZE) (sub KEY_MAGIC_V1 0 MAGIC_SIZE))
  && negb (buffer_eqb (sub KEY_MAGIC_V3 0 MAGIC_SIZE) (sub KEY_MAGIC_V2 0 MAGIC_SIZE))
  && (MAGIC_SIZE + 4 + SERVER_UUID_LEN + KEY_LEN * 2 + 4 <=? INFO_SIZE).

(** [s_uuid] is an array of [SERVER_UUID_LEN + 1] characters whose last one
    is the NUL. *)
Definition uuid_terminated (u : buffer) : bool :=
  (blen u =? SERVER_UUID_LEN + 1) && Byte.eqb (byte_at u SERVER_UUID_LEN) x00.

End InfoNotions.

(** ** The tablespace keys of the keyring encryption and the keyring check

    The keys of KEYRING encryption live in the keyring under names of their
    own.  The functions are those of the server build ([UNIV_INNOCHECKSUM]
    not defined). *)

Module SystemKeys.

(** The name of a key that is no master key.  [fill_key_name] prints
    ["%s-%u-%s"] or ["%s-%u-%s:%u"] from [PERCONA_SYSTEM_KEY_PREFIX], a key
    id, a uuid and a key version; [is_keyring_alive] and [check_keyring] hand
    a string over as it is.  The model keeps what is printed. *)
Inductive system_key_name : Set :=
| tablespace_key_name (key_id : Z) (uuid : buffer)
| tablespace_key_version_name (key_id : Z) (uuid : buffer) (key_version : Z)
| plain_key_name (name : buffer).

(** The keyring service under these names, with [my_key_remove], and what
    system_key.h gives; neither is in src/.  [parse_system_key] takes the
    key version, the key data and the length of the key data out of the
    bytes that the keyring holds for a system key; when it returns a null
    pointer (here [None]) it is taken to leave its out parameters as they
    were. *)
Class SystemKeyring (K : Type) : Type := {
  my_key_generate : K -> system_key_name -> Z * K;
  my_key_fetch : K -> system_key_name -> Z * option buffer;
  my_key_remove : K -> system_key_name -> Z * K;
  parse_system_key : buffer -> option (Z * buffer * Z);
  ENCRYPTION_KEY_VERSION_INVALID : Z
}.

Section TablespaceKeys.
Context {K : Type} {ks : KeyringService K} {kr : SystemKeyring K} {ic : InfoConsts}
  {prim : Primitives}.

(** [Encryption::fill_key_name(key_name, key_id, uuid)] *)
Definition fill_key_name (key_id : Z) (uuid : buffer) : result system_key_name :=
  (* All InnoDB keys used for KEYRING encryption should have uuid
     assigned. *)
  ut_ad UNIV_DEBUG (0 <? Z.of_nat (length (cstring uuid))) ;;;
  Ok (tablespace_key_name key_id (cstring uuid)).

(** [Encryption::fill_key_name(key_name, key_id, uuid, key_version)] *)
Definition fill_key_name_version (key_id : Z) (uuid : buffer) (key_version : Z)
    : result system_key_name :=
  ut_ad UNIV_DEBUG (0 <? Z.of_nat (length (cstring uuid))) ;;;
  Ok (tablespace_key_version_name key_id (cstring uuid) key_version).

(** [Encryption::create_tablespace_key(tablespace_key, key_id, uuid)]:
    [tablespace_key] is what the caller holds at [*tablespace_key]; the
    result gives what is there afterwards. *)
Definition create_tablespace_key (s : server K) (tablespace_key : option buffer)
    (key_id : Z) (uuid : buffer) : result (option buffer * server K) :=
  (* Newly created tablespace keys should always have uuid equal to
     server_uuid. *)
  ut_ad_m (if (length (cstring (server_uuid s)) =? 0)%nat then Ok true
           else memcmp_eq (server_uuid s) 0 uuid 0 SERVER_UUID_LEN) ;;;
  key_name <- fill_key_name key_id uuid ;;
  (* We call key ring API to generate tablespace key here. *)
  let (ret, k) := my_key_generate (keyring s) key_name in
  let s := set_keyring s k in
  if negb (ret =? 0) then Ok (None, s)
  else
    (* We call key ring API to get tablespace key here. *)
    let (ret, system_tablespace_key) := my_key_fetch (keyring s) key_name in
    match (if negb (ret =? 0) then None else system_tablespace_key) with
    | None => Ok (None, s)
    | Some system_key =>
      match parse_system_key system_key with
      | None => Ok (tablespace_key, s)
      | Some (tablespace_key_version, key_data, tablespace_key_data_length) =>
        (* Newly created key should have 1 assigned as its key version *)
        ut_ad UNIV_DEBUG (tablespace_key_version =? 1) ;;;
        ut_ad UNIV_DEBUG (tablespace_key_data_length =? KEY_LEN) ;;;
        Ok (Some key_data, s)
      end
    end.

(** [Encryption::get_keyring_key] under a name of this kind. *)
Definition get_keyring_key (s : server K) (key_name : system_key_name) : option buffer :=
  let (ret, key) := my_key_fetch (keyring s) key_name in
  if negb (ret =? 0) then None else key.

(** [Encryption::get_tablespace_key]: its result and the key. *)
Definition get_tablespace_key (s : server K) (key_id : Z) (uuid : buffer)
    (tablespace_key_version : Z) : result (bool * option buffer) :=
  key_name <- fill_key_name_version key_id uuid tablespace_key_version ;;
  let tablespace_key := get_keyring_key s key_name in
  Ok (negb (is_null tablespace_key), tablespace_key).

(** [Encryption::get_latest_system_key]: [key] and [key_version] are what
    the caller holds at [*key] and [*key_version]; the result gives what is
    there afterwards. *)
Definition get_latest_system_key (s : server K) (system_key_name : system_key_name)
    (key : option buffer) (key_version : Z) : option buffer * Z :=
  match get_keyring_key s system_key_name with
  | None => (None, key_version)
  | Some system_key =>
    match parse_system_key system_key with
    | None => (key, key_version)
    | Some (version, key_data, _) => (Some key_data, version)
    end
  end.

(** [Encryption::get_latest_tablespace_key] *)
Definition get_latest_tablespace_key (s : server K) (key_id : Z) (uuid : buffer)
    (tablespace_key : option buffer) (tablespace_key_version : Z)
    : result (option buffer * Z) :=
  key_name <- fill_key_name key_id uuid ;;
  Ok (get_latest_system_key s key_name tablespace_key tablespace_key_version).

(** [Encryption::tablespace_key_exists] *)
Definition tablespace_key_exists (s : server K) (key_id : Z) (uuid : buffer)
    : result bool :=
  r <- get_latest_tablespace_key s key_id uuid None 0 ;;
  Ok (negb (is_null (fst r))).

(** [Encryption::get_latest_key_or_create] *)
Definition get_latest_key_or_create (s : server K) (tablespace_key_id : Z)
    (uuid : buffer) (tablespace_key : option buffer) (tablespace_key_version : Z)
    : result (option buffer * Z * server K) :=
  r <- get_latest_tablespace_key s tablespace_key_id uuid tablespace_key
         tablespace_key_version ;;
  let (tablespace_key, tablespace_key_version) := r in
  if is_null tablespace_key then
    c <- create_tablespace_key s tablespace_key tablespace_key_id uuid ;;
    let (tablespace_key, s) := c in
    Ok (tablespace_key, 1, s)
  else Ok (tablespace_key, tablespace_key_version, s).

(** [Encryption::tablespace_key_exists_or_create_new_one_if_does_not_exist]:
    the function does not initialise its two locals, so that what they hold
    at first is given here by [tablespace_key] and
    [tablespace_key_version]. *)
Definition tablespace_key_exists_or_create_new_one_if_does_not_exist (s : server K)
    (key_id : Z) (uuid : buffer) (tablespace_key : option buffer)
    (tablespace_key_version : Z) : result (bool * server K) :=
  r <- get_latest_key_or_create s key_id uuid tablespace_key tablespace_key_version ;;
  let '(tablespace_key, _, s) := r in
  Ok (negb (is_null tablespace_key), s).

(** [Encryption::create_tablespace_key(EncryptionKeyId key_id)]: [true]
    says that no key was created. *)
Definition create_tablespace_key_of_id (s : server K) (key_id : Z)
    : result (bool * server K) :=
  c <- create_tablespace_key s None key_id (server_uuid s) ;;
  let (tablespace_key, s) := c in
  Ok (is_null tablespace_key, s).

(** The string ["percona_keyring_test"]. *)
Definition percona_keyring_test_key_name : buffer :=
  [x70; x65; x72; x63; x6f; x6e; x61; x5f; x6b; x65; x79; x72; x69; x6e; x67; x5f;
   x74; x65; x73; x74].

(** [Encryption::is_keyring_alive] *)
Definition is_keyring_alive (s : server K) : bool * server K :=
  match get_keyring_key s (plain_key_name percona_keyring_test_key_name) with
  | Some _ => (true, s)
  | None =>
    let (ret, k) :=
      my_key_generate (keyring s) (plain_key_name percona_keyring_test_key_name) in
    (ret =? 0, set_keyring s k)
  end.

(** [Encryption::encryption_get_latest_version] *)
Definition encryption_get_latest_version (s : server K) (key_id : Z) (uuid : buffer)
    : result Z :=
  r <- get_latest_tablespace_key s key_id uuid None ENCRYPTION_KEY_VERSION_INVALID ;;
  let (tablespace_key, tablespace_key_version) := r in
  if is_null tablespace_key then Ok ENCRYPTION_KEY_VERSION_INVALID
  else Ok tablespace_key_version.

(** [Encryption::check_keyring]: [checked] is the static flag of the
    function, [master_key_id] what its uninitialised local holds; the result
    gives the returned value, the state and the flag. *)
Definition check_keyring (s : server K) (checked : bool) (master_key_id : Z)
    : result (bool * server K * bool) :=
  (* During bootstrap, default master key is used *)
  if s_master_key_id s =? DEFAULT_MASTER_KEY_ID then
    if checked then Ok (true, s, checked)
    else
      (* Generate/Fetch/Delete a dummy master key to confirm keyring is up
         and running. *)
      let key_name := plain_key_name DEFAULT_MASTER_KEY in
      let (_, k) := my_key_generate (keyring s) key_name in
      let s := set_keyring s k in
      let (my_ret, _) := my_key_fetch (keyring s) key_name in
      if negb (my_ret =? 0) then Ok (false, s, checked)
      else
        let (_, k) := my_key_remove (keyring s) key_name in
        Ok (true, set_keyring s k, true)
  else
    r <- get_master_key s master_key_id ;;
    let '(_, master_key, s) := r in
    Ok (negb (is_null master_key), s, checked).

End TablespaceKeys.

End SystemKeys.

(** ** A concrete platform

    The page header of fil0types.h as the parameters above, and stand-ins for
    the cipher and the checksums, so that the model runs on concrete pages. *)

Module Example.

#[export] Instance innodb_consts : FilConsts := {|
  FIL_PAGE_LSN := 16;
  FIL_PAGE_TYPE := 24;
  FIL_PAGE_ORIGINAL_TYPE_V1 := 28;
  FIL_PAGE_COMPRESS_SIZE_V1 := 32;
  FIL_PAGE_ENCRYPTION_KEY_VERSION := 30;
  FIL_PAGE_ZIP_KEYRING_ENCRYPTION_MAGIC := 26;
  FIL_PAGE_END_LSN_OLD_CHKSUM := 8;
  FIL_PAGE_TYPE_ALLOCATED := 0;
  FIL_PAGE_COMPRESSED := 14;
  FIL_PAGE_ENCRYPTED := 15;
  FIL_PAGE_COMPRESSED_AND_ENCRYPTED := 16;
  FIL_PAGE_ENCRYPTED_RTREE := 17;
  FIL_PAGE_RTREE := 17854;
  FIL_PAGE_VERSION_1 := 1;
  ZIP_PAGE_KEYRING_ENCRYPTION_MAGIC := [x52; x4b];
  ZIP_PAGE_KEYRING_ENCRYPTION_MAGIC_LEN := 2
|}.

(** A length-preserving, invertible stand-in for AES: every byte is moved
    one step forward, and one step back to decrypt.  A null key is refused. *)
Definition shift_byte (d : Z) (b : byte) : byte := byte_of_Z (byte_to_Z b + d).

Definition shift_cipher (d : Z) (source : buffer) (key : option buffer) (klen : Z)
    (mode : my_aes_opmode) (iv : option buffer) (padding : bool) : option buffer :=
  match key with
  | None => None
  | Some _ => Some (map (shift_byte d) source)
  end.

(** A stand-in for CRC-32: the sum of the bytes, in 32 bits. *)
Definition byte_sum (b : buffer) : Z :=
  uint32 (fold_right (fun x acc => byte_to_Z x + acc) 0 b).

Definition platform (debug : bool) : Primitives := {|
  UNIV_DEBUG := debug;
  my_aes_encrypt := shift_cipher 1;
  my_aes_decrypt := shift_cipher (-1);
  ut_crc32 := byte_sum;
  fil_crypt_calculate_checksum := fun page_size page zip => 1 + byte_sum (sub page 0 page_size) mod 1000;
  compression_header_version := fun page => byte_to_Z (byte_at page 26);
  os_alloc_block := repeat x00 (Z.to_nat 16384)
|}.

(** The constants of the redo log block: a header of 12 bytes, a trailer of
    4 bytes that is the checksum, and the encrypted bit as the top bit of the
    data length field at offset 4. *)
#[export] Instance innodb_log_consts : LogConsts := {|
  LOG_BLOCK_HDR_SIZE := 12;
  LOG_BLOCK_TRL_SIZE := 4;
  LOG_BLOCK_HDR_DATA_LEN := 4;
  LOG_BLOCK_ENCRYPT_BIT_MASK := 32768;
  LOG_BLOCK_CHECKSUM := 4;
  REDO_LOG_ENCRYPT_NO_VERSION := 0
|}.

(** A redo log key manager that holds a key for every version. *)
#[export] Instance redo_keys : RedoLogKeys := {|
  load_key_version := fun uuid version => Some (version, Some (repeat (byte_of_Z version) 32))
|}.

(** The magics ["lCA"], ["lCB"], ["lCC"] and the default master key
    ["DefaultMasterKey"]. *)
#[export] Instance info_consts : InfoConsts := {|
  KEY_MAGIC_V1 := [x6c; x43; x41];
  KEY_MAGIC_V2 := [x6c; x43; x42];
  KEY_MAGIC_V3 := [x6c; x43; x43];
  DEFAULT_MASTER_KEY :=
    [x44; x65; x66; x61; x75; x6c; x74; x4d; x61; x73; x74; x65; x72; x4b; x65; x79]
|}.

Definition key_name_eqb (a b : key_name) : bool :=
  match a, b with
  | master_key_by_uuid u i, master_key_by_uuid u' i' => buffer_eqb u u' && (i =? i')
  | master_key_by_server_id n i, master_key_by_server_id n' i' => (n =? n') && (i =? i')
  | _, _ => false
  end.

(** A keyring as the list of the names it holds; the key under a name is 32
    bytes made from the master key id of the name. *)
Definition key_of_name (name : key_name) : buffer :=
  match name with
  | master_key_by_uuid _ i => repeat (byte_of_Z i) 32
  | master_key_by_server_id _ i => repeat (byte_of_Z (i + 128)) 32
  end.

#[export] Instance list_keyring : KeyringService (list key_name) := {|
  my_key_generate := fun k name =>
    if existsb (key_name_eqb name) k then (1, k) else (0, name :: k);
  my_key_fetch := fun k name =>
    if existsb (key_name_eqb name) k then (0, Some (key_of_name name)) else (0, None)
|}.

Definition uuid36 : buffer := repeat x61 36.

(** A server with master key id [id], its uuid set, and the keyring [k]. *)
Definition server_with (id : Z) (k : list key_name) (recovery : bool)
    : server (list key_name) :=
  mkServer id (uuid36 ++ [x00]) k (uuid36 ++ [x00]) 1 recovery.

Definition key32 : buffer := repeat x11 32.
Definition iv32 : buffer := repeat x22 32.

Definition context (t : Encryption_Type) (version : Z) (r : Encryption_rotation) : Encryption :=
  mkEncryption t (Some key32) 32 (Some iv32) version 7 0 r (repeat x61 36).

Definition request (zip : bool) : IORequest := mkIORequest zip 8192 512 false.

(** A page of [n] bytes with the page type [t] in its header and [fill]
    everywhere else. *)
Definition page_of_type (t : Z) (fill : byte) (n : Z) : buffer :=
  blit (repeat fill (Z.to_nat n)) 24 (enc2 t).

(** The state that a run of [encrypt_low] on the platform leaves, for the
    runs below that return [true]. *)
Definition encrypted (debug : bool) (type : IORequest) (e : Encryption)
    (src : buffer) (n : Z) : crypt_state :=
  match @encrypt_low innodb_consts (platform debug) type e src n
          (repeat x00 (Z.to_nat n)) n with
  | Ok (_, st) => st
  | Fault _ => mkCryptState e src [] 0
  end.

(** A page of 16 KiB of [0xAB], as an index page that is not compressed. *)
Definition page_16k : buffer := repeat xab (Z.to_nat 16384).

(** A small index page ([FIL_PAGE_INDEX] is 17855), 100 bytes long. *)
Definition index_page : buffer := page_of_type 17855 xab 100.

(** A page of type [FIL_PAGE_COMPRESSED] whose header is zero elsewhere. *)
Definition compressed_page : buffer := page_of_type 14 x00 200.

(** A version 3 encryption info for the tablespace key [key32] and the
    initial vector [iv32] under the master key 1 of the keyring: magic,
    master key id, server uuid, the 64 bytes {key, iv} under the stand-in
    cipher, and the checksum of the plain 64 bytes. *)
Definition info_v3 : buffer :=
  [x6c; x43; x43] ++ enc4 1 ++ uuid36
  ++ map (shift_byte 1) (key32 ++ iv32) ++ enc4 (byte_sum (key32 ++ iv32)).

(** A version 3 encryption info under the master key with the largest
    32-bit id. *)
Definition info_v3_last_id : buffer :=
  [x6c; x43; x43] ++ enc4 4294967295 ++ uuid36
  ++ map (shift_byte 1) (key32 ++ iv32) ++ enc4 (byte_sum (key32 ++ iv32)).

(** The same info with the first byte of the wrapped region changed. *)
Definition info_v3_tampered : buffer :=
  blit info_v3 (3 + 4 + 36) [x00].

(** An info whose magic is none of the three. *)
Definition info_unknown : buffer := repeat x00 (Z.to_nat 111).


(** A small R-tree page ([FIL_PAGE_RTREE] is 17854), 100 bytes long. *)
Definition rtree_page : buffer := page_of_type 17854 xab 100.

(** The error code and the page that a run of [decrypt] on the platform
    leaves, with a scratch block of the length of the page. *)
Definition decrypted (debug : bool) (type : IORequest) (e : Encryption)
    (page : buffer) (n : Z) : option (dberr_t * buffer) :=
  match @decrypt innodb_consts (platform debug) type e page n
          (Some (repeat x00 (Z.to_nat n))) n with
  | Ok (err, (out, _)) => Some (err, out)
  | Fault _ => None
  end.

(** A log block of 512 bytes of [0x5A]. *)
Definition log_block : buffer := repeat x5a (Z.to_nat 512).

(** The block that [encrypt_log_block] leaves on the platform. *)
Definition encrypted_block (debug : bool) (e : Encryption) (src : buffer) : buffer :=
  match @encrypt_log_block innodb_log_consts (platform debug) e src
          (repeat x00 (Z.to_nat 512)) (fun _ => xcc) with
  | Ok (_, b) => b
  | Fault _ => []
  end.

End Example.

(** ** More of the concrete platform

    The page types of the keyring encryption, the layout of an encryption
    information, a keyring for the keys under other names, and what the
    callers leave on concrete pages and log blocks. *)

Module Example2.
Import Example.

(** [FIL_PAGE_TYPE_FSP_HDR] and [FIL_PAGE_TYPE_XDES] of fil0types.h. *)
#[export] Instance keyring_page_types : KeyringPageTypes := {|
  FIL_PAGE_TYPE_FSP_HDR := 8;
  FIL_PAGE_TYPE_XDES := 9
|}.

(** An encryption information of 111 bytes, and the magic ["lRB"]. *)
#[export] Instance info_layout : InfoLayout := {|
  INFO_SIZE := 111;
  KEY_MAGIC_RK_V2 := [x6c; x52; x42]
|}.

(** A keyring that keeps the master keys and the keys under other names
    side by side.  What it holds for a system key is the byte of the key
    version before 32 bytes of key data, and [parse_system_key] takes the
    two apart. *)
Definition system_key_name_eqb (a b : SystemKeys.system_key_name) : bool :=
  match a, b with
  | SystemKeys.tablespace_key_name i u, SystemKeys.tablespace_key_name j v => (i =? j) && buffer_eqb u v
  | SystemKeys.tablespace_key_version_name i u x, SystemKeys.tablespace_key_version_name j v y =>
    (i =? j) && buffer_eqb u v && (x =? y)
  | SystemKeys.plain_key_name n, SystemKeys.plain_key_name m => buffer_eqb n m
  | _, _ => false
  end.

Definition keyring_of_both : Type := (list key_name * list SystemKeys.system_key_name)%type.

#[export] Instance both_keyring : KeyringService keyring_of_both := {|
  my_key_generate := fun k name =>
    let (ret, l) := my_key_generate (fst k) name in (ret, (l, snd k));
  my_key_fetch := fun k name => my_key_fetch (fst k) name
|}.

#[export] Instance system_keyring : SystemKeys.SystemKeyring keyring_of_both := {|
  SystemKeys.my_key_generate := fun k name =>
    if existsb (system_key_name_eqb name) (snd k) then (1, k)
    else (0, (fst k, name :: snd k));
  SystemKeys.my_key_fetch := fun k name =>
    if existsb (system_key_name_eqb name) (snd k)
    then (0, Some (x01 :: repeat x2a 32))
    else (1, None);
  SystemKeys.my_key_remove := fun k name =>
    (0, (fst k, filter (fun n => negb (system_key_name_eqb name n)) (snd k)));
  SystemKeys.parse_system_key := fun system_key =>
    match system_key with
    | [] => None
    | v :: key_data => Some (byte_to_Z v, key_data, blen key_data)
    end;
  SystemKeys.ENCRYPTION_KEY_VERSION_INVALID := 4294967295
|}.

Definition server_of_both (id : Z) (k : keyring_of_both) : server keyring_of_both :=
  mkServer id (uuid36 ++ [x00]) k (uuid36 ++ [x00]) 1 false.

(** A context that holds no key. *)
Definition context_without_key (t : Encryption_Type) : Encryption :=
  mkEncryption t None 32 (Some iv32) 0 7 0 NO_ROTATION (repeat x61 36).


(** Two log blocks of [0x5A], and what [encrypt_log] makes of them on the
    platform. *)
Definition log_blocks : buffer := repeat x5a (Z.to_nat 1024).

Definition encrypted_log (debug : bool) (e : Encryption) (src : buffer) (n : Z) : buffer :=
  match @encrypt_log innodb_log_consts (platform debug) 2 true e src n
          (repeat x00 (Z.to_nat n)) n (fun _ _ => xcc) with
  | Some (Ok (_, b, _)) => b
  | _ => []
  end.

(** What [fill_encryption_info] leaves on the platform for the tablespace
    key [key32] and the initial vector [iv32], from an information of zeroes,
    outside of bootstrap and with the key encrypted. *)
Definition filled_info (s : server (list key_name)) : fill_result (list key_name) :=
  match @fill_encryption_info _ list_keyring info_consts info_layout (platform true)
          s true false key32 iv32 (repeat x00 (Z.to_nat 111)) false true with
  | Ok r => r
  | Fault _ => mkFillResult false [] s false
  end.


(** The information that [fill_encryption_info] writes for the key version
    5 and the initial vector [iv32]. *)
Definition key_version_info : buffer :=
  match @fill_encryption_info_key_version _ info_layout (platform true)
          (server_with 1 [] false) 5 iv32 (repeat x00 (Z.to_nat 111)) with
  | Ok (_, info) => info
  | Fault _ => []
  end.

End Example2.

(** * Part II: properties *)

(** ** Buffers *)

Lemma blen_nonneg (b : buffer) : 0 <= blen b.
Proof. unfold blen. lia. Qed.

Lemma blen_app (a b : buffer) : blen (a ++ b) = blen a + blen b.
Proof. unfold blen. rewrite length_app. lia. Qed.

Lemma blen_repeat (c : byte) (n : nat) : blen (repeat c n) = Z.of_nat n.
Proof. unfold blen. now rewrite repeat_length. Qed.

Lemma blen_map (f : byte -> byte) (b : buffer) : blen (map f b) = blen b.
Proof. unfold blen. now rewrite length_map. Qed.

Lemma blen_sub (b : buffer) (off len : Z) :
  0 <= off -> 0 <= len -> off + len <= blen b -> blen (sub b off len) = len.
Proof.
  unfold blen, sub. intros Hoff Hlen Hb.
  rewrite length_firstn, length_skipn. lia.
Qed.

Lemma blen_blit (b : buffer) (off : Z) (d : buffer) :
  0 <= off -> off + blen d <= blen b -> blen (blit b off d) = blen b.
Proof.
  unfold blit. intros Hoff Hb. rewrite !blen_app.
  unfold blen in *. rewrite length_firstn, length_skipn. lia.
Qed.

Lemma byte_at_app (a b : buffer) (i : Z) :
  0 <= i ->
  byte_at (a ++ b) i = if i <? blen a then byte_at a i else byte_at b (i - blen a).
Proof.
  unfold byte_at, blen. intros Hi.
  destruct (Z.ltb_spec i (Z.of_nat (length a))).
  - apply app_nth1. lia.
  - rewrite app_nth2 by lia. f_equal. lia.
Qed.

Lemma byte_at_sub (b : buffer) (off len i : Z) :
  0 <= off -> 0 <= i < len -> byte_at (sub b off len) i = byte_at b (off + i).
Proof.
  unfold byte_at, sub. intros Hoff Hi.
  rewrite nth_firstn.
  destruct (Nat.ltb_spec (Z.to_nat i) (Z.to_nat len)); [| lia].
  rewrite nth_skipn. f_equal. lia.
Qed.

Lemma byte_at_blit (b : buffer) (off : Z) (d : buffer) (i : Z) :
  0 <= off -> off + blen d <= blen b -> 0 <= i ->
  byte_at (blit b off d) i =
    if (off <=? i) && (i <? off + blen d) then byte_at d (i - off) else byte_at b i.
Proof.
  intros Hoff Hb Hi. unfold blit.
  assert (Hf : blen (firstn (Z.to_nat off) b) = off).
  { unfold blen in *. rewrite length_firstn. lia. }
  pose proof (blen_nonneg d) as Hd.
  rewrite byte_at_app by lia. rewrite Hf.
  destruct (Z.ltb_spec i off).
  - replace (off <=? i) with false by lia. cbn.
    unfold byte_at. rewrite nth_firstn.
    destruct (Nat.ltb_spec (Z.to_nat i) (Z.to_nat off)); [reflexivity | lia].
  - replace (off <=? i) with true by lia. cbn.
    rewrite byte_at_app by lia.
    destruct (Z.ltb_spec (i - off) (blen d)).
    + replace (i <? off + blen d) with true by lia. reflexivity.
    + replace (i <? off + blen d) with false by lia.
      unfold byte_at. rewrite nth_skipn. f_equal. unfold blen in *. lia.
Qed.

Lemma byte_at_repeat (c : byte) (n : nat) (i : Z) :
  0 <= i < Z.of_nat n -> byte_at (repeat c n) i = c.
Proof.
  intros Hi. unfold byte_at. apply nth_repeat_lt. lia.
Qed.

Lemma byte_at_map (f : byte -> byte) (b : buffer) (i : Z) :
  0 <= i < blen b -> byte_at (map f b) i = f (byte_at b i).
Proof.
  unfold byte_at, blen. intros Hi.
  rewrite (nth_indep _ x00 (f x00)) by (rewrite length_map; lia).
  apply map_nth.
Qed.

(** Two buffers of one length with the same byte at every offset are
    equal. *)
Lemma buffer_ext (a b : buffer) :
  blen a = blen b ->
  (forall i, 0 <= i < blen a -> byte_at a i = byte_at b i) ->
  a = b.
Proof.
  unfold blen, byte_at. intros Hlen H.
  apply (nth_ext a b x00 x00); [lia |].
  intros n Hn. specialize (H (Z.of_nat n)).
  rewrite Nat2Z.id in H. apply H. lia.
Qed.

Lemma sub_all (b : buffer) : sub b 0 (blen b) = b.
Proof.
  unfold sub, blen. cbn. rewrite Nat2Z.id. apply firstn_all.
Qed.

(** ** Bytes and big-endian fields *)

Lemma byte_to_Z_range (b : byte) : 0 <= byte_to_Z b < 256.
Proof.
  unfold byte_to_Z. pose proof (Byte.to_N_bounded b). lia.
Qed.

Lemma byte_to_of_Z (z : Z) : byte_to_Z (byte_of_Z z) = z mod 256.
Proof.
  unfold byte_to_Z, byte_of_Z.
  pose proof (Z.mod_pos_bound z 256 ltac:(lia)) as Hm.
  destruct (Byte.of_N (Z.to_N (z mod 256))) as [b |] eqn:E.
  - apply Byte.to_of_N in E. rewrite E. lia.
  - apply Byte.of_N_None_iff in E. lia.
Qed.

Lemma byte_of_to_Z (b : byte) : byte_of_Z (byte_to_Z b) = b.
Proof.
  unfold byte_of_Z. pose proof (byte_to_Z_range b) as Hr.
  rewrite Z.mod_small by lia. unfold byte_to_Z.
  rewrite N2Z.id, Byte.of_to_N. reflexivity.
Qed.

Lemma byte_of_Z_mod (z : Z) : byte_of_Z (z mod 256) = byte_of_Z z.
Proof.
  unfold byte_of_Z. rewrite Z.mod_mod by lia. reflexivity.
Qed.

(** A shifted value and a value below the shift do not overlap: [lor] adds
    them. *)
Lemma lor_shiftl_add (hi lo n : Z) :
  0 <= n -> 0 <= lo < 2 ^ n -> Z.lor (Z.shiftl hi n) lo = hi * 2 ^ n + lo.
Proof.
  intros Hn Hlo.
  rewrite <- Z.shiftl_mul_pow2 by lia.
  rewrite <- Z.add_lor_land.
  assert (Z.land (Z.shiftl hi n) lo = 0) as ->; [| lia].
  apply Z.bits_inj'. intros k Hk.
  rewrite Z.land_spec, Z.bits_0.
  destruct (Z.ltb_spec k n).
  - rewrite Z.shiftl_spec_low by lia. reflexivity.
  - assert (Z.testbit lo k = false) as ->; [| apply andb_false_r].
    destruct (Z.eq_dec lo 0) as [-> | Hne]; [apply Z.bits_0 |].
    apply Z.bits_above_log2; [lia |].
    apply Z.log2_lt_pow2; [lia |].
    apply Z.lt_le_trans with (2 ^ n); [lia |].
    apply Z.pow_le_mono_r; lia.
Qed.

Lemma rd2_arith (b : buffer) (off : Z) :
  rd2 b off = 256 * byte_to_Z (byte_at b off) + byte_to_Z (byte_at b (off + 1)).
Proof.
  unfold rd2.
  pose proof (byte_to_Z_range (byte_at b (off + 1))).
  rewrite lor_shiftl_add; [| lia | change (2 ^ 8) with 256; lia].
  change (2 ^ 8) with 256. lia.
Qed.

Lemma rd4_arith (b : buffer) (off : Z) :
  rd4 b off =
    16777216 * byte_to_Z (byte_at b off) + 65536 * byte_to_Z (byte_at b (off + 1))
    + 256 * byte_to_Z (byte_at b (off + 2)) + byte_to_Z (byte_at b (off + 3)).
Proof.
  unfold rd4.
  pose proof (byte_to_Z_range (byte_at b (off + 1))).
  pose proof (byte_to_Z_range (byte_at b (off + 2))).
  pose proof (byte_to_Z_range (byte_at b (off + 3))).
  rewrite (lor_shiftl_add _ (byte_to_Z (byte_at b (off + 3))) 8);
    [| lia | change (2 ^ 8) with 256; lia].
  change (2 ^ 8) with 256.
  rewrite (lor_shiftl_add (byte_to_Z (byte_at b (off + 1))) _ 16);
    [| lia | change (2 ^ 16) with 65536; lia].
  change (2 ^ 16) with 65536.
  rewrite lor_shiftl_add; [| lia | change (2 ^ 24) with 16777216; lia].
  change (2 ^ 24) with 16777216. lia.
Qed.

Lemma rd2_range (b : buffer) (off : Z) : 0 <= rd2 b off < 65536.
Proof.
  rewrite rd2_arith.
  pose proof (byte_to_Z_range (byte_at b off)).
  pose proof (byte_to_Z_range (byte_at b (off + 1))). lia.
Qed.

Lemma rd4_range (b : buffer) (off : Z) : 0 <= rd4 b off < 4294967296.
Proof.
  rewrite rd4_arith.
  pose proof (byte_to_Z_range (byte_at b off)).
  pose proof (byte_to_Z_range (byte_at b (off + 1))).
  pose proof (byte_to_Z_range (byte_at b (off + 2))).
  pose proof (byte_to_Z_range (byte_at b (off + 3))). lia.
Qed.

(** A field depends only on its own bytes. *)
Lemma rd2_ext (a b : buffer) (off off' : Z) :
  (forall j, 0 <= j < 2 -> byte_at a (off + j) = byte_at b (off' + j)) ->
  rd2 a off = rd2 b off'.
Proof.
  intros H. unfold rd2.
  rewrite <- (H 1) by lia.
  specialize (H 0 ltac:(lia)). rewrite !Z.add_0_r in H. rewrite H. reflexivity.
Qed.

Lemma rd4_ext (a b : buffer) (off off' : Z) :
  (forall j, 0 <= j < 4 -> byte_at a (off + j) = byte_at b (off' + j)) ->
  rd4 a off = rd4 b off'.
Proof.
  intros H. unfold rd4.
  rewrite <- (H 1), <- (H 2), <- (H 3) by lia.
  specialize (H 0 ltac:(lia)). rewrite !Z.add_0_r in H. rewrite H. reflexivity.
Qed.

Lemma blen_enc2 (n : Z) : blen (enc2 n) = 2.
Proof. reflexivity. Qed.

Lemma blen_enc4 (n : Z) : blen (enc4 n) = 4.
Proof. reflexivity. Qed.


Lemma byte_at_cons0 (x : byte) (r : buffer) : byte_at (x :: r) 0 = x.
Proof. reflexivity. Qed.

Lemma byte_at_consS (x : byte) (r : buffer) (i : Z) :
  0 < i -> byte_at (x :: r) i = byte_at r (i - 1).
Proof.
  intros Hi. unfold byte_at.
  replace (Z.to_nat i) with (S (Z.to_nat (i - 1))) by lia. reflexivity.
Qed.

Lemma rd2_enc2 (n : Z) : rd2 (enc2 n) 0 = uint16 n.
Proof.
  rewrite rd2_arith. unfold enc2, uint16.
  rewrite byte_at_cons0, byte_at_consS, byte_at_cons0 by lia.
  rewrite !byte_to_of_Z, Z.shiftr_div_pow2 by lia.
  change (2 ^ 8) with 256. change (2 ^ 16) with (256 * 256).
  rewrite Z.rem_mul_r by lia. lia.
Qed.

Lemma rd4_enc4 (n : Z) : rd4 (enc4 n) 0 = uint32 n.
Proof.
  rewrite rd4_arith. unfold enc4, uint32.
  rewrite byte_at_cons0.
  rewrite (byte_at_consS _ _ (0 + 1)), byte_at_cons0 by lia.
  rewrite (byte_at_consS _ _ (0 + 2)), (byte_at_consS _ _ (0 + 2 - 1)), byte_at_cons0 by lia.
  rewrite (byte_at_consS _ _ (0 + 3)), (byte_at_consS _ _ (0 + 3 - 1)),
    (byte_at_consS _ _ (0 + 3 - 1 - 1)), byte_at_cons0 by lia.
  rewrite !byte_to_of_Z, !Z.shiftr_div_pow2 by lia.
  change (2 ^ 8) with 256. change (2 ^ 16) with 65536.
  change (2 ^ 24) with 16777216. change (2 ^ 32) with 4294967296.
  replace (n / 65536) with (n / 256 / 256) by (rewrite Z.div_div by lia; reflexivity).
  replace (n / 16777216) with (n / 256 / 256 / 256)
    by (rewrite !Z.div_div by lia; reflexivity).
  pose proof (Z.div_mod n 256 ltac:(lia)).
  pose proof (Z.div_mod (n / 256) 256 ltac:(lia)).
  pose proof (Z.div_mod (n / 256 / 256) 256 ltac:(lia)).
  pose proof (Z.div_mod (n / 256 / 256 / 256) 256 ltac:(lia)).
  pose proof (Z.mod_pos_bound n 256 ltac:(lia)).
  pose proof (Z.mod_pos_bound (n / 256) 256 ltac:(lia)).
  pose proof (Z.mod_pos_bound (n / 256 / 256) 256 ltac:(lia)).
  pose proof (Z.mod_pos_bound (n / 256 / 256 / 256) 256 ltac:(lia)).
  apply Z.mod_unique_pos with (q := n / 256 / 256 / 256 / 256); lia.
Qed.

(** Storing what was read from a field gives the bytes of the field. *)
Lemma enc2_rd2 (b : buffer) (off : Z) :
  enc2 (rd2 b off) = [byte_at b off; byte_at b (off + 1)].
Proof.
  rewrite rd2_arith. unfold enc2.
  pose proof (byte_to_Z_range (byte_at b off)).
  pose proof (byte_to_Z_range (byte_at b (off + 1))).
  rewrite Z.shiftr_div_pow2 by lia. change (2 ^ 8) with 256.
  replace ((256 * byte_to_Z (byte_at b off) + byte_to_Z (byte_at b (off + 1))) / 256)
    with (byte_to_Z (byte_at b off)) by (apply Z.div_unique with (r := byte_to_Z (byte_at b (off + 1))); lia).
  rewrite byte_of_to_Z.
  rewrite <- byte_of_Z_mod.
  replace ((256 * byte_to_Z (byte_at b off) + byte_to_Z (byte_at b (off + 1))) mod 256)
    with (byte_to_Z (byte_at b (off + 1))).
  - now rewrite byte_of_to_Z.
  - apply Z.mod_unique_pos with (q := byte_to_Z (byte_at b off)); lia.
Qed.

(** ** Membership of an offset in a field *)

Lemma in_range_true (off len i : Z) : off <= i < off + len -> in_range off len i = true.
Proof. unfold in_range. intros H. apply andb_true_intro. split; lia. Qed.

Lemma in_range_false (off len i : Z) :
  i < off \/ off + len <= i -> in_range off len i = false.
Proof. unfold in_range. intros H. apply andb_false_iff. lia. Qed.

Lemma in_range_spec (off len i : Z) :
  {off <= i < off + len /\ in_range off len i = true}
  + {(i < off \/ off + len <= i) /\ in_range off len i = false}.
Proof.
  destruct (in_range off len i) eqn:E; [left | right]; (split; [| reflexivity]);
    unfold in_range in E.
  - apply andb_true_iff in E. lia.
  - apply andb_false_iff in E. lia.
Qed.

(** ** Runs that return *)

Lemma bind_Ok {A B : Type} (m : result A) (k : A -> result B) (r : B) :
  bind m k = Ok r -> exists a, m = Ok a /\ k a = Ok r.
Proof. destruct m as [a | f]; cbn; [eauto | discriminate]. Qed.

Lemma in_bounds_true (b : buffer) (off len : Z) :
  in_bounds b off len = true <-> 0 <= off /\ 0 <= len /\ off + len <= blen b.
Proof. unfold in_bounds. rewrite !andb_true_iff. lia. Qed.

Lemma mem_read_Ok (b : buffer) (off len : Z) (d : buffer) :
  mem_read b off len = Ok d ->
  0 <= off /\ 0 <= len /\ off + len <= blen b /\ blen d = len /\
  (forall i, 0 <= i < len -> byte_at d i = byte_at b (off + i)).
Proof.
  unfold mem_read. destruct (in_bounds b off len) eqn:E; [| discriminate].
  apply in_bounds_true in E. intros [= <-].
  repeat split; try lia.
  - apply blen_sub; lia.
  - intros i Hi. apply byte_at_sub; lia.
Qed.

Lemma mem_write_Ok (b : buffer) (off : Z) (d b' : buffer) :
  mem_write b off d = Ok b' ->
  0 <= off /\ off + blen d <= blen b /\ blen b' = blen b /\
  (forall i, 0 <= i ->
     byte_at b' i = if in_range off (blen d) i then byte_at d (i - off) else byte_at b i).
Proof.
  unfold mem_write. destruct (in_bounds b off (blen d)) eqn:E; [| discriminate].
  apply in_bounds_true in E. intros [= <-].
  repeat split; try lia.
  - apply blen_blit; lia.
  - intros i Hi. apply byte_at_blit; lia.
Qed.

Lemma memset_Ok (b : buffer) (off : Z) (c : byte) (len : Z) (b' : buffer) :
  memset b off c len = Ok b' ->
  0 <= off /\ 0 <= len /\ off + len <= blen b /\ blen b' = blen b /\
  (forall i, 0 <= i -> byte_at b' i = if in_range off len i then c else byte_at b i).
Proof.
  unfold memset. destruct (in_bounds b off len) eqn:E; [| discriminate].
  apply in_bounds_true in E. intros [= <-].
  assert (Hr : blen (repeat c (Z.to_nat len)) = len) by (rewrite blen_repeat; lia).
  repeat split; try lia.
  - apply blen_blit; lia.
  - intros i Hi. rewrite byte_at_blit by lia. rewrite Hr.
    fold (in_range off len i).
    destruct (in_range_spec off len i) as [[Hin ->] | [Hout ->]]; [| reflexivity].
    apply byte_at_repeat. lia.
Qed.

Lemma mach_read_from_2_Ok (b : buffer) (off v : Z) :
  mach_read_from_2 b off = Ok v -> 0 <= off /\ off + 2 <= blen b /\ v = rd2 b off.
Proof.
  unfold mach_read_from_2. destruct (in_bounds b off 2) eqn:E; [| discriminate].
  apply in_bounds_true in E. intros [= <-]. lia.
Qed.

Lemma mach_read_from_4_Ok (b : buffer) (off v : Z) :
  mach_read_from_4 b off = Ok v -> 0 <= off /\ off + 4 <= blen b /\ v = rd4 b off.
Proof.
  unfold mach_read_from_4. destruct (in_bounds b off 4) eqn:E; [| discriminate].
  apply in_bounds_true in E. intros [= <-]. lia.
Qed.

Lemma mach_write_to_2_Ok (b : buffer) (off n : Z) (b' : buffer) :
  mach_write_to_2 b off n = Ok b' ->
  0 <= off /\ off + 2 <= blen b /\ blen b' = blen b /\
  (forall i, 0 <= i ->
     byte_at b' i = if in_range off 2 i then byte_at (enc2 n) (i - off) else byte_at b i).
Proof. unfold mach_write_to_2. intros H. apply mem_write_Ok in H. exact H. Qed.

Lemma mach_write_to_4_Ok (b : buffer) (off n : Z) (b' : buffer) :
  mach_write_to_4 b off n = Ok b' ->
  0 <= off /\ off + 4 <= blen b /\ blen b' = blen b /\
  (forall i, 0 <= i ->
     byte_at b' i = if in_range off 4 i then byte_at (enc4 n) (i - off) else byte_at b i).
Proof. unfold mach_write_to_4. intros H. apply mem_write_Ok in H. exact H. Qed.

Lemma ut_a_Ok (c : bool) (u : unit) : ut_a c = Ok u -> c = true.
Proof. destruct c; [reflexivity | discriminate]. Qed.

Lemma ut_ad_Ok (dbg c : bool) (u : unit) : ut_ad dbg c = Ok u -> dbg = true -> c = true.
Proof. intros H ->. now apply ut_a_Ok in H. Qed.

(** A field that was just stored reads back, and a field away from the
    stored bytes reads as before. *)
Lemma rd2_stored (b b' : buffer) (off n : Z) :
  0 <= off ->
  (forall i, 0 <= i ->
     byte_at b' i = if in_range off 2 i then byte_at (enc2 n) (i - off) else byte_at b i) ->
  rd2 b' off = uint16 n.
Proof.
  intros Hoff H. rewrite <- rd2_enc2. apply rd2_ext.
  intros j Hj. rewrite H, in_range_true by lia. f_equal. lia.
Qed.

Lemma rd4_stored (b b' : buffer) (off n : Z) :
  0 <= off ->
  (forall i, 0 <= i ->
     byte_at b' i = if in_range off 4 i then byte_at (enc4 n) (i - off) else byte_at b i) ->
  rd4 b' off = uint32 n.
Proof.
  intros Hoff H. rewrite <- rd4_enc4. apply rd4_ext.
  intros j Hj. rewrite H, in_range_true by lia. f_equal. lia.
Qed.

Lemma rd2_same (a b : buffer) (off : Z) :
  (forall i, off <= i < off + 2 -> byte_at a i = byte_at b i) -> rd2 a off = rd2 b off.
Proof. intros H. apply rd2_ext. intros j Hj. apply H. lia. Qed.

Lemma rd4_same (a b : buffer) (off : Z) :
  (forall i, off <= i < off + 4 -> byte_at a i = byte_at b i) -> rd4 a off = rd4 b off.
Proof. intros H. apply rd4_ext. intros j Hj. apply H. lia. Qed.

(** One step of taking apart a run that returned: the facts that each
    primitive gives are put in the context. *)
Ltac run_step :=
  match goal with
  | H : bind _ _ = Ok _ |- _ =>
    let Hm := fresh "Hrun" in
    apply bind_Ok in H; destruct H as (? & Hm & H)
  | H : mem_read _ _ _ = Ok _ |- _ =>
    apply mem_read_Ok in H; destruct H as (? & ? & ? & ? & ?)
  | H : mem_write _ _ _ = Ok _ |- _ =>
    apply mem_write_Ok in H; destruct H as (? & ? & ? & ?)
  | H : memset _ _ _ _ = Ok _ |- _ =>
    apply memset_Ok in H; destruct H as (? & ? & ? & ? & ?)
  | H : mach_read_from_2 _ _ = Ok _ |- _ =>
    apply mach_read_from_2_Ok in H; destruct H as (? & ? & ?)
  | H : mach_read_from_4 _ _ = Ok _ |- _ =>
    apply mach_read_from_4_Ok in H; destruct H as (? & ? & ?)
  | H : mach_write_to_2 _ _ _ = Ok _ |- _ =>
    apply mach_write_to_2_Ok in H; destruct H as (? & ? & ? & ?)
  | H : mach_write_to_4 _ _ _ = Ok _ |- _ =>
    apply mach_write_to_4_Ok in H; destruct H as (? & ? & ? & ?)
  | H : ut_a _ = Ok _ |- _ => apply ut_a_Ok in H
  | H : ut_ad _ _ = Ok _ |- _ =>
    let H' := fresh "Hdbg" in pose proof (ut_ad_Ok _ _ _ H) as H'; clear H
  | H : Fault _ = Ok _ |- _ => discriminate H
  | H : Ok _ = Ok _ |- _ => injection H as H
  | H : (_, _) = (_, _) |- _ => injection H as ? H
  | H : match ?c with _ => _ end = Ok _ |- _ =>
    let E := fresh "Hcase" in destruct c eqn:E
  end.

Ltac run_inv := repeat run_step.

(** Deciding the membership tests that the facts about stored bytes hold. *)
Ltac range_cases :=
  repeat match goal with
  | |- context [in_range ?o ?l ?i] =>
    first [ rewrite (in_range_true o l i) by lia
          | rewrite (in_range_false o l i) by lia
          | let Hin := fresh "Hin" in
            destruct (in_range_spec o l i) as [[Hin ->] | [Hin ->]] ]
  end.

(** ** Accesses inside a buffer succeed *)

Lemma mem_read_ok (b : buffer) (off len : Z) :
  0 <= off -> 0 <= len -> off + len <= blen b ->
  exists d, mem_read b off len = Ok d /\ blen d = len /\
    (forall i, 0 <= i < len -> byte_at d i = byte_at b (off + i)).
Proof.
  intros Ho Hl Hb. exists (sub b off len). unfold mem_read.
  rewrite (proj2 (in_bounds_true b off len)) by lia.
  repeat split.
  - apply blen_sub; lia.
  - intros i Hi. apply byte_at_sub; lia.
Qed.

Lemma mem_write_ok (b : buffer) (off : Z) (d : buffer) :
  0 <= off -> off + blen d <= blen b ->
  exists b', mem_write b off d = Ok b' /\ blen b' = blen b /\
    (forall i, 0 <= i ->
       byte_at b' i = if in_range off (blen d) i then byte_at d (i - off) else byte_at b i).
Proof.
  intros Ho Hb. pose proof (blen_nonneg d).
  destruct (mem_write b off d) as [b' | f] eqn:E.
  - exists b'. apply mem_write_Ok in E. intuition.
  - unfold mem_write in E.
    rewrite (proj2 (in_bounds_true b off (blen d))) in E by lia. discriminate.
Qed.

Lemma memset_ok (b : buffer) (off : Z) (c : byte) (len : Z) :
  0 <= off -> 0 <= len -> off + len <= blen b ->
  exists b', memset b off c len = Ok b' /\ blen b' = blen b /\
    (forall i, 0 <= i -> byte_at b' i = if in_range off len i then c else byte_at b i).
Proof.
  intros Ho Hl Hb.
  destruct (memset b off c len) as [b' | f] eqn:E.
  - exists b'. apply memset_Ok in E. intuition.
  - unfold memset in E.
    rewrite (proj2 (in_bounds_true b off len)) in E by lia. discriminate.
Qed.

Lemma mach_read_from_2_ok (b : buffer) (off : Z) :
  0 <= off -> off + 2 <= blen b -> mach_read_from_2 b off = Ok (rd2 b off).
Proof.
  intros Ho Hb. unfold mach_read_from_2.
  now rewrite (proj2 (in_bounds_true b off 2)) by lia.
Qed.

Lemma mach_read_from_4_ok (b : buffer) (off : Z) :
  0 <= off -> off + 4 <= blen b -> mach_read_from_4 b off = Ok (rd4 b off).
Proof.
  intros Ho Hb. unfold mach_read_from_4.
  now rewrite (proj2 (in_bounds_true b off 4)) by lia.
Qed.

Lemma mach_write_to_2_ok (b : buffer) (off n : Z) :
  0 <= off -> off + 2 <= blen b ->
  exists b', mach_write_to_2 b off n = Ok b' /\ blen b' = blen b /\
    (forall i, 0 <= i ->
       byte_at b' i = if in_range off 2 i then byte_at (enc2 n) (i - off) else byte_at b i).
Proof.
  intros Ho Hb. unfold mach_write_to_2. apply mem_write_ok; [lia |].
  rewrite blen_enc2. lia.
Qed.

Lemma mach_write_to_4_ok (b : buffer) (off n : Z) :
  0 <= off -> off + 4 <= blen b ->
  exists b', mach_write_to_4 b off n = Ok b' /\ blen b' = blen b /\
    (forall i, 0 <= i ->
       byte_at b' i = if in_range off 4 i then byte_at (enc4 n) (i - off) else byte_at b i).
Proof.
  intros Ho Hb. unfold mach_write_to_4. apply mem_write_ok; [lia |].
  rewrite blen_enc4. lia.
Qed.

Lemma uint32_small (z : Z) : 0 <= z < 2 ^ 32 -> uint32 z = z.
Proof. intros H. unfold uint32. now apply Z.mod_small. Qed.

Lemma uint16_small (z : Z) : 0 <= z < 2 ^ 16 -> uint16 z = z.
Proof. intros H. unfold uint16. now apply Z.mod_small. Qed.

Lemma ulint_small (z : Z) : 0 <= z < 2 ^ 64 -> ulint z = z.
Proof. intros H. unfold ulint. now apply Z.mod_small. Qed.

Lemma ulint_range (z : Z) : 0 <= ulint z < 2 ^ 64.
Proof. unfold ulint. apply Z.mod_pos_bound. lia. Qed.

Lemma uint32_range (z : Z) : 0 <= uint32 z < 2 ^ 32.
Proof. unfold uint32. apply Z.mod_pos_bound. lia. Qed.

(** ** Lengths are kept *)

Section PageLengths.
Context {fc : FilConsts} {prim : Primitives}.

Lemma encrypt_low_cbc_blen (e : Encryption) (src : buffer) (data_len H : Z)
    (dst : buffer) (ok : bool) (d1 : buffer) :
  encrypt_low_cbc e src data_len H dst = Ok (ok, d1) -> blen d1 = blen dst.
Proof.
  unfold encrypt_low_cbc. intros Hrun. run_inv; subst; congruence.
Qed.

Lemma encrypt_low_header_blen (page_type : Z) (src dst d2 : buffer) :
  encrypt_low_header page_type src dst = Ok d2 -> blen d2 = blen dst.
Proof.
  unfold encrypt_low_header. intros Hrun. run_inv; subst; congruence.
Qed.

Lemma encrypt_low_keyring_blen (type : IORequest) (e : Encryption) (page_type : Z)
    (src : buffer) (src_len : Z) (dst : buffer) (dst_len : Z)
    (e' : Encryption) (src' dst' : buffer) :
  encrypt_low_keyring type e page_type src src_len dst dst_len = Ok (e', src', dst') ->
  blen src' = blen src /\ blen dst' = blen dst.
Proof.
  unfold encrypt_low_keyring. intros Hrun. run_inv; subst; split; congruence.
Qed.

Lemma encrypt_low_lengths (type : IORequest) (e : Encryption)
    (src : buffer) (src_len : Z) (dst : buffer) (dst_len : Z)
    (ok : bool) (st : crypt_state) :
  encrypt_low type e src src_len dst dst_len = Ok (ok, st) ->
  cs_dst_len st = src_len /\ blen (cs_dst st) = blen dst /\ blen (cs_src st) = blen src.
Proof.
  unfold encrypt_low. intros Hrun.
  repeat match goal with
  | H : encrypt_low_cbc _ _ _ _ _ = Ok _ |- _ => apply encrypt_low_cbc_blen in H
  | H : encrypt_low_header _ _ _ = Ok _ |- _ => apply encrypt_low_header_blen in H
  | H : encrypt_low_keyring _ _ _ _ _ _ _ = Ok _ |- _ =>
    apply encrypt_low_keyring_blen in H; destruct H
  | _ => run_step
  end; subst; cbn; repeat split; congruence.
Qed.

Lemma decrypt_cbc_blen (e : Encryption) (page_type : Z) (src : buffer)
    (data_len H : Z) (dst : buffer) (ok : bool) (src' dst' : buffer) :
  decrypt_cbc e page_type src data_len H dst = Ok (ok, (src', dst')) ->
  blen src' = blen src /\ blen dst' = blen dst.
Proof.
  unfold decrypt_cbc. intros Hrun. run_inv; subst; split; congruence.
Qed.

Lemma check_padding_Ok (src : buffer) (n : nat) (off : Z) (u : unit) :
  check_padding src off n = Ok u ->
  forall i, off <= i < off + Z.of_nat n -> byte_at src i = x00.
Proof.
  revert off. induction n as [| n IH]; intros off Hrun i Hi; [lia |].
  cbn [check_padding] in Hrun. run_inv.
  destruct (Z.eq_dec i off) as [-> | Hne].
  - match goal with
    | Hz : Byte.eqb _ _ = true, Hb : forall i, _ -> byte_at _ i = byte_at src _ |- _ =>
      apply Byte.byte_dec_bl in Hz; rewrite Hb in Hz by lia;
      rewrite Z.add_0_r in Hz; exact Hz
    end.
  - apply (IH (off + 1)); [assumption | lia].
Qed.

Lemma decrypt_restore_blen (type : IORequest) (e : Encryption)
    (page_type original_type z_len src_len : Z) (src src' : buffer) :
  decrypt_restore type e page_type original_type z_len src_len src = Ok src' ->
  blen src' = blen src.
Proof.
  unfold decrypt_restore. intros Hrun. run_inv; subst; congruence.
Qed.

Lemma decrypt_lengths (type : IORequest) (e : Encryption)
    (src : buffer) (src_len : Z) (dst : option buffer) (dst_len : Z)
    (err : dberr_t) (src' : buffer) (dst' : option buffer) :
  decrypt type e src src_len dst dst_len = Ok (err, (src', dst')) ->
  blen src' = blen src.
Proof.
  unfold decrypt. intros Hrun.
  repeat match goal with
  | H : decrypt_cbc _ _ _ _ _ _ = Ok _ |- _ => apply decrypt_cbc_blen in H; destruct H
  | H : decrypt_restore _ _ _ _ _ _ _ = Ok _ |- _ => apply decrypt_restore_blen in H
  | _ => run_step
  end; subst; congruence.
Qed.

End PageLengths.

Section LogLengths.
Context {lc : LogConsts} {prim : Primitives} {rk : RedoLogKeys}.

Lemma log_block_set_encrypt_bit_blen (block : buffer) (val : bool) (block' : buffer) :
  log_block_set_encrypt_bit block val = Ok block' -> blen block' = blen block.
Proof.
  unfold log_block_set_encrypt_bit. intros Hrun. run_inv; subst; congruence.
Qed.

Lemma log_block_set_checksum_blen (block : buffer) (c : Z) (block' : buffer) :
  log_block_set_checksum block c = Ok block' -> blen block' = blen block.
Proof.
  unfold log_block_set_checksum. intros Hrun. run_inv; subst; congruence.
Qed.

Lemma encrypt_log_block_blen (e : Encryption) (src dst : buffer) (ok : bool) (dst' : buffer)
    (junk : Z -> byte) :
  encrypt_log_block e src dst junk = Ok (ok, dst') -> blen dst' = blen dst.
Proof.
  unfold encrypt_log_block. intros Hrun.
  repeat match goal with
  | H : log_block_set_encrypt_bit _ _ = Ok _ |- _ => apply log_block_set_encrypt_bit_blen in H
  | H : log_block_set_checksum _ _ = Ok _ |- _ => apply log_block_set_checksum_blen in H
  | _ => run_step
  end; subst; congruence.
Qed.


End LogLengths.

(** ** Boolean tests as facts *)

Lemma in_range_true_iff (off len i : Z) : in_range off len i = true <-> off <= i < off + len.
Proof. unfold in_range. rewrite andb_true_iff. lia. Qed.

Lemma in_range_false_iff (off len i : Z) :
  in_range off len i = false <-> i < off \/ off + len <= i.
Proof. unfold in_range. rewrite andb_false_iff. lia. Qed.

Ltac bool_facts :=
  repeat match goal with
  | H : _ || _ = false |- _ => apply orb_false_elim in H; destruct H
  | H : _ && _ = true |- _ => apply andb_prop in H; destruct H
  | H : _ || _ = true |- _ => apply orb_prop in H; destruct H
  | H : _ && _ = false |- _ => apply andb_false_iff in H; destruct H
  | H : negb _ = true |- _ => apply negb_true_iff in H
  | H : negb _ = false |- _ => apply negb_false_iff in H
  | H : in_range _ _ _ = false |- _ => apply in_range_false_iff in H
  | H : in_range _ _ _ = true |- _ => apply in_range_true_iff in H
  | H : (_ =? _) = true |- _ => apply Z.eqb_eq in H
  | H : (_ =? _) = false |- _ => apply Z.eqb_neq in H
  | H : (_ <=? _) = true |- _ => apply Z.leb_le in H
  | H : (_ <=? _) = false |- _ => apply Z.leb_gt in H
  | H : (_ <? _) = true |- _ => apply Z.ltb_lt in H
  | H : (_ <? _) = false |- _ => apply Z.ltb_ge in H
  | H : true = false |- _ => discriminate H
  | H : false = true |- _ => discriminate H
  end.

(** Following a byte through the stores that the context records. *)
Ltac bytes_step :=
  match goal with
  | H : forall i, 0 <= i -> byte_at ?b i = _ |- context [byte_at ?b ?j] =>
    rewrite (H j) by lia
  | H : forall i, 0 <= i < _ -> byte_at ?b i = _ |- context [byte_at ?b ?j] =>
    rewrite (H j) by lia
  end.

Ltac bytes := repeat (bytes_step; range_cases).

(** ** The constants *)

Lemma header_field_true (off len : Z) :
  header_field off len = true <-> 0 <= off /\ off + len <= 38.
Proof. unfold header_field, FIL_PAGE_DATA. rewrite andb_true_iff. lia. Qed.

Lemma fields_apart_true (o1 l1 o2 l2 : Z) :
  fields_apart o1 l1 o2 l2 = true <-> o1 + l1 <= o2 \/ o2 + l2 <= o1.
Proof. unfold fields_apart. rewrite orb_true_iff. lia. Qed.

Lemma page_type_code_true (t : Z) : page_type_code t = true <-> 0 <= t < 65536.
Proof.
  unfold page_type_code. rewrite andb_true_iff. change (2 ^ 16) with 65536. lia.
Qed.

(** The arithmetic facts that [fil_consts_ok] stands for. *)
Ltac consts_facts H :=
  unfold fil_consts_ok in H;
  repeat (let H' := fresh "Hk" in apply andb_prop in H; destruct H as [H H']);
  repeat match goal with
  | A : header_field _ _ = true |- _ => apply header_field_true in A
  | A : page_type_code _ = true |- _ => apply page_type_code_true in A
  end;
  bool_facts.

(** The fact that the fields at [o1] and [o2] keep apart. *)
Ltac apart o1 o2 :=
  match goal with
  | A : fields_apart o1 _ o2 _ = true |- _ => apply fields_apart_true in A
  end.

(** ** What [encrypt_low] leaves in the pages *)

Section EncryptBytes.
Context {fc : FilConsts} {prim : Primitives}.

(** After [encrypt_low] has copied the header and rewritten the page type,
    a byte of the destination is a byte of the original type, of the new
    page type, of the source header, or what the cipher left. *)
Lemma encrypt_low_header_bytes (page_type : Z) (src dst d2 : buffer) :
  encrypt_low_header page_type src dst = Ok d2 ->
  forall i, 0 <= i ->
    byte_at d2 i =
      if negb (page_type =? FIL_PAGE_COMPRESSED) && negb (page_type =? FIL_PAGE_RTREE)
         && in_range FIL_PAGE_ORIGINAL_TYPE_V1 2 i
      then byte_at (enc2 page_type) (i - FIL_PAGE_ORIGINAL_TYPE_V1)
      else if in_range FIL_PAGE_TYPE 2 i
      then byte_at (enc2 (encrypted_type page_type)) (i - FIL_PAGE_TYPE)
      else if in_range 0 FIL_PAGE_DATA i then byte_at src i
      else byte_at dst i.
Proof.
  unfold encrypt_low_header, encrypted_type. intros Hrun i Hi.
  destruct (page_type =? FIL_PAGE_COMPRESSED) eqn:Hc;
    [| destruct (page_type =? FIL_PAGE_RTREE) eqn:Hr]; cbn [negb andb];
    run_inv; subst; bytes; try reflexivity; try (f_equal; lia).
Qed.

Lemma encrypt_low_keyring_bytes (type : IORequest) (e : Encryption) (page_type : Z)
    (src : buffer) (src_len : Z) (dst : buffer) (dst_len : Z)
    (e' : Encryption) (src' dst' : buffer) :
  encrypt_low_keyring type e page_type src src_len dst dst_len = Ok (e', src', dst') ->
  forall i, 0 <= i -> keyring_stamped type e page_type dst_len i = false ->
    byte_at dst' i = byte_at dst i.
Proof.
  unfold encrypt_low_keyring, keyring_stamped. intros Hrun i Hi Hst.
  destruct (page_type =? FIL_PAGE_COMPRESSED) eqn:Hc;
    destruct (is_page_zip_compressed type) eqn:Hz;
    destruct (m_encryption_rotation e) eqn:Hrot; cbn in Hst, Hrun;
    rewrite ?Hrot in Hrun; cbn in Hrun;
    run_inv; subst; bool_facts; unfold FIL_PAGE_DATA in *; bytes; try reflexivity; try lia.
Qed.


(** The first [FIL_PAGE_DATA] bytes of the destination, outside what
    [KEYRING] mode stamps: the original type, the new page type, or the
    byte of the source header. *)
Lemma encrypt_low_header_region (type : IORequest) (e : Encryption)
    (src : buffer) (src_len : Z) (dst : buffer) (dst_len : Z) (st : crypt_state) :
  encrypt_low type e src src_len dst dst_len = Ok (true, st) ->
  forall i, 0 <= i < FIL_PAGE_DATA ->
    is_KEYRING (m_type e) && keyring_stamped type e (rd2 src FIL_PAGE_TYPE) dst_len i = false ->
    byte_at (cs_dst st) i =
      if negb (rd2 src FIL_PAGE_TYPE =? FIL_PAGE_COMPRESSED)
         && negb (rd2 src FIL_PAGE_TYPE =? FIL_PAGE_RTREE)
         && in_range FIL_PAGE_ORIGINAL_TYPE_V1 2 i
      then byte_at (enc2 (rd2 src FIL_PAGE_TYPE)) (i - FIL_PAGE_ORIGINAL_TYPE_V1)
      else if in_range FIL_PAGE_TYPE 2 i
      then byte_at (enc2 (encrypted_type (rd2 src FIL_PAGE_TYPE))) (i - FIL_PAGE_TYPE)
      else byte_at src i.
Proof.
  unfold encrypt_low. intros Hrun i Hi Hkr.
  apply bind_Ok in Hrun. destruct Hrun as (page_type & Hpt & Hrun).
  apply mach_read_from_2_Ok in Hpt. destruct Hpt as (_ & _ & ->).
  set (page_type := rd2 src FIL_PAGE_TYPE) in *.
  apply bind_Ok in Hrun. destruct Hrun as (_ & _ & Hrun).
  apply bind_Ok in Hrun. destruct Hrun as (src_enc_len & _ & Hrun).
  pose proof (ulint_range (src_enc_len - FIL_PAGE_DATA)) as Hu1.
  pose proof (ulint_range (ulint (src_enc_len - FIL_PAGE_DATA) - 4)) as Hu2.
  assert (Hdl : 0 <= encrypt_data_len type e page_type src_enc_len).
  { unfold encrypt_data_len. repeat destruct (_ && _); lia. }
  match goal with |- _ = ?rhs => set (want := rhs) end.
  assert (Hhdr : forall d1 d2, encrypt_low_header page_type src d1 = Ok d2 ->
            byte_at d2 i = want).
  { intros d1 d2 Hh. rewrite (encrypt_low_header_bytes _ _ _ _ Hh) by lia.
    rewrite (in_range_true 0 FIL_PAGE_DATA i) by lia. reflexivity. }
  clearbody want.
  destruct (m_type e) eqn:Hm; [discriminate | |].
  - (* AES *)
    cbn [is_KEYRING andb] in Hrun.
    run_inv; subst; cbn [cs_dst]; try discriminate;
      unfold FIL_PAGE_DATA in *; bytes; eauto.
  - (* KEYRING *)
    cbn [is_KEYRING andb] in Hrun, Hkr.
    destruct (page_type =? FIL_PAGE_COMPRESSED) eqn:Hc;
    repeat match goal with
    | H : encrypt_low_keyring _ _ _ _ _ _ _ = Ok _ |- _ =>
      pose proof (encrypt_low_keyring_bytes _ _ _ _ _ _ _ _ _ _ H i ltac:(lia) Hkr); clear H
    | _ => run_step
    end; subst; cbn [cs_dst]; try discriminate;
      unfold FIL_PAGE_DATA in *;
      repeat match goal with H : byte_at _ i = _ |- _ => rewrite H; clear H end;
      bytes; eauto.
Qed.

(** Outside the stamped fields, the first [FIL_PAGE_DATA] bytes of the
    destination are those of the source. *)
Lemma encrypt_low_header_kept (type : IORequest) (e : Encryption)
    (src : buffer) (src_len : Z) (dst : buffer) (dst_len : Z) (st : crypt_state) :
  encrypt_low type e src src_len dst dst_len = Ok (true, st) ->
  forall i, 0 <= i < FIL_PAGE_DATA ->
    header_stamped type e (rd2 src FIL_PAGE_TYPE) dst_len i = false ->
    byte_at (cs_dst st) i = byte_at src i.
Proof.
  unfold header_stamped. intros Hrun i Hi Hst.
  apply orb_false_elim in Hst. destruct Hst as [Hst Hkr].
  apply orb_false_elim in Hst. destruct Hst as [Hty Hor].
  rewrite (encrypt_low_header_region _ _ _ _ _ _ _ Hrun i Hi Hkr).
  rewrite Hor, Hty. reflexivity.
Qed.

(** The page type field of the destination holds the encrypted page type,
    and the field of the original type holds the type of the source when the
    page is neither compressed nor an R-tree page. *)
Lemma encrypt_low_type_fields (type : IORequest) (e : Encryption)
    (src : buffer) (src_len : Z) (dst : buffer) (dst_len : Z) (st : crypt_state) :
  fil_consts_ok = true ->
  FIL_PAGE_DATA + 4 <= dst_len ->
  encrypt_low type e src src_len dst dst_len = Ok (true, st) ->
  rd2 (cs_dst st) FIL_PAGE_TYPE = encrypted_type (rd2 src FIL_PAGE_TYPE)
  /\ (rd2 src FIL_PAGE_TYPE <> FIL_PAGE_COMPRESSED ->
      rd2 src FIL_PAGE_TYPE <> FIL_PAGE_RTREE ->
      rd2 (cs_dst st) FIL_PAGE_ORIGINAL_TYPE_V1 = rd2 src FIL_PAGE_TYPE).
Proof.
  intros Hok Hlen Hrun. consts_facts Hok. unfold FIL_PAGE_DATA in Hlen.
  pose proof (rd2_range src FIL_PAGE_TYPE) as Hpt.
  pose proof (encrypt_low_header_region _ _ _ _ _ _ _ Hrun) as Hreg.
  clear Hrun. revert Hpt Hreg.
  generalize (rd2 src FIL_PAGE_TYPE). intros page_type Hpt Hreg.
  assert (Het : 0 <= encrypted_type page_type < 2 ^ 16).
  { unfold encrypted_type. change (2 ^ 16) with 65536.
    repeat destruct (_ =? _); lia. }
  split.
  - apart FIL_PAGE_TYPE FIL_PAGE_ORIGINAL_TYPE_V1.
    apart FIL_PAGE_TYPE FIL_PAGE_ENCRYPTION_KEY_VERSION.
    apart FIL_PAGE_TYPE FIL_PAGE_ZIP_KEYRING_ENCRYPTION_MAGIC.
    transitivity (uint16 (encrypted_type page_type));
      [| apply uint16_small; assumption].
    rewrite <- rd2_enc2. apply rd2_ext. intros j Hj.
    rewrite Hreg; [| unfold FIL_PAGE_DATA; lia |].
    + rewrite (in_range_false FIL_PAGE_ORIGINAL_TYPE_V1) by lia.
      rewrite andb_false_r. rewrite in_range_true by lia. f_equal. lia.
    + unfold keyring_stamped.
      destruct (is_KEYRING (m_type e)); [| reflexivity]. cbn [andb].
      rewrite (in_range_false FIL_PAGE_ZIP_KEYRING_ENCRYPTION_MAGIC) by lia.
      rewrite andb_false_r, orb_false_r.
      destruct (page_type =? FIL_PAGE_COMPRESSED).
      * apply in_range_false. unfold FIL_PAGE_DATA. lia.
      * rewrite !in_range_false by lia. rewrite andb_false_r. reflexivity.
  - intros Hnc Hnr.
    apart FIL_PAGE_ORIGINAL_TYPE_V1 FIL_PAGE_ENCRYPTION_KEY_VERSION.
    apart FIL_PAGE_ORIGINAL_TYPE_V1 FIL_PAGE_ZIP_KEYRING_ENCRYPTION_MAGIC.
    transitivity (uint16 page_type);
      [| apply uint16_small; change (2 ^ 16) with 65536; lia].
    rewrite <- rd2_enc2. apply rd2_ext. intros j Hj.
    rewrite Hreg; [| unfold FIL_PAGE_DATA; lia |].
    + rewrite (proj2 (Z.eqb_neq _ _) Hnc), (proj2 (Z.eqb_neq _ _) Hnr).
      cbn [negb andb]. rewrite in_range_true by lia. f_equal. lia.
    + unfold keyring_stamped.
      destruct (is_KEYRING (m_type e)); [| reflexivity]. cbn [andb].
      rewrite (in_range_false FIL_PAGE_ZIP_KEYRING_ENCRYPTION_MAGIC) by lia.
      rewrite andb_false_r, orb_false_r.
      rewrite (proj2 (Z.eqb_neq _ _) Hnc).
      rewrite !in_range_false by lia. rewrite andb_false_r. reflexivity.
Qed.

Lemma mem_write_eq (b : buffer) (off : Z) (d b' : buffer) :
  mem_write b off d = Ok b' -> b' = blit b off d.
Proof.
  unfold mem_write. destruct (in_bounds b off (blen d)); [| discriminate].
  now intros [= <-].
Qed.

(** In [KEYRING] mode the source page gets the key version stored in its
    header, and nothing else of it changes; the context keeps its mode and
    key version. *)
Lemma encrypt_low_keyring_src (type : IORequest) (e : Encryption) (page_type : Z)
    (src : buffer) (src_len : Z) (dst : buffer) (dst_len : Z)
    (e' : Encryption) (src' dst' : buffer) :
  encrypt_low_keyring type e page_type src src_len dst dst_len = Ok (e', src', dst') ->
  src' = blit src FIL_PAGE_ENCRYPTION_KEY_VERSION (enc4 (m_key_version e))
  /\ 0 <= FIL_PAGE_ENCRYPTION_KEY_VERSION
  /\ FIL_PAGE_ENCRYPTION_KEY_VERSION + 4 <= blen src
  /\ (UNIV_DEBUG = true -> m_key_version e <> 0).
Proof.
  unfold encrypt_low_keyring. intros Hrun.
  repeat match goal with
  | H : mach_write_to_4 src _ _ = Ok _ |- _ =>
    pose proof (mem_write_eq _ _ _ _ H); apply mach_write_to_4_Ok in H;
    destruct H as (? & ? & ? & ?)
  | _ => run_step
  end; subst; cbn [m_key_version set_m_checksum] in *;
    (split; [reflexivity | split; [lia | split; [lia |]]]);
    intros Hd;
    repeat match goal with
    | H : UNIV_DEBUG = true -> _ |- _ => specialize (H Hd)
    end; bool_facts; assumption.
Qed.

(** In [KEYRING] mode the destination page holds the key version: in the
    header field of the key version, or, for a compressed page, in the bytes
    behind the checksum that follows the header. *)
Lemma encrypt_low_keyring_dst (type : IORequest) (e : Encryption) (page_type : Z)
    (src : buffer) (src_len : Z) (dst : buffer) (dst_len : Z)
    (e' : Encryption) (src' dst' : buffer) :
  fil_consts_ok = true ->
  FIL_PAGE_DATA + 4 <= dst_len ->
  encrypt_low_keyring type e page_type src src_len dst dst_len = Ok (e', src', dst') ->
  rd4 dst' (if page_type =? FIL_PAGE_COMPRESSED then FIL_PAGE_DATA + 4
            else FIL_PAGE_ENCRYPTION_KEY_VERSION)
  = uint32 (m_key_version e).
Proof.
  intros Hok Hlen Hrun. consts_facts Hok. unfold FIL_PAGE_DATA in *.
  rewrite <- rd4_enc4. apply rd4_ext. intros j Hj.
  unfold encrypt_low_keyring in Hrun.
  destruct (page_type =? FIL_PAGE_COMPRESSED) eqn:Hc;
    destruct (is_page_zip_compressed type) eqn:Hz;
    destruct (m_encryption_rotation e) eqn:Hrot;
    cbn [is_MASTER_KEY_TO_KEYRING negb] in Hrun;
    run_inv; subst; cbn [m_key_version set_m_checksum] in *;
    unfold FIL_PAGE_DATA in *;
    bytes; try reflexivity; try (f_equal; lia); try lia.
Qed.

End EncryptBytes.

(** ** What [decrypt] leaves in the page *)

(** The part of a length that is a multiple of the AES block. *)
Lemma block_floor (n : Z) :
  0 <= n ->
  0 <= n / MY_AES_BLOCK_SIZE * MY_AES_BLOCK_SIZE <= n
  /\ n - n / MY_AES_BLOCK_SIZE * MY_AES_BLOCK_SIZE < MY_AES_BLOCK_SIZE.
Proof.
  intros Hn. unfold MY_AES_BLOCK_SIZE.
  pose proof (Z.div_mod n 16 ltac:(lia)).
  pose proof (Z.mod_pos_bound n 16 ltac:(lia)).
  pose proof (Z.div_pos n 16 Hn ltac:(lia)). lia.
Qed.

(** A case that the run excludes. *)
Ltac absurd_case :=
  match goal with
  | H : negb false = false |- _ => discriminate H
  | H : negb true = true |- _ => discriminate H
  | H : true = false |- _ => discriminate H
  | H : false = true |- _ => discriminate H
  end.

(** The byte that a chain of stores leaves at an offset. *)
Ltac solve_bytes :=
  subst; try absurd_case; unfold FIL_PAGE_DATA, MY_AES_BLOCK_SIZE in *;
  bytes; try reflexivity; try (f_equal; lia); try lia.

Section DecryptBytes.
Context {fc : FilConsts} {prim : Primitives}.

(** [decrypt] writes the plaintext behind the header: the header of the
    page stays as it is while the data is decrypted. *)
Lemma decrypt_cbc_header (e : Encryption) (page_type : Z) (src : buffer)
    (data_len : Z) (dst : buffer) (ok : bool) (src' dst' : buffer) :
  0 <= data_len ->
  decrypt_cbc e page_type src data_len
    (if is_KEYRING (m_type e) && (page_type =? FIL_PAGE_COMPRESSED_AND_ENCRYPTED)
     then FIL_PAGE_DATA + 8 else FIL_PAGE_DATA) dst = Ok (ok, (src', dst')) ->
  forall i, 0 <= i < FIL_PAGE_DATA -> byte_at src' i = byte_at src i.
Proof.
  unfold decrypt_cbc. intros Hdl Hrun i Hi.
  pose proof (block_floor data_len Hdl) as Hm.
  destruct (is_KEYRING (m_type e) && (page_type =? FIL_PAGE_COMPRESSED_AND_ENCRYPTED));
    run_inv; solve_bytes.
Qed.

(** At the end of [decrypt] the page type field holds the type that the
    page had before it was encrypted: the original type that the header
    kept, or the type that the encrypted page type stands for. *)
Lemma decrypt_restore_type (type : IORequest) (e : Encryption)
    (page_type original_type z_len src_len : Z) (src src' : buffer) :
  fil_consts_ok = true ->
  (page_type =? FIL_PAGE_COMPRESSED_AND_ENCRYPTED) = true \/ FIL_PAGE_DATA + 4 <= src_len ->
  decrypt_restore type e page_type original_type z_len src_len src = Ok src' ->
  rd2 src' FIL_PAGE_TYPE =
    if page_type =? FIL_PAGE_ENCRYPTED then uint16 original_type
    else if page_type =? FIL_PAGE_ENCRYPTED_RTREE then FIL_PAGE_RTREE
    else FIL_PAGE_COMPRESSED.
Proof.
  intros Hok Hlen Hrun. consts_facts Hok.
  apart FIL_PAGE_TYPE FIL_PAGE_ORIGINAL_TYPE_V1.
  unfold decrypt_restore in Hrun.
  assert (Hgoal : forall n, 0 <= n < 2 ^ 16 ->
            (forall j, 0 <= j < 2 ->
               byte_at src' (FIL_PAGE_TYPE + j) = byte_at (enc2 n) (0 + j)) ->
            rd2 src' FIL_PAGE_TYPE = n).
  { intros n Hn Hb. rewrite <- (uint16_small n) by assumption.
    rewrite <- rd2_enc2. now apply rd2_ext. }
  pose proof (Z.mod_pos_bound original_type (2 ^ 16) ltac:(lia)) as Hot.
  fold (uint16 original_type) in Hot.
  destruct (page_type =? FIL_PAGE_COMPRESSED_AND_ENCRYPTED) eqn:Hpc;
    (destruct Hlen as [Hlen | Hlen]; [try discriminate Hlen |]);
    cbn [negb andb] in Hrun;
  (destruct (page_type =? FIL_PAGE_ENCRYPTED) eqn:Hpe;
    [| destruct (page_type =? FIL_PAGE_ENCRYPTED_RTREE) eqn:Hpr]).
  all: try (rewrite andb_false_r in Hrun).
  all: try (rewrite <- (rd2_enc2 original_type); apply rd2_ext; intros j Hj;
            run_inv; solve_bytes).
  all: try (apply Hgoal; [change (2 ^ 16) with 65536; lia |]; intros j Hj;
            run_inv; solve_bytes).
Qed.

(** After a successful [decrypt] of a page that [encrypt_low] could have
    written for a page of type [page_type], the page type field holds
    [page_type] again. *)
Lemma decrypt_page_type (type : IORequest) (e : Encryption) (page : buffer)
    (src_len : Z) (dst : option buffer) (dst_len : Z) (page_type : Z)
    (page' : buffer) (dst' : option buffer) :
  fil_consts_ok = true ->
  FIL_PAGE_DATA + 4 <= src_len ->
  0 <= page_type < 2 ^ 16 ->
  rd2 page FIL_PAGE_TYPE = encrypted_type page_type ->
  (page_type <> FIL_PAGE_COMPRESSED -> page_type <> FIL_PAGE_RTREE ->
   rd2 page FIL_PAGE_ORIGINAL_TYPE_V1 = page_type) ->
  decrypt type e page src_len dst dst_len = Ok (DB_SUCCESS, (page', dst')) ->
  rd2 page' FIL_PAGE_TYPE = page_type.
Proof.
  intros Hok Hlen Hpt Hty Hor Hrun.
  pose proof Hok as Hok'. consts_facts Hok'.
  unfold decrypt in Hrun.
  apply bind_Ok in Hrun. destruct Hrun as (enc & Henc & Hrun).
  unfold is_encrypted_page in Henc.
  apply bind_Ok in Henc. destruct Henc as (pt & Hpt' & Henc).
  apply mach_read_from_2_Ok in Hpt'. destruct Hpt' as (Hb1 & Hb2 & ->).
  injection Henc as <-. rewrite Hty in Hrun.
  rewrite (mach_read_from_2_ok page FIL_PAGE_TYPE Hb1 Hb2) in Hrun.
  cbn [bind] in Hrun. rewrite Hty in Hrun.
  assert (Henc : (encrypted_type page_type =? FIL_PAGE_ENCRYPTED)
                 || (encrypted_type page_type =? FIL_PAGE_COMPRESSED_AND_ENCRYPTED)
                 || (encrypted_type page_type =? FIL_PAGE_ENCRYPTED_RTREE) = true).
  { unfold encrypted_type.
    destruct (page_type =? FIL_PAGE_COMPRESSED); [| destruct (page_type =? FIL_PAGE_RTREE)];
      rewrite Z.eqb_refl; rewrite ?orb_true_r; reflexivity. }
  rewrite Henc in Hrun. cbn [andb negb orb] in Hrun.
  destruct (is_NONE (m_type e)) eqn:Hnone; [discriminate |].
  apply bind_Ok in Hrun. destruct Hrun as ([z_len src_len'] & Hsl & Hrun).
  apply bind_Ok in Hrun. destruct Hrun as (ot & Hot & Hrun).
  apply mach_read_from_2_Ok in Hot. destruct Hot as (_ & _ & ->).
  apply bind_Ok in Hrun. destruct Hrun as (_ & _ & Hrun).
  assert (Hres : forall r, decrypt_restore type e (encrypted_type page_type)
                   (uint16 (rd2 page FIL_PAGE_ORIGINAL_TYPE_V1)) z_len src_len' r
                 = Ok page' -> rd2 page' FIL_PAGE_TYPE = page_type).
  { intros r Hr. apply decrypt_restore_type in Hr; [| assumption |].
    - rewrite Hr. unfold encrypted_type in *.
      destruct (page_type =? FIL_PAGE_COMPRESSED) eqn:Hc;
        [| destruct (page_type =? FIL_PAGE_RTREE) eqn:Hr'].
      + replace (FIL_PAGE_COMPRESSED_AND_ENCRYPTED =? FIL_PAGE_ENCRYPTED) with false
          by (symmetry; apply Z.eqb_neq; lia).
        replace (FIL_PAGE_COMPRESSED_AND_ENCRYPTED =? FIL_PAGE_ENCRYPTED_RTREE) with false
          by (symmetry; apply Z.eqb_neq; lia).
        apply Z.eqb_eq in Hc. congruence.
      + replace (FIL_PAGE_ENCRYPTED_RTREE =? FIL_PAGE_ENCRYPTED) with false
          by (symmetry; apply Z.eqb_neq; lia).
        rewrite Z.eqb_refl. apply Z.eqb_eq in Hr'. congruence.
      + rewrite Z.eqb_refl. apply Z.eqb_neq in Hc, Hr'.
        rewrite (Hor Hc Hr'). unfold uint16. rewrite Z.mod_mod by lia.
        apply Z.mod_small. assumption.
    - unfold decrypt_src_len in Hsl.
      destruct (encrypted_type page_type =? FIL_PAGE_COMPRESSED_AND_ENCRYPTED) eqn:Hc;
        [left; reflexivity | right].
      injection Hsl as _ <-. assumption. }
  destruct (m_type e); [discriminate | |];
    run_inv; subst; try discriminate; eauto.
Qed.

End DecryptBytes.

(** * Part III: the claims *)

Import Example.

(** C9, as the code has it.  After a successful [encrypt_low] every byte of
    the first [FIL_PAGE_DATA] (38) bytes of the destination equals the byte
    of the source, except in the fields that are written after the header
    was copied: [FIL_PAGE_TYPE], [FIL_PAGE_ORIGINAL_TYPE_V1] for a page that
    is neither compressed nor an R-tree page, and in [KEYRING] mode the key
    version, the magic of a zip page and the checksum. *)
Theorem header_copied_outside_stamps {fc : FilConsts} {prim : Primitives}
    (type : IORequest) (e : Encryption) (src : buffer) (src_len : Z)
    (dst : buffer) (dst_len : Z) (st : crypt_state) (i : Z) :
  encrypt_low type e src src_len dst dst_len = Ok (true, st) ->
  0 <= i < FIL_PAGE_DATA ->
  header_stamped type e (rd2 src FIL_PAGE_TYPE) dst_len i = false ->
  byte_at (cs_dst st) i = byte_at src i.
Proof.
  intros Hrun Hi Hst. eapply encrypt_low_header_kept; eassumption.
Qed.

Lemma header_copied_outside_stamps_witness :
  byte_at (cs_dst (encrypted true (request false) (context AES 5 NO_ROTATION)
                     page_16k 16384)) 16
  = byte_at page_16k 16.
Proof.
  apply (@header_copied_outside_stamps innodb_consts (platform true)
           (request false) (context AES 5 NO_ROTATION) page_16k 16384
           (repeat x00 (Z.to_nat 16384)) 16384).
  - vm_compute. reflexivity.
  - vm_compute. split; [discriminate | reflexivity].
  - vm_compute. reflexivity.
Defined.

(** C9 fails as stated: on the page of 16 KiB of [0xAB], in [AES] mode, the
    byte at offset 25 of the destination is the low byte of
    [FIL_PAGE_ENCRYPTED], not the byte of the source. *)
Lemma header_not_verbatim :
  @encrypt_low innodb_consts (platform true) (request false)
    (context AES 5 NO_ROTATION) page_16k 16384 (repeat x00 (Z.to_nat 16384)) 16384
  = Ok (true, encrypted true (request false) (context AES 5 NO_ROTATION) page_16k 16384)
  /\ byte_at (cs_dst (encrypted true (request false) (context AES 5 NO_ROTATION)
                        page_16k 16384)) 25 = x0f
  /\ byte_at page_16k 25 = xab.
Proof.
  vm_compute. repeat split.
Qed.

(** C4.  After a successful [encrypt_low] the [FIL_PAGE_TYPE] field of the
    destination is one of [FIL_PAGE_ENCRYPTED], [FIL_PAGE_ENCRYPTED_RTREE] and
    [FIL_PAGE_COMPRESSED_AND_ENCRYPTED]: the last one exactly when the source
    was [FIL_PAGE_COMPRESSED], [FIL_PAGE_ENCRYPTED_RTREE] exactly when it was
    [FIL_PAGE_RTREE], and otherwise [FIL_PAGE_ENCRYPTED] with the old type in
    [FIL_PAGE_ORIGINAL_TYPE_V1]; and after a successful [decrypt] of that page
    [FIL_PAGE_TYPE] is the type the page had before it was encrypted. *)
Theorem page_type_discipline {fc : FilConsts} {prim : Primitives}
    (type : IORequest) (e : Encryption) (src : buffer) (src_len : Z)
    (dst : buffer) (st : crypt_state) :
  fil_consts_ok = true ->
  FIL_PAGE_DATA + 4 <= src_len ->
  encrypt_low type e src src_len dst src_len = Ok (true, st) ->
  let page_type := rd2 src FIL_PAGE_TYPE in
  let new_type := rd2 (cs_dst st) FIL_PAGE_TYPE in
  (new_type = FIL_PAGE_ENCRYPTED \/ new_type = FIL_PAGE_ENCRYPTED_RTREE
   \/ new_type = FIL_PAGE_COMPRESSED_AND_ENCRYPTED)
  /\ (new_type = FIL_PAGE_COMPRESSED_AND_ENCRYPTED <-> page_type = FIL_PAGE_COMPRESSED)
  /\ (new_type = FIL_PAGE_ENCRYPTED_RTREE <-> page_type = FIL_PAGE_RTREE)
  /\ (page_type <> FIL_PAGE_COMPRESSED -> page_type <> FIL_PAGE_RTREE ->
      new_type = FIL_PAGE_ENCRYPTED
      /\ rd2 (cs_dst st) FIL_PAGE_ORIGINAL_TYPE_V1 = page_type)
  /\ (forall type' e' scratch scratch_len page' scratch',
        decrypt type' e' (cs_dst st) src_len scratch scratch_len
        = Ok (DB_SUCCESS, (page', scratch')) ->
        rd2 page' FIL_PAGE_TYPE = page_type).
Proof.
  intros Hok Hlen Hrun page_type new_type.
  destruct (encrypt_low_type_fields _ _ _ _ _ _ _ Hok Hlen Hrun) as [Hty Hor].
  fold page_type in Hty, Hor. fold new_type in Hty.
  pose proof (rd2_range src FIL_PAGE_TYPE) as Hpt. fold page_type in Hpt.
  assert (Hdec : forall type' e' scratch scratch_len page' scratch',
             decrypt type' e' (cs_dst st) src_len scratch scratch_len
             = Ok (DB_SUCCESS, (page', scratch')) ->
             rd2 page' FIL_PAGE_TYPE = page_type).
  { intros type' e' scratch scratch_len page' scratch' Hdec.
    eapply decrypt_page_type; try eassumption. }
  pose proof Hok as Hok'. consts_facts Hok'.
  clearbody page_type new_type.
  assert (Hcases :
    (page_type = FIL_PAGE_COMPRESSED /\ new_type = FIL_PAGE_COMPRESSED_AND_ENCRYPTED)
    \/ (page_type <> FIL_PAGE_COMPRESSED /\ page_type = FIL_PAGE_RTREE
        /\ new_type = FIL_PAGE_ENCRYPTED_RTREE)
    \/ (page_type <> FIL_PAGE_COMPRESSED /\ page_type <> FIL_PAGE_RTREE
        /\ new_type = FIL_PAGE_ENCRYPTED)).
  { subst new_type. unfold encrypted_type.
    destruct (Z.eqb_spec page_type FIL_PAGE_COMPRESSED);
      [| destruct (Z.eqb_spec page_type FIL_PAGE_RTREE)]; intuition congruence. }
  split; [lia | split; [lia | split; [lia | split]]].
  - intros Hc Hr. split; [lia | auto].
  - exact Hdec.
Qed.

Lemma page_type_discipline_witness :
  let st := encrypted true (request false) (context KEYRING 5 NO_ROTATION) index_page 100 in
  rd2 index_page 24 = 17855
  /\ rd2 (cs_dst st) 24 = 15
  /\ rd2 (cs_dst st) 28 = 17855
  /\ exists page,
       decrypted true (request false) (context KEYRING 5 NO_ROTATION) (cs_dst st) 100
       = Some (DB_SUCCESS, page)
       /\ rd2 page 24 = 17855.
Proof.
  cbv zeta.
  destruct (@page_type_discipline innodb_consts (platform true)
              (request false) (context KEYRING 5 NO_ROTATION) index_page 100
              (repeat x00 (Z.to_nat 100))
              (encrypted true (request false) (context KEYRING 5 NO_ROTATION)
                 index_page 100))
    as (_ & _ & _ & Hnew & Hdec).
  - vm_compute. reflexivity.
  - vm_compute. discriminate.
  - vm_compute. reflexivity.
  - destruct Hnew as [Hty Hor]; [vm_compute; discriminate | vm_compute; discriminate |].
    split; [vm_compute; reflexivity |].
    split; [exact Hty |]. split; [exact Hor |].
    destruct (@decrypt innodb_consts (platform true) (request false)
                (context KEYRING 5 NO_ROTATION)
                (cs_dst (encrypted true (request false) (context KEYRING 5 NO_ROTATION)
                           index_page 100)) 100
                (Some (repeat x00 (Z.to_nat 100))) 100)
      as [[[| |] [page scratch']] | f] eqn:Hrun;
      try (vm_compute in Hrun; discriminate Hrun).
    exists page. split.
    + unfold decrypted. rewrite Hrun. reflexivity.
    + exact (Hdec _ _ _ _ _ _ Hrun).
Defined.

Section KeyVersion.
Context {fc : FilConsts} {prim : Primitives}.

(** What a successful [encrypt_low] in [KEYRING] mode did with the key
    version: stored in the source header, and in the destination. *)
Lemma encrypt_low_key_version (type : IORequest) (e : Encryption)
    (src : buffer) (src_len : Z) (dst : buffer) (dst_len : Z) (st : crypt_state) :
  m_type e = KEYRING ->
  encrypt_low type e src src_len dst dst_len = Ok (true, st) ->
  cs_src st = blit src FIL_PAGE_ENCRYPTION_KEY_VERSION (enc4 (m_key_version e))
  /\ 0 <= FIL_PAGE_ENCRYPTION_KEY_VERSION
  /\ FIL_PAGE_ENCRYPTION_KEY_VERSION + 4 <= blen src
  /\ (UNIV_DEBUG = true -> m_key_version e <> 0)
  /\ (fil_consts_ok = true -> FIL_PAGE_DATA + 4 <= dst_len ->
      rd4 (cs_dst st)
        (if rd2 src FIL_PAGE_TYPE =? FIL_PAGE_COMPRESSED then FIL_PAGE_DATA + 4
         else FIL_PAGE_ENCRYPTION_KEY_VERSION)
      = uint32 (m_key_version e)).
Proof.
  intros Hm Hrun. unfold encrypt_low in Hrun. rewrite Hm in Hrun.
  cbn [is_KEYRING andb] in Hrun.
  apply bind_Ok in Hrun. destruct Hrun as (page_type & Hpt & Hrun).
  apply mach_read_from_2_Ok in Hpt. destruct Hpt as (_ & _ & ->).
  repeat match goal with
  | H : encrypt_low_keyring _ _ _ _ _ _ _ = Ok _ |- _ =>
    pose proof (encrypt_low_keyring_src _ _ _ _ _ _ _ _ _ _ H) as (? & ? & ? & ?);
    pose proof (fun Hok Hlen => encrypt_low_keyring_dst _ _ _ _ _ _ _ _ _ _ Hok Hlen H);
    clear H
  | H : encrypt_low_cbc _ _ _ _ _ = Ok _ |- _ => clear H
  | H : encrypt_low_header _ _ _ = Ok _ |- _ => clear H
  | _ => run_step
  end; subst; try discriminate; cbn [cs_src cs_dst]; auto.
Qed.

(** In [AES] mode [encrypt_low] leaves the source page as it is. *)
Lemma encrypt_low_aes_src (type : IORequest) (e : Encryption)
    (src : buffer) (src_len : Z) (dst : buffer) (dst_len : Z) (ok : bool)
    (st : crypt_state) :
  m_type e = AES ->
  encrypt_low type e src src_len dst dst_len = Ok (ok, st) ->
  cs_src st = src.
Proof.
  intros Hm Hrun. unfold encrypt_low in Hrun. rewrite Hm in Hrun.
  cbn [is_KEYRING andb] in Hrun.
  repeat match goal with
  | H : encrypt_low_cbc _ _ _ _ _ = Ok _ |- _ => clear H
  | H : encrypt_low_header _ _ _ = Ok _ |- _ => clear H
  | _ => run_step
  end; subst; reflexivity.
Qed.

End KeyVersion.

(** C7, as the code has it.  For a page that is not [FIL_PAGE_COMPRESSED],
    successfully encrypted in [KEYRING] mode with a key version that is not
    zero (which a [UNIV_DEBUG] build asserts), the
    [FIL_PAGE_ENCRYPTION_KEY_VERSION] field of the encrypted page is the key
    version, so it is not zero.  For a [FIL_PAGE_COMPRESSED] page the key
    version is stored in the four bytes at [FIL_PAGE_DATA + 4] instead, and
    the header field keeps the bytes of the source. *)
Theorem keyring_key_version_stamped {fc : FilConsts} {prim : Primitives}
    (type : IORequest) (e : Encryption) (src : buffer) (src_len : Z)
    (dst : buffer) (dst_len : Z) (st : crypt_state) :
  fil_consts_ok = true ->
  FIL_PAGE_DATA + 4 <= dst_len ->
  m_type e = KEYRING ->
  0 <= m_key_version e < 2 ^ 32 ->
  UNIV_DEBUG = true \/ m_key_version e <> 0 ->
  encrypt_low type e src src_len dst dst_len = Ok (true, st) ->
  (rd2 src FIL_PAGE_TYPE <> FIL_PAGE_COMPRESSED ->
   rd4 (cs_dst st) FIL_PAGE_ENCRYPTION_KEY_VERSION = m_key_version e
   /\ rd4 (cs_dst st) FIL_PAGE_ENCRYPTION_KEY_VERSION <> 0)
  /\ (rd2 src FIL_PAGE_TYPE = FIL_PAGE_COMPRESSED ->
      rd4 (cs_dst st) (FIL_PAGE_DATA + 4) = m_key_version e
      /\ rd4 (cs_dst st) (FIL_PAGE_DATA + 4) <> 0
      /\ rd4 (cs_dst st) FIL_PAGE_ENCRYPTION_KEY_VERSION
         = rd4 src FIL_PAGE_ENCRYPTION_KEY_VERSION).
Proof.
  intros Hok Hlen Hm Hkv Hnz Hrun.
  destruct (encrypt_low_key_version _ _ _ _ _ _ _ Hm Hrun)
    as (_ & _ & _ & Hdbg & Hdst).
  specialize (Hdst Hok Hlen). rewrite (uint32_small _ Hkv) in Hdst.
  assert (Hne : m_key_version e <> 0) by (destruct Hnz; auto).
  split.
  - intros Hnc. apply Z.eqb_neq in Hnc. rewrite Hnc in Hdst.
    rewrite Hdst. auto.
  - intros Hc. rewrite (proj2 (Z.eqb_eq _ _) Hc) in Hdst.
    rewrite Hdst. repeat split; auto.
    apply rd4_same. intros i Hi.
    pose proof Hok as Hok'. consts_facts Hok'.
    apart FIL_PAGE_TYPE FIL_PAGE_ENCRYPTION_KEY_VERSION.
    apart FIL_PAGE_ENCRYPTION_KEY_VERSION FIL_PAGE_ZIP_KEYRING_ENCRYPTION_MAGIC.
    apply (encrypt_low_header_kept _ _ _ _ _ _ _ Hrun); [unfold FIL_PAGE_DATA; lia |].
    unfold header_stamped, keyring_stamped.
    rewrite Hm, (proj2 (Z.eqb_eq _ _) Hc). cbn [negb andb orb is_KEYRING].
    rewrite (in_range_false FIL_PAGE_TYPE) by lia.
    rewrite (in_range_false FIL_PAGE_DATA) by (unfold FIL_PAGE_DATA; lia).
    rewrite (in_range_false FIL_PAGE_ZIP_KEYRING_ENCRYPTION_MAGIC) by lia.
    rewrite andb_false_r. reflexivity.
Qed.

Lemma keyring_key_version_stamped_witness :
  let st := encrypted false (request false) (context KEYRING 5 MASTER_KEY_TO_KEYRING)
              index_page 100 in
  (rd2 index_page 24 <> 14 -> rd4 (cs_dst st) 30 = 5 /\ rd4 (cs_dst st) 30 <> 0)
  /\ (rd2 index_page 24 = 14 ->
      rd4 (cs_dst st) (38 + 4) = 5 /\ rd4 (cs_dst st) (38 + 4) <> 0
      /\ rd4 (cs_dst st) 30 = rd4 index_page 30).
Proof.
  apply (@keyring_key_version_stamped innodb_consts (platform false)
           (request false) (context KEYRING 5 MASTER_KEY_TO_KEYRING) index_page 100
           (repeat x00 (Z.to_nat 100)) 100).
  - vm_compute. reflexivity.
  - vm_compute. discriminate.
  - reflexivity.
  - vm_compute. split; [discriminate | reflexivity].
  - right. vm_compute. discriminate.
  - vm_compute. reflexivity.
Defined.

(** C7 fails as stated: a page of type [FIL_PAGE_COMPRESSED] whose header
    holds zeroes in the key version field is encrypted in [KEYRING] mode
    with key version 5, and the key version field of the encrypted page is
    zero; the version is in the bytes at [FIL_PAGE_DATA + 4]. *)
Lemma keyring_compressed_version_field_zero :
  @encrypt_low innodb_consts (platform true) (request false)
    (context KEYRING 5 NO_ROTATION) compressed_page 200 (repeat x00 (Z.to_nat 200)) 200
  = Ok (true, encrypted true (request false) (context KEYRING 5 NO_ROTATION)
                compressed_page 200)
  /\ rd4 (cs_dst (encrypted true (request false) (context KEYRING 5 NO_ROTATION)
                    compressed_page 200)) 30 = 0
  /\ rd4 (cs_dst (encrypted true (request false) (context KEYRING 5 NO_ROTATION)
                    compressed_page 200)) 42 = 5.
Proof.
  vm_compute. repeat split.
Qed.

(** C10.  [encrypt_low] writes to its source: in [KEYRING] mode a successful
    call leaves the source page with the four bytes of the key version stored
    at [FIL_PAGE_ENCRYPTION_KEY_VERSION], so the page of the caller changes
    whenever it did not hold that value there, and the destination holds the
    key version too; in [AES] mode the source page is left as it was. *)
Theorem source_page_mutated_in_keyring_mode {fc : FilConsts} {prim : Primitives}
    (type : IORequest) (e : Encryption) (src : buffer) (src_len : Z)
    (dst : buffer) (dst_len : Z) (st : crypt_state) :
  encrypt_low type e src src_len dst dst_len = Ok (true, st) ->
  (m_type e = KEYRING ->
   cs_src st = blit src FIL_PAGE_ENCRYPTION_KEY_VERSION (enc4 (m_key_version e))
   /\ 0 <= FIL_PAGE_ENCRYPTION_KEY_VERSION
   /\ FIL_PAGE_ENCRYPTION_KEY_VERSION + 4 <= blen src
   /\ rd4 (cs_src st) FIL_PAGE_ENCRYPTION_KEY_VERSION = uint32 (m_key_version e)
   /\ (rd4 src FIL_PAGE_ENCRYPTION_KEY_VERSION <> uint32 (m_key_version e) ->
       cs_src st <> src)
   /\ (fil_consts_ok = true -> FIL_PAGE_DATA + 4 <= dst_len ->
       rd4 (cs_dst st)
         (if rd2 src FIL_PAGE_TYPE =? FIL_PAGE_COMPRESSED then FIL_PAGE_DATA + 4
          else FIL_PAGE_ENCRYPTION_KEY_VERSION)
       = uint32 (m_key_version e)))
  /\ (m_type e = AES -> cs_src st = src).
Proof.
  intros Hrun. split.
  - intros Hm.
    destruct (encrypt_low_key_version _ _ _ _ _ _ _ Hm Hrun)
      as (Hsrc & Hlo & Hhi & _ & Hdst).
    assert (Hrd : rd4 (cs_src st) FIL_PAGE_ENCRYPTION_KEY_VERSION
                  = uint32 (m_key_version e)).
    { rewrite Hsrc. rewrite <- rd4_enc4. apply rd4_ext. intros j Hj.
      rewrite byte_at_blit by (rewrite ?blen_enc4; lia).
      rewrite blen_enc4.
      replace ((FIL_PAGE_ENCRYPTION_KEY_VERSION <=? FIL_PAGE_ENCRYPTION_KEY_VERSION + j)
               && (FIL_PAGE_ENCRYPTION_KEY_VERSION + j
                   <? FIL_PAGE_ENCRYPTION_KEY_VERSION + 4)) with true
        by (symmetry; apply andb_true_intro; split; lia).
      f_equal. lia. }
    repeat split; auto.
    intros Hne Heq. rewrite Heq in Hrd. contradiction.
  - intros Hm. eapply encrypt_low_aes_src; eassumption.
Qed.

Lemma source_page_mutated_in_keyring_mode_witness :
  let st := encrypted true (request false) (context KEYRING 5 NO_ROTATION)
              page_16k 16384 in
  (KEYRING = KEYRING ->
   cs_src st = blit page_16k 30 (enc4 5)
   /\ 0 <= 30 /\ 30 + 4 <= blen page_16k
   /\ rd4 (cs_src st) 30 = uint32 5
   /\ (rd4 page_16k 30 <> uint32 5 -> cs_src st <> page_16k)
   /\ (@fil_consts_ok innodb_consts = true -> 38 + 4 <= 16384 ->
       rd4 (cs_dst st) (if rd2 page_16k 24 =? 14 then 38 + 4 else 30) = uint32 5))
  /\ (KEYRING = AES -> cs_src st = page_16k).
Proof.
  apply (@source_page_mutated_in_keyring_mode innodb_consts (platform true)
           (request false) (context KEYRING 5 NO_ROTATION) page_16k 16384
           (repeat x00 (Z.to_nat 16384)) 16384).
  vm_compute. reflexivity.
Defined.

(** ** The encryption-info decoder *)

Lemma buffer_eqb_eq (a b : buffer) : buffer_eqb a b = true <-> a = b.
Proof.
  unfold buffer_eqb. revert b.
  induction a as [| x a IH]; intros [| y b]; cbn; try (split; [discriminate | discriminate]).
  - split; reflexivity.
  - specialize (IH b). rewrite andb_true_iff in *. rewrite andb_true_iff.
    split.
    + intros (Hlen & Hxy & Hab). apply Byte.byte_dec_bl in Hxy. subst y.
      f_equal. apply IH. split; assumption.
    + intros [= -> ->]. destruct (proj2 IH eq_refl) as [Hlen Hab].
      repeat split; try assumption. apply Byte.byte_dec_lb. reflexivity.
Qed.

Lemma mem_read_sub (b : buffer) (off len : Z) :
  0 <= off -> 0 <= len -> off + len <= blen b -> mem_read b off len = Ok (sub b off len).
Proof.
  intros Ho Hl Hb. unfold mem_read.
  now rewrite (proj2 (in_bounds_true b off len)) by lia.
Qed.

Lemma mem_read_eq (b : buffer) (off len : Z) (d : buffer) :
  mem_read b off len = Ok d -> d = sub b off len.
Proof.
  unfold mem_read. destruct (in_bounds b off len); [| discriminate]. now intros [= <-].
Qed.

Section InfoDecoder.
Context {K : Type} {ks : KeyringService K} {ic : InfoConsts} {prim : Primitives}.

(** The magic of an info that is long enough is compared with the three
    magics in turn. *)
Lemma info_version_unknown (info : buffer) :
  MAGIC_SIZE <= blen info ->
  MAGIC_SIZE <= blen KEY_MAGIC_V1 ->
  MAGIC_SIZE <= blen KEY_MAGIC_V2 ->
  MAGIC_SIZE <= blen KEY_MAGIC_V3 ->
  sub info 0 MAGIC_SIZE <> sub KEY_MAGIC_V1 0 MAGIC_SIZE ->
  sub info 0 MAGIC_SIZE <> sub KEY_MAGIC_V2 0 MAGIC_SIZE ->
  sub info 0 MAGIC_SIZE <> sub KEY_MAGIC_V3 0 MAGIC_SIZE ->
  info_version info = Ok None.
Proof.
  intros Hi H1 H2 H3 N1 N2 N3. unfold info_version, memcmp_eq.
  assert (Hm : 0 <= MAGIC_SIZE) by (unfold MAGIC_SIZE; lia).
  rewrite !mem_read_sub by lia. cbn [bind].
  assert (E : forall m, sub info 0 MAGIC_SIZE <> m ->
                buffer_eqb (sub info 0 MAGIC_SIZE) m = false).
  { intros m Hne. destruct (buffer_eqb (sub info 0 MAGIC_SIZE) m) eqn:E; [| reflexivity].
    apply buffer_eqb_eq in E. contradiction. }
  rewrite !E by assumption. reflexivity.
Qed.

End InfoDecoder.

(** C3.  For an encryption info whose first [MAGIC_SIZE] bytes are none of
    [KEY_MAGIC_V1], [KEY_MAGIC_V2] and [KEY_MAGIC_V3],
    [decode_encryption_info] returns [true] when recovery is on and [false]
    when it is not, and in both cases it leaves the buffers [key] and [iv]
    and the process-wide state as they were. *)
Theorem unknown_magic_is_tolerated_in_recovery {K : Type} {ks : KeyringService K}
    {ic : InfoConsts} {prim : Primitives}
    (s : server K) (key iv info : buffer) (decrypt_key : bool) (junk : Z -> byte) :
  MAGIC_SIZE <= blen info ->
  MAGIC_SIZE <= blen KEY_MAGIC_V1 ->
  MAGIC_SIZE <= blen KEY_MAGIC_V2 ->
  MAGIC_SIZE <= blen KEY_MAGIC_V3 ->
  sub info 0 MAGIC_SIZE <> sub KEY_MAGIC_V1 0 MAGIC_SIZE ->
  sub info 0 MAGIC_SIZE <> sub KEY_MAGIC_V2 0 MAGIC_SIZE ->
  sub info 0 MAGIC_SIZE <> sub KEY_MAGIC_V3 0 MAGIC_SIZE ->
  decode_encryption_info s key iv info decrypt_key junk
  = Ok (mkDecodeResult (recv_recovery_is_on s) key iv s)
  /\ (recv_recovery_is_on s = true ->
      decode_encryption_info s key iv info decrypt_key junk
      = Ok (mkDecodeResult true key iv s))
  /\ (recv_recovery_is_on s = false ->
      decode_encryption_info s key iv info decrypt_key junk
      = Ok (mkDecodeResult false key iv s)).
Proof.
  intros Hi H1 H2 H3 N1 N2 N3.
  assert (E : decode_encryption_info s key iv info decrypt_key junk
              = Ok (mkDecodeResult (recv_recovery_is_on s) key iv s)).
  { unfold decode_encryption_info.
    rewrite (info_version_unknown info Hi H1 H2 H3 N1 N2 N3). cbn [bind].
    destruct (recv_recovery_is_on s); reflexivity. }
  split; [exact E |]. split; intros Hr; rewrite E, Hr; reflexivity.
Qed.

Lemma unknown_magic_is_tolerated_in_recovery_witness :
  let s := server_with 3 [master_key_by_uuid uuid36 1] true in
  @decode_encryption_info _ list_keyring info_consts (platform true) s
    (repeat x00 32) (repeat x00 32) info_unknown true (fun _ => xcc)
  = Ok (mkDecodeResult (recv_recovery_is_on s) (repeat x00 32) (repeat x00 32) s)
  /\ (recv_recovery_is_on s = true ->
      @decode_encryption_info _ list_keyring info_consts (platform true) s
        (repeat x00 32) (repeat x00 32) info_unknown true (fun _ => xcc)
      = Ok (mkDecodeResult true (repeat x00 32) (repeat x00 32) s))
  /\ (recv_recovery_is_on s = false ->
      @decode_encryption_info _ list_keyring info_consts (platform true) s
        (repeat x00 32) (repeat x00 32) info_unknown true (fun _ => xcc)
      = Ok (mkDecodeResult false (repeat x00 32) (repeat x00 32) s)).
Proof.
  apply (@unknown_magic_is_tolerated_in_recovery _ list_keyring info_consts (platform true));
    vm_compute; discriminate.
Defined.

(** C2.  When the magic of an encryption info is recognised and the key is
    to be decrypted, [decode_encryption_info] returns [true] only if the
    CRC-32 of the 64 bytes {key, iv} that [my_aes_decrypt] gave under the
    master key of the info equals the four bytes stored behind the wrapped
    region; and when the two differ it returns [false], with the buffers
    [key] and [iv] and the process-wide state left as they were. *)
Theorem info_checksum_is_verified {K : Type} {ks : KeyringService K}
    {ic : InfoConsts} {prim : Primitives}
    (s : server K) (key iv info : buffer) (version : Version) (junk : Z -> byte) :
  info_version info = Ok (Some version) ->
  (forall r, decode_encryption_info s key iv info true junk = Ok r -> dr_ok r = true ->
     exists mki plain,
       get_master_key_from_info s info MAGIC_SIZE version
         (uninitialised junk (SERVER_UUID_LEN + 1)) = Ok mki
       /\ my_aes_decrypt (sub info (mki_ptr mki) (KEY_LEN * 2)) (mki_master_key mki)
            KEY_LEN my_aes_256_ecb None false = Some plain
       /\ rd4 info (mki_ptr mki + KEY_LEN * 2)
          = uint32 (ut_crc32
                      (blit (uninitialised (fun i => junk (SERVER_UUID_LEN + 1 + i))
                               (KEY_LEN * 2)) 0 plain)))
  /\ (forall ptr master_key_id srv_uuid key_info,
        decode_key_info s info version true junk
        = Ok (Some (ptr, master_key_id, srv_uuid, key_info)) ->
        0 <= ptr -> ptr + 4 <= blen info ->
        rd4 info ptr <> uint32 (ut_crc32 key_info) ->
        decode_encryption_info s key iv info true junk
        = Ok (mkDecodeResult false key iv s)).
Proof.
  intros Hv. split.
  - intros r Hrun Hok. unfold decode_encryption_info in Hrun.
    rewrite Hv in Hrun. cbn [bind] in Hrun.
    apply bind_Ok in Hrun. destruct Hrun as (ki & Hki & Hrun).
    destruct ki as [[[[ptr id] uuid] key_info] |];
      [| injection Hrun as <-; discriminate Hok].
    apply bind_Ok in Hrun. destruct Hrun as (crc1 & Hcrc & Hrun).
    apply mach_read_from_4_Ok in Hcrc. destruct Hcrc as (_ & _ & ->).
    destruct (rd4 info ptr =? uint32 (ut_crc32 key_info)) eqn:Heq; cbn [negb] in Hrun.
    + apply Z.eqb_eq in Heq.
      unfold decode_key_info in Hki.
      apply bind_Ok in Hki. destruct Hki as (mki & Hmki & Hki).
      destruct (is_null (mki_master_key mki)); [discriminate |].
      apply bind_Ok in Hki. destruct Hki as (wrapped & Hw & Hki).
      apply mem_read_eq in Hw. subst wrapped.
      change (uint32 (KEY_LEN * 2)) with (KEY_LEN * 2) in Hki.
      change (uint32 KEY_LEN) with KEY_LEN in Hki.
      destruct (my_aes_decrypt _ _ _ _ _ _) as [plain |] eqn:Hdec; [| discriminate].
      apply bind_Ok in Hki. destruct Hki as (ki & Hwr & Hki).
      apply mem_write_eq in Hwr. injection Hki as <- _ _ <-.
      exists mki, plain. rewrite <- Hwr. auto.
    + apply bind_Ok in Hrun. destruct Hrun as (_ & _ & Hrun).
      injection Hrun as <-. discriminate Hok.
  - intros ptr id uuid key_info Hki Hlo Hhi Hne.
    unfold decode_encryption_info. rewrite Hv. cbn [bind]. rewrite Hki. cbn [bind].
    rewrite mach_read_from_4_ok by lia. cbn [bind].
    apply Z.eqb_neq in Hne. rewrite Hne. cbn [negb].
    unfold ut_ad. destruct UNIV_DEBUG; reflexivity.
Qed.

Lemma info_checksum_is_verified_witness :
  let s := server_with 0 [master_key_by_uuid uuid36 1] false in
  (forall r, @decode_encryption_info _ list_keyring info_consts (platform true) s
               (repeat x00 32) (repeat x00 32) info_v3 true (fun _ => xcc) = Ok r ->
     dr_ok r = true ->
     exists mki plain,
       @get_master_key_from_info _ list_keyring info_consts (platform true) s info_v3
         MAGIC_SIZE VERSION_3 (uninitialised (fun _ => xcc) (SERVER_UUID_LEN + 1))
       = Ok mki
       /\ shift_cipher (-1) (sub info_v3 (mki_ptr mki) (KEY_LEN * 2)) (mki_master_key mki)
            KEY_LEN my_aes_256_ecb None false = Some plain
       /\ rd4 info_v3 (mki_ptr mki + KEY_LEN * 2)
          = uint32 (byte_sum
                      (blit (uninitialised (fun _ => xcc) (KEY_LEN * 2)) 0 plain)))
  /\ (forall ptr master_key_id srv_uuid key_info,
        @decode_key_info _ list_keyring info_consts (platform true) s info_v3 VERSION_3 true
          (fun _ => xcc)
        = Ok (Some (ptr, master_key_id, srv_uuid, key_info)) ->
        0 <= ptr -> ptr + 4 <= blen info_v3 ->
        rd4 info_v3 ptr <> uint32 (byte_sum key_info) ->
        @decode_encryption_info _ list_keyring info_consts (platform true) s
          (repeat x00 32) (repeat x00 32) info_v3 true (fun _ => xcc)
        = Ok (mkDecodeResult false (repeat x00 32) (repeat x00 32) s)).
Proof.
  apply (@info_checksum_is_verified _ list_keyring info_consts (platform true)
           (server_with 0 [master_key_by_uuid uuid36 1] false)
           (repeat x00 32) (repeat x00 32) info_v3 VERSION_3 (fun _ => xcc)).
  vm_compute. reflexivity.
Defined.

(** The tampered info of the example is refused, and the good one gives the
    key and the initial vector. *)
Example info_v3_tampered_refused :
  @decode_encryption_info _ list_keyring info_consts (platform true)
    (server_with 0 [master_key_by_uuid uuid36 1] false)
    (repeat x00 32) (repeat x00 32) info_v3_tampered true (fun _ => xcc)
  = Ok (mkDecodeResult false (repeat x00 32) (repeat x00 32)
          (server_with 0 [master_key_by_uuid uuid36 1] false)).
Proof. vm_compute. reflexivity. Qed.

Example info_v3_decoded :
  @decode_encryption_info _ list_keyring info_consts (platform true)
    (server_with 0 [master_key_by_uuid uuid36 1] false)
    (repeat x00 32) (repeat x00 32) info_v3 true (fun _ => xcc)
  = Ok (mkDecodeResult true key32 iv32
          (server_with 1 [master_key_by_uuid uuid36 1] false)).
Proof. vm_compute. reflexivity. Qed.

(** ** The master key id *)

Section MasterKeyId.
Context {K : Type} {ks : KeyringService K} {ic : InfoConsts} {prim : Primitives}.

Lemma create_master_key_id (s : server K) (master_key : option buffer) (s' : server K) :
  create_master_key s = Ok (master_key, s') ->
  s_master_key_id s' = s_master_key_id s
  \/ s_master_key_id s' = uint32 (s_master_key_id s + 1).
Proof.
  unfold create_master_key. intros Hrun.
  apply bind_Ok in Hrun. destruct Hrun as (u & _ & Hrun).
  cbn [keyring set_s_uuid s_uuid s_master_key_id set_keyring] in Hrun.
  destruct (my_key_generate _ _) as [ret k].
  cbn [keyring set_s_uuid s_uuid s_master_key_id set_keyring] in Hrun.
  destruct (my_key_fetch _ _) as [ret' mk].
  destruct (negb (ret' =? 0) || is_null mk); injection Hrun as _ <-; cbn; auto.
Qed.

Lemma get_master_key_id (s : server K) (id id' : Z) (master_key : option buffer)
    (s' : server K) :
  get_master_key s id = Ok (id', master_key, s') ->
  s_master_key_id s' = s_master_key_id s
  \/ (s_master_key_id s = DEFAULT_MASTER_KEY_ID /\ s_master_key_id s' = 1).
Proof.
  unfold get_master_key. intros Hrun.
  destruct (s_master_key_id s =? DEFAULT_MASTER_KEY_ID) eqn:Hz.
  - apply Z.eqb_eq in Hz.
    apply bind_Ok in Hrun. destruct Hrun as (u & _ & Hrun).
    apply bind_Ok in Hrun. destruct Hrun as (u' & _ & Hrun).
    cbn [keyring set_s_uuid s_uuid s_master_key_id set_keyring] in Hrun.
    destruct (my_key_generate _ _) as [ret k].
    cbn [keyring set_s_uuid s_uuid s_master_key_id set_keyring] in Hrun.
    destruct (my_key_fetch _ _) as [ret' mk].
    destruct ((ret' =? 0) && negb (is_null mk)); injection Hrun as _ _ <-; cbn; auto.
    right. split; [assumption |]. rewrite Hz. reflexivity.
  - destruct (my_key_fetch _ _) as [ret mk].
    destruct (if negb (ret =? 0) || is_null mk then _ else _) as [ret' mk'].
    injection Hrun as _ _ <-. auto.
Qed.

Lemma decode_encryption_info_id (s : server K) (key iv info : buffer)
    (decrypt_key : bool) (junk : Z -> byte) (r : decode_result K) :
  decode_encryption_info s key iv info decrypt_key junk = Ok r ->
  s_master_key_id (dr_server r) = s_master_key_id s
  \/ (decrypt_key = true /\ dr_ok r = true
      /\ s_master_key_id s < s_master_key_id (dr_server r)).
Proof.
  unfold decode_encryption_info. intros Hrun.
  repeat match goal with
  | H : decode_key_info _ _ _ _ _ = Ok _ |- _ => clear H
  | H : info_version _ = Ok _ |- _ => clear H
  | H : copy_uuid _ _ = Ok _ |- _ => clear H
  | _ => run_step
  end; subst; cbn [dr_server dr_ok]; auto.
  right. bool_facts. cbn. auto.
Qed.

Lemma master_key_step_id (s s' : server K) :
  master_key_step s s' ->
  0 <= s_master_key_id s < 2 ^ 32 - 1 ->
  s_master_key_id s <= s_master_key_id s'.
Proof.
  intros Hstep Hid.
  destruct Hstep as [mk Hc | id id' mk Hg | key iv info dk junk r Hd ->].
  - apply create_master_key_id in Hc. destruct Hc as [-> | ->]; [lia |].
    rewrite uint32_small by lia. lia.
  - apply get_master_key_id in Hg. unfold DEFAULT_MASTER_KEY_ID in Hg. lia.
  - apply decode_encryption_info_id in Hd. lia.
Qed.

Lemma master_key_run_id (s s' : server K) :
  master_key_run s s' -> 0 <= s_master_key_id s -> s_master_key_id s <= s_master_key_id s'.
Proof.
  induction 1 as [s | s s' s'' Hlt Hstep Hrun IH]; intros Hpos; [lia |].
  pose proof (master_key_step_id s s' Hstep ltac:(lia)). lia.
Qed.

End MasterKeyId.

(** C6, as the code has it.  [create_master_key] leaves [s_master_key_id] as
    it is or adds one to it in 32 bits, the first-key path of
    [get_master_key] only moves it from 0 to 1, and [decode_encryption_info]
    overwrites it only with a decoded id that is strictly greater, when the
    key was decrypted.  So the id never decreases along a run of these
    functions in which [create_master_key] is not called at the largest
    32-bit id, where the increment wraps to 0. *)
Theorem master_key_id_never_decreases {K : Type} {ks : KeyringService K}
    {ic : InfoConsts} {prim : Primitives} :
  (forall (s : server K) master_key s',
      create_master_key s = Ok (master_key, s') ->
      s_master_key_id s' = s_master_key_id s
      \/ s_master_key_id s' = uint32 (s_master_key_id s + 1))
  /\ (forall (s : server K) id id' master_key s',
         get_master_key s id = Ok (id', master_key, s') ->
         s_master_key_id s' = s_master_key_id s
         \/ (s_master_key_id s = DEFAULT_MASTER_KEY_ID /\ s_master_key_id s' = 1))
  /\ (forall (s : server K) key iv info decrypt_key junk r,
         decode_encryption_info s key iv info decrypt_key junk = Ok r ->
         s_master_key_id (dr_server r) = s_master_key_id s
         \/ (decrypt_key = true /\ dr_ok r = true
             /\ s_master_key_id s < s_master_key_id (dr_server r)))
  /\ (forall s s' : server K,
        master_key_run s s' -> 0 <= s_master_key_id s ->
        s_master_key_id s <= s_master_key_id s').
Proof.
  split; [| split; [| split]].
  - intros s mk s'. apply create_master_key_id.
  - intros s id id' mk s'. apply get_master_key_id.
  - intros s key iv info dk junk r. apply decode_encryption_info_id.
  - intros s s'. apply master_key_run_id.
Qed.

Lemma master_key_id_never_decreases_witness :
  s_master_key_id (server_with 0 [] false) <= s_master_key_id (server_with 2 
     [master_key_by_uuid uuid36 2; master_key_by_uuid uuid36 1] false).
Proof.
  apply (proj2 (proj2 (proj2
           (@master_key_id_never_decreases _ list_keyring info_consts (platform true))))).
  - apply (run_step _ (server_with 1 [master_key_by_uuid uuid36 1] false)).
    + vm_compute. reflexivity.
    + apply (step_get_master_key _ _ 0 1 (Some (repeat x01 32))).
      vm_compute. reflexivity.
    + apply (run_step _ (server_with 2 [master_key_by_uuid uuid36 2;
                                        master_key_by_uuid uuid36 1] false)).
      * vm_compute. reflexivity.
      * apply (step_create_master_key _ _ (Some (repeat x02 32))).
        vm_compute. reflexivity.
      * apply run_done.
  - vm_compute. discriminate.
Defined.

(** C6 fails as stated: a version 3 info under the master key with the
    largest 32-bit id advances the id of a fresh server to that id, and the
    next [create_master_key] finds the key it generated and leaves the id
    at 0. *)
Lemma master_key_id_wraps_to_zero :
  let s0 := server_with 0 [master_key_by_uuid uuid36 4294967295] false in
  let s1 := server_with 4294967295 [master_key_by_uuid uuid36 4294967295] false in
  let s2 := server_with 0 [master_key_by_uuid uuid36 0;
                           master_key_by_uuid uuid36 4294967295] false in
  @decode_encryption_info _ list_keyring info_consts (platform true)
     s0 (repeat x00 32) (repeat x00 32) info_v3_last_id true (fun _ => xcc)
  = Ok (mkDecodeResult true key32 iv32 s1)
  /\ @create_master_key _ list_keyring s1 = Ok (Some (repeat x00 32), s2)
  /\ s_master_key_id s2 < s_master_key_id s1.
Proof.
  vm_compute. split; [reflexivity | split; reflexivity].
Qed.

(** ** The checksum of an encrypted log block *)

Section LogChecksum.
Context {lc : LogConsts} {prim : Primitives} {rk : RedoLogKeys}.

Lemma log_consts_ok_true :
  log_consts_ok = true -> 0 <= LOG_BLOCK_CHECKSUM <= LOG_BLOCK_TRL_SIZE.
Proof. unfold log_consts_ok. intros H. bool_facts. lia. Qed.

(** The last steps of a [KEYRING] run of [encrypt_log_block] that returns
    [true]: the checksum of the block is computed and stored with the key
    version added. *)
Lemma encrypt_log_block_last (e : Encryption) (src dst blk : buffer)
    (junk : Z -> byte) :
  m_type e = KEYRING ->
  encrypt_log_block e src dst junk = Ok (true, blk) ->
  exists b crc,
    log_block_calc_checksum_crc32 b = Ok crc
    /\ log_block_set_checksum b (ulint (crc + m_key_version e)) = Ok blk.
Proof.
  intros Ht Hrun. unfold encrypt_log_block in Hrun. rewrite Ht in Hrun.
  cbn [is_KEYRING] in Hrun.
  repeat match goal with
  | H : bind (log_block_calc_checksum_crc32 _) _ = Ok _ |- _ =>
    apply bind_Ok in H; destruct H as (crc & Hcrc & Hset)
  | H : log_block_set_encrypt_bit _ _ = Ok _ |- _ => clear H
  | H : mem_read _ _ _ = Ok _ |- _ => clear H
  | H : mem_write _ _ _ = Ok _ |- _ => clear H
  | _ => run_step
  end; subst; try (cbn in *; congruence); eauto.
Qed.

Lemma log_block_calc_checksum_crc32_Ok (b : buffer) (crc : Z) :
  log_block_calc_checksum_crc32 b = Ok crc ->
  0 <= OS_FILE_LOG_BLOCK_SIZE - LOG_BLOCK_TRL_SIZE <= blen b
  /\ crc = uint32 (ut_crc32 (sub b 0 (OS_FILE_LOG_BLOCK_SIZE - LOG_BLOCK_TRL_SIZE))).
Proof.
  unfold log_block_calc_checksum_crc32. intros H.
  apply bind_Ok in H. destruct H as (d & Hd & H). injection H as <-.
  pose proof (mem_read_eq _ _ _ _ Hd) as ->.
  apply mem_read_Ok in Hd. split; [lia | reflexivity].
Qed.

(** Storing the checksum leaves the checksum of the block as it was: the
    field is in the trailer. *)
Lemma log_block_set_checksum_crc (b b' : buffer) (n crc : Z) :
  log_consts_ok = true ->
  log_block_calc_checksum_crc32 b = Ok crc ->
  log_block_set_checksum b n = Ok b' ->
  log_block_calc_checksum_crc32 b' = Ok crc
  /\ log_block_get_checksum b' = Ok (uint32 n).
Proof.
  intros Hok Hcrc Hset. apply log_consts_ok_true in Hok.
  apply log_block_calc_checksum_crc32_Ok in Hcrc. destruct Hcrc as (Hlen & ->).
  unfold log_block_set_checksum in Hset.
  apply mach_write_to_4_Ok in Hset. destruct Hset as (Hoff & Hend & Hblen & Hbytes).
  split.
  - unfold log_block_calc_checksum_crc32.
    rewrite mem_read_sub by lia. cbn [bind]. do 3 f_equal.
    apply buffer_ext.
    + rewrite !blen_sub by lia. reflexivity.
    + intros i Hi. rewrite blen_sub in Hi by lia.
      rewrite !byte_at_sub by lia. rewrite Hbytes by lia.
      rewrite in_range_false by lia. reflexivity.
  - unfold log_block_get_checksum. rewrite mach_read_from_4_ok by lia.
    f_equal. apply (rd4_stored b b' _ n); assumption.
Qed.

(** Every return of [decrypt_log_block] in [KEYRING] mode carries the
    context that [decrypt_log_load_key] left. *)
Lemma decrypt_log_block_context (e e' : Encryption) (src dst src' dst' : buffer)
    (err : dberr_t) :
  m_type e = KEYRING ->
  decrypt_log_block e src dst = Ok (err, (e', src', dst')) ->
  decrypt_log_load_key e src = Ok e'.
Proof.
  intros Ht Hrun. unfold decrypt_log_block in Hrun. rewrite Ht in Hrun.
  cbn [is_KEYRING] in Hrun.
  apply bind_Ok in Hrun. destruct Hrun as (e1 & He1 & Hrun). rewrite He1. f_equal.
  repeat match goal with
  | H : log_block_set_encrypt_bit _ _ = Ok _ |- _ => clear H
  | H : log_block_calc_checksum_crc32 _ = Ok _ |- _ => clear H
  | H : log_block_set_checksum _ _ = Ok _ |- _ => clear H
  | H : mem_read _ _ _ = Ok _ |- _ => clear H
  | H : mem_write _ _ _ = Ok _ |- _ => clear H
  | _ => run_step
  end; subst; reflexivity.
Qed.

End LogChecksum.

Lemma uint32_add_sub (crc kv : Z) :
  0 <= crc < 2 ^ 32 -> 0 <= kv < 2 ^ 32 ->
  uint32 (ulint (uint32 (crc + kv) - crc)) = kv
  /\ (crc + kv < 2 ^ 32 -> ulint (uint32 (crc + kv) - crc) = kv).
Proof.
  intros Hcrc Hkv.
  destruct (Z_lt_dec (crc + kv) (2 ^ 32)) as [Hsmall | Hwrap].
  - rewrite (uint32_small (crc + kv)) by lia.
    replace (crc + kv - crc) with kv by lia.
    rewrite ulint_small by lia. rewrite uint32_small by lia. auto.
  - split; [| lia].
    assert (Hw : uint32 (crc + kv) = crc + kv - 2 ^ 32).
    { unfold uint32. symmetry. apply (Z.mod_unique_pos _ _ 1); lia. }
    rewrite Hw. replace (crc + kv - 2 ^ 32 - crc) with (kv - 2 ^ 32) by lia.
    assert (Hu : ulint (kv - 2 ^ 32) = kv - 2 ^ 32 + 2 ^ 64).
    { unfold ulint. symmetry. apply (Z.mod_unique_pos _ _ (-1)); lia. }
    rewrite Hu. unfold uint32. symmetry.
    apply (Z.mod_unique_pos _ _ (2 ^ 32 - 1)); lia.
Qed.

(** C8, as the code has it.  A block that [encrypt_log_block] encrypted in
    [KEYRING] mode under a 32-bit key version carries in its trailer the
    CRC-32 of the block plus the key version, in 32 bits.  The version that
    [decrypt_log_block] takes from the block, the stored checksum minus the
    CRC-32 of the block in the 64 bits of [ulint], is the key version modulo
    2^32, and the key version itself when the sum did not wrap.  The key of
    that version is loaded when it differs from the version of the
    decrypting context and is not [REDO_LOG_ENCRYPT_NO_VERSION]; otherwise
    the context is left as it is. *)
Theorem log_checksum_carries_key_version {lc : LogConsts} {prim : Primitives}
    {rk : RedoLogKeys} (e : Encryption) (src dst blk : buffer)
    (junk : Z -> byte) :
  log_consts_ok = true ->
  m_type e = KEYRING ->
  0 <= m_key_version e < 2 ^ 32 ->
  encrypt_log_block e src dst junk = Ok (true, blk) ->
  exists crc v,
    log_block_calc_checksum_crc32 blk = Ok crc
    /\ log_block_get_checksum blk = Ok (uint32 (crc + m_key_version e))
    /\ decrypt_log_key_version blk = Ok v
    /\ uint32 v = m_key_version e
    /\ (crc + m_key_version e < 2 ^ 32 -> v = m_key_version e)
    /\ forall d : Encryption,
         (m_key_version d = v \/ v = REDO_LOG_ENCRYPT_NO_VERSION ->
          decrypt_log_load_key d blk = Ok d)
         /\ (forall version key,
               m_key_version d <> v -> v <> REDO_LOG_ENCRYPT_NO_VERSION ->
               load_key_version (m_key_id_uuid d) v = Some (version, key) ->
               decrypt_log_load_key d blk = Ok (set_m_key_and_version d key version))
         /\ (forall scratch err d' blk' scratch',
               m_type d = KEYRING ->
               decrypt_log_block d blk scratch = Ok (err, (d', blk', scratch')) ->
               decrypt_log_load_key d blk = Ok d').
Proof.
  intros Hok Ht Hkv Hrun.
  destruct (encrypt_log_block_last e src dst blk junk Ht Hrun) as (b & crc & Hcrc & Hset).
  destruct (log_block_set_checksum_crc b blk _ crc Hok Hcrc Hset) as (Hcrc' & Hget).
  assert (Hrange : 0 <= crc < 2 ^ 32).
  { apply log_block_calc_checksum_crc32_Ok in Hcrc. destruct Hcrc as (_ & ->).
    apply uint32_range. }
  rewrite ulint_small in Hget by lia.
  destruct (uint32_add_sub crc (m_key_version e) Hrange Hkv) as (Hmod & Hexact).
  assert (Hv : decrypt_log_key_version blk
               = Ok (ulint (uint32 (crc + m_key_version e) - crc))).
  { unfold decrypt_log_key_version. rewrite Hcrc', Hget. reflexivity. }
  exists crc, (ulint (uint32 (crc + m_key_version e) - crc)).
  split; [exact Hcrc' |]. split; [exact Hget |]. split; [exact Hv |].
  split; [exact Hmod |]. split; [exact Hexact |].
  intros d. unfold decrypt_log_load_key. rewrite Hv. cbn [bind].
  split; [| split].
  - intros [Heq | Heq].
    + rewrite (proj2 (Z.eqb_eq _ _) Heq). reflexivity.
    + rewrite (proj2 (Z.eqb_eq _ _) Heq), andb_false_r. reflexivity.
  - intros version key Hne Hno Hload.
    rewrite (proj2 (Z.eqb_neq _ _) Hne), (proj2 (Z.eqb_neq _ _) Hno), Hload.
    reflexivity.
  - intros scratch err d' blk' scratch' Htd Hdec.
    pose proof (decrypt_log_block_context d d' blk scratch blk' scratch' err Htd Hdec)
      as Hctx.
    unfold decrypt_log_load_key in Hctx. rewrite Hv in Hctx. exact Hctx.
Qed.

Lemma log_checksum_carries_key_version_witness :
  @decrypt_log_key_version innodb_log_consts (platform true)
     (encrypted_block true (context KEYRING 5 NO_ROTATION) log_block) = Ok 5
  /\ m_key_version
       (set_m_key_and_version (context KEYRING 3 NO_ROTATION) (Some (repeat x05 32)) 5) = 5
  /\ @decrypt_log_load_key innodb_log_consts (platform true) redo_keys
       (context KEYRING 3 NO_ROTATION)
       (encrypted_block true (context KEYRING 5 NO_ROTATION) log_block)
     = Ok (set_m_key_and_version (context KEYRING 3 NO_ROTATION) (Some (repeat x05 32)) 5).
Proof.
  destruct (@log_checksum_carries_key_version innodb_log_consts (platform true) redo_keys
              (context KEYRING 5 NO_ROTATION) log_block (repeat x00 (Z.to_nat 512))
              (encrypted_block true (context KEYRING 5 NO_ROTATION) log_block)
              (fun _ => xcc))
    as (crc & v & Hcrc & _ & Hv & _ & Hexact & Hload).
  - reflexivity.
  - reflexivity.
  - cbn. lia.
  - vm_compute. reflexivity.
  - assert (Hv5 : v = 5).
    { apply Hexact. vm_compute in Hcrc. injection Hcrc as <-. reflexivity. }
    subst v. split; [exact Hv |]. split; [reflexivity |].
    apply (proj1 (proj2 (Hload (context KEYRING 3 NO_ROTATION)))).
    + cbn. discriminate.
    + cbn. discriminate.
    + reflexivity.
Defined.

(** C8 fails as stated: a block encrypted in [KEYRING] mode under the key
    version 0, which is [REDO_LOG_ENCRYPT_NO_VERSION], carries the plain
    CRC-32; the decrypting context of version 3 recovers the version 0,
    which differs from its own and for which the key manager holds a key,
    and loads nothing. *)
Lemma log_key_version_zero_is_not_loaded :
  let e := context KEYRING 0 NO_ROTATION in
  let d := context KEYRING 3 NO_ROTATION in
  let blk := encrypted_block true e log_block in
  @encrypt_log_block innodb_log_consts (platform true) e log_block
     (repeat x00 (Z.to_nat 512)) (fun _ => xcc) = Ok (true, blk)
  /\ @decrypt_log_key_version innodb_log_consts (platform true) blk = Ok 0
  /\ m_key_version d = 3
  /\ load_key_version (m_key_id_uuid d) 0 = Some (0, Some (repeat x00 32))
  /\ @decrypt_log_load_key innodb_log_consts (platform true) redo_keys d blk = Ok d.
Proof.
  vm_compute. repeat split.
Qed.

(** ** The round trip of a page *)

Lemma ut_ad_ok (dbg c : bool) : (dbg = true -> c = true) -> ut_ad dbg c = Ok tt.
Proof. destruct dbg; cbn; [intros -> | intros _]; reflexivity. Qed.

(** One step of a run that is shown to return: the next access is inside
    its buffer, and the bytes that it gives are recorded. *)
Ltac fwd_read :=
  match goal with
  | |- context [mem_read ?b ?o ?l] =>
    let d := fresh "d" in
    let Hl := fresh "Hlen" in
    let Hb := fresh "Hbytes" in
    destruct (mem_read_ok b o l) as (d & -> & Hl & Hb); [lia | lia | lia |];
    cbn [bind]
  end.

Ltac fwd_write :=
  match goal with
  | |- context [mem_write ?b ?o ?x] =>
    let d := fresh "d" in
    let Hl := fresh "Hlen" in
    let Hb := fresh "Hbytes" in
    destruct (mem_write_ok b o x) as (d & -> & Hl & Hb); [lia | lia |];
    cbn [bind]
  | |- context [memset ?b ?o ?c ?l] =>
    let d := fresh "d" in
    let Hl := fresh "Hlen" in
    let Hb := fresh "Hbytes" in
    destruct (memset_ok b o c l) as (d & -> & Hl & Hb); [lia | lia | lia |];
    cbn [bind]
  | |- context [mach_write_to_2 ?b ?o ?n] =>
    let d := fresh "d" in
    let Hl := fresh "Hlen" in
    let Hb := fresh "Hbytes" in
    destruct (mach_write_to_2_ok b o n) as (d & -> & Hl & Hb); [lia | lia |];
    cbn [bind]
  end.

(** Following a byte of the encrypted page, which holds what
    [encrypt_low_cbc] left. *)
Ltac chase Hsame :=
  repeat (first [rewrite Hsame by lia | bytes_step]; range_cases);
  try reflexivity; try (f_equal; lia); try lia.

(** The buffer that is about to be decrypted is one that was the result of
    an encryption. *)
Ltac fwd_cipher Hsame :=
  match goal with
  | |- context [my_aes_decrypt ?c _ _ _ _ _] =>
    is_var c;
    match goal with
    | A : my_aes_decrypt ?b _ _ _ _ _ = Some _ |- _ =>
      let E := fresh "E" in
      assert (E : c = b)
        by (apply buffer_ext; [lia | intros ? ?; solve [chase Hsame]]);
      rewrite E, A; cbn [bind]
    end
  end.

Ltac fwd_len :=
  match goal with
  | |- context [ut_ad UNIV_DEBUG (?a =? ?b)] =>
    rewrite (ut_ad_ok UNIV_DEBUG (a =? b)) by (intros _; apply Z.eqb_eq; lia);
    cbn [bind]
  end.

Ltac fwd Hsame :=
  repeat first
    [ rewrite ulint_small by lia
    | fwd_read | fwd_write | fwd_cipher Hsame | fwd_len ].

Section CbcRoundTrip.
Context {fc : FilConsts} {prim : Primitives}.


End CbcRoundTrip.

Section RestoreRoundTrip.
Context {fc : FilConsts} {prim : Primitives}.



End RestoreRoundTrip.

Section PageRoundTrip.
Context {fc : FilConsts} {prim : Primitives}.


Lemma is_encrypted_page_ok (page : buffer) :
  0 <= FIL_PAGE_TYPE -> FIL_PAGE_TYPE + 2 <= blen page ->
  is_encrypted_page page
  = Ok ((rd2 page FIL_PAGE_TYPE =? FIL_PAGE_ENCRYPTED)
        || (rd2 page FIL_PAGE_TYPE =? FIL_PAGE_COMPRESSED_AND_ENCRYPTED)
        || (rd2 page FIL_PAGE_TYPE =? FIL_PAGE_ENCRYPTED_RTREE)).
Proof.
  intros H0 H1. unfold is_encrypted_page.
  rewrite mach_read_from_2_ok by lia. reflexivity.
Qed.

(** The encrypted page type tells the three kinds of pages apart. *)
Lemma encrypted_type_tests (page_type : Z) :
  fil_consts_ok = true ->
  (encrypted_type page_type =? FIL_PAGE_COMPRESSED_AND_ENCRYPTED)
  = (page_type =? FIL_PAGE_COMPRESSED)
  /\ (encrypted_type page_type =? FIL_PAGE_ENCRYPTED_RTREE)
     = negb (page_type =? FIL_PAGE_COMPRESSED) && (page_type =? FIL_PAGE_RTREE)
  /\ (encrypted_type page_type =? FIL_PAGE_ENCRYPTED)
     = negb (page_type =? FIL_PAGE_COMPRESSED) && negb (page_type =? FIL_PAGE_RTREE).
Proof.
  intros Hok. consts_facts Hok. unfold encrypted_type.
  destruct (page_type =? FIL_PAGE_COMPRESSED); [| destruct (page_type =? FIL_PAGE_RTREE)];
    cbn [negb andb];
    repeat match goal with
    | |- context [?a =? ?b] => destruct (Z.eqb_spec a b); try lia
    end; auto.
Qed.


Lemma encrypt_src_enc_len_Ok (page_type : Z) (src : buffer) (src_len len : Z) :
  encrypt_src_enc_len page_type src src_len = Ok len ->
  if page_type =? FIL_PAGE_COMPRESSED
  then len = Z.max (rd2 src FIL_PAGE_COMPRESS_SIZE_V1 + FIL_PAGE_DATA) MIN_ENCRYPTION_LEN
       /\ len <= src_len
  else len = src_len.
Proof.
  unfold encrypt_src_enc_len. intros Hrun.
  destruct (page_type =? FIL_PAGE_COMPRESSED); [| congruence].
  unfold MIN_ENCRYPTION_LEN, MY_AES_BLOCK_SIZE, FIL_PAGE_DATA in *.
  apply bind_Ok in Hrun. destruct Hrun as (z & Hz & Hrun).
  apply mach_read_from_2_Ok in Hz. destruct Hz as (_ & _ & ->).
  destruct (rd2 src FIL_PAGE_COMPRESS_SIZE_V1 + 38 <? 2 * 16 + 38) eqn:E;
    run_inv; bool_facts; subst; lia.
Qed.


(** The length of the data that [encrypt_low] encrypts, for a page that is
    long enough. *)
Lemma encrypt_data_len_range (type : IORequest) (e : Encryption) (page_type len : Z) :
  MIN_ENCRYPTION_LEN <= len < 2 ^ 32 ->
  (page_type =? FIL_PAGE_COMPRESSED) = false -> MIN_ENCRYPTION_LEN + 4 <= len ->
  encrypt_data_len type e page_type len
  = (if is_KEYRING (m_type e) && negb (is_page_zip_compressed type)
     then len - FIL_PAGE_DATA - 4 else len - FIL_PAGE_DATA).
Proof.
  intros Hlen Hc Hl4. unfold encrypt_data_len. rewrite Hc, andb_false_r.
  unfold MIN_ENCRYPTION_LEN, MY_AES_BLOCK_SIZE, FIL_PAGE_DATA in *.
  destruct (is_KEYRING (m_type e) && negb (is_page_zip_compressed type)).
  - rewrite (ulint_small (len - 38)) by lia. apply ulint_small. lia.
  - apply ulint_small. lia.
Qed.


(** The header fields of [fil_consts_ok], as plain bounds. *)
Lemma fil_consts_fields :
  fil_consts_ok = true ->
  (0 <= FIL_PAGE_LSN /\ FIL_PAGE_LSN + 8 <= 38)
  /\ (0 <= FIL_PAGE_TYPE /\ FIL_PAGE_TYPE + 2 <= 38)
  /\ (0 <= FIL_PAGE_ORIGINAL_TYPE_V1 /\ FIL_PAGE_ORIGINAL_TYPE_V1 + 2 <= 38)
  /\ (0 <= FIL_PAGE_COMPRESS_SIZE_V1 /\ FIL_PAGE_COMPRESS_SIZE_V1 + 2 <= 38)
  /\ (0 <= FIL_PAGE_ENCRYPTION_KEY_VERSION /\ FIL_PAGE_ENCRYPTION_KEY_VERSION + 4 <= 38)
  /\ (0 <= FIL_PAGE_ZIP_KEYRING_ENCRYPTION_MAGIC
      /\ FIL_PAGE_ZIP_KEYRING_ENCRYPTION_MAGIC + ZIP_PAGE_KEYRING_ENCRYPTION_MAGIC_LEN <= 38
      /\ 0 <= ZIP_PAGE_KEYRING_ENCRYPTION_MAGIC_LEN)
  /\ FIL_PAGE_END_LSN_OLD_CHKSUM = 8
  /\ (0 <= FIL_PAGE_TYPE_ALLOCATED < 65536 /\ 0 <= FIL_PAGE_COMPRESSED < 65536
      /\ 0 <= FIL_PAGE_RTREE < 65536 /\ 0 <= FIL_PAGE_ENCRYPTED < 65536).
Proof.
  intros Hok. consts_facts Hok. unfold FIL_PAGE_DATA in *. repeat split; lia.
Qed.


End PageRoundTrip.



(** The stand-in cipher of the platform is its own inverse. *)
Lemma shift_byte_inverse (b : byte) : shift_byte (-1) (shift_byte 1 b) = b.
Proof. destruct b; reflexivity. Qed.

Lemma shift_cipher_inverse (debug : bool) : @cbc_inverse (platform debug).
Proof.
  intros p c key klen iv. cbn [my_aes_encrypt my_aes_decrypt platform].
  unfold shift_cipher. destruct key as [k |]; [| discriminate].
  intros [= <-]. split.
  - unfold blen. rewrite length_map. reflexivity.
  - rewrite map_map. f_equal. rewrite <- (map_id p) at 2.
    apply map_ext. apply shift_byte_inverse.
Qed.



(** The two exceptions are met: a page of the type [FIL_PAGE_TYPE_ALLOCATED],
    and an R-tree page whose original type field holds
    [FIL_PAGE_TYPE_ALLOCATED], come back from [decrypt] with
    [FIL_PAGE_TYPE_ALLOCATED] in the field, not with [FIL_PAGE_ENCRYPTED]. *)
Example round_trip_leaves_allocated_type :
  let e := context AES 5 NO_ROTATION in
  let fresh_page := page_of_type 0 xab 100 in
  let rtree := blit rtree_page 28 (enc2 0) in
  (exists out,
     decrypted true (request false) e
       (cs_dst (encrypted true (request false) e fresh_page 100)) 100
     = Some (DB_SUCCESS, out)
     /\ rd2 out FIL_PAGE_TYPE = FIL_PAGE_TYPE_ALLOCATED
     /\ rd2 out FIL_PAGE_ORIGINAL_TYPE_V1 = FIL_PAGE_TYPE_ALLOCATED)
  /\ (exists out,
        decrypted true (request false) e
          (cs_dst (encrypted true (request false) e rtree 100)) 100
        = Some (DB_SUCCESS, out)
        /\ rd2 out FIL_PAGE_TYPE = FIL_PAGE_RTREE
        /\ rd2 out FIL_PAGE_ORIGINAL_TYPE_V1 = FIL_PAGE_TYPE_ALLOCATED).
Proof.
  cbv zeta. split; eexists; (split; [vm_compute; reflexivity |]); vm_compute; split; reflexivity.
Qed.

(** An R-tree page in [KEYRING] mode that is not a zip page does not come
    back: [encrypt_low] leaves the last four bytes of the page out of the
    data that it encrypts, and [decrypt] takes them in when the page type
    is [FIL_PAGE_ENCRYPTED_RTREE]. *)
Example rtree_page_keyring_round_trip :
  let e := context KEYRING 5 NO_ROTATION in
  let st := encrypted true (request false) e rtree_page 100 in
  @encrypt_low innodb_consts (platform true) (request false) e rtree_page 100
    (repeat x00 (Z.to_nat 100)) 100 = Ok (true, st)
  /\ @encrypt_data_len innodb_consts (request false) e 17854 100 = 58
  /\ @decrypt_data_len innodb_consts (request false) e 17 100 38 = 62
  /\ exists out,
       decrypted true (request false) e (cs_dst st) 100 = Some (DB_SUCCESS, out)
       /\ byte_at rtree_page 64 = xab /\ byte_at out 64 = xac.
Proof.
  vm_compute. repeat split. eexists. repeat split.
Qed.

(** * Part IV: the callers, the encoder and the keys

    What the code shows besides: the outcomes of [decrypt] and
    [encrypt_low], the round trips of a log block, of a run of log blocks
    and of an encryption information, and the keys of the keyring. *)

Import Example2.

Section PageEdges.
Context {fc : FilConsts} {prim : Primitives}.

Lemma decrypt_cbc_failed (e : Encryption) (page_type : Z) (src : buffer)
    (data_len H : Z) (dst src' dst' : buffer) :
  decrypt_cbc e page_type src data_len H dst = Ok (false, (src', dst')) ->
  is_KEYRING (m_type e) && (page_type =? FIL_PAGE_COMPRESSED_AND_ENCRYPTED) = false ->
  src' = src.
Proof.
  unfold decrypt_cbc. intros Hrun Hkz. rewrite Hkz in Hrun.
  run_inv; subst; try discriminate; reflexivity.
Qed.

End PageEdges.

(** X1.  The outcomes of [decrypt].  It never returns [DB_UNSUPPORTED].  A
    page that [is_encrypted_page] does not take as encrypted gives
    [DB_SUCCESS] and is left as it is, with the scratch area.  With the mode
    [NONE] nothing is stored either, and the result is [DB_IO_DECRYPT_FAIL]
    exactly for an encrypted page.  [DB_IO_DECRYPT_FAIL] is returned for
    encrypted pages only, and the page is then as it was, but for a compressed
    page in [KEYRING] mode, where eight bytes at the end of the data are
    cleared before the main data is decrypted. *)
Theorem decrypt_outcomes {fc : FilConsts} {prim : Primitives}
    (type : IORequest) (e : Encryption) (src : buffer) (src_len : Z)
    (dst : option buffer) (dst_len : Z) (err : dberr_t) (src' : buffer)
    (dst' : option buffer) :
  decrypt type e src src_len dst dst_len = Ok (err, (src', dst')) ->
  err <> DB_UNSUPPORTED
  /\ (is_encrypted_page src = Ok false -> err = DB_SUCCESS /\ src' = src /\ dst' = dst)
  /\ (m_type e = NONE ->
      src' = src /\ dst' = dst
      /\ (err = DB_IO_DECRYPT_FAIL <-> is_encrypted_page src = Ok true))
  /\ (err = DB_IO_DECRYPT_FAIL ->
      is_encrypted_page src = Ok true
      /\ (is_KEYRING (m_type e)
          && (rd2 src FIL_PAGE_TYPE =? FIL_PAGE_COMPRESSED_AND_ENCRYPTED) = false ->
          src' = src)).
Proof.
  unfold decrypt. intros Hrun.
  apply bind_Ok in Hrun. destruct Hrun as (enc & Henc & Hrun).
  rewrite Henc.
  destruct enc; cbn [andb negb orb] in Hrun.
  - destruct (m_type e) eqn:Ht; cbn [is_NONE] in Hrun.
    + injection Hrun as <- <- <-.
      repeat split; try discriminate; try congruence.
    + apply bind_Ok in Hrun. destruct Hrun as (pt & Hpt & Hrun).
      apply mach_read_from_2_Ok in Hpt. destruct Hpt as (_ & _ & ->).
      apply bind_Ok in Hrun. destruct Hrun as ([z_len len] & Hsl & Hrun).
      apply bind_Ok in Hrun. destruct Hrun as (ot & Hot & Hrun).
      apply bind_Ok in Hrun. destruct Hrun as (_ & _ & Hrun).
      apply bind_Ok in Hrun. destruct Hrun as ([ok [s1 b1]] & Hcbc & Hrun).
      destruct ok; cbn [negb] in Hrun.
      * apply bind_Ok in Hrun. destruct Hrun as (s2 & _ & Hrun).
        injection Hrun as <- <- <-.
        repeat split; try discriminate; try congruence.
      * injection Hrun as <- <- <-.
        repeat split; try discriminate; try congruence.
        intros Hkz. eapply decrypt_cbc_failed; [eassumption |].
        rewrite Ht. exact Hkz.
    + apply bind_Ok in Hrun. destruct Hrun as (pt & Hpt & Hrun).
      apply mach_read_from_2_Ok in Hpt. destruct Hpt as (_ & _ & ->).
      apply bind_Ok in Hrun. destruct Hrun as ([z_len len] & Hsl & Hrun).
      apply bind_Ok in Hrun. destruct Hrun as (ot & Hot & Hrun).
      apply bind_Ok in Hrun. destruct Hrun as (_ & _ & Hrun).
      apply bind_Ok in Hrun. destruct Hrun as ([ok [s1 b1]] & Hcbc & Hrun).
      destruct ok; cbn [negb] in Hrun.
      * apply bind_Ok in Hrun. destruct Hrun as (s2 & _ & Hrun).
        injection Hrun as <- <- <-.
        repeat split; try discriminate; try congruence.
      * injection Hrun as <- <- <-.
        repeat split; try discriminate; try congruence.
        intros Hkz. eapply decrypt_cbc_failed; [eassumption |].
        rewrite Ht. exact Hkz.
  - injection Hrun as <- <- <-.
    repeat split; try discriminate; try congruence.
Qed.

Section PageEdges2.
Context {fc : FilConsts} {prim : Primitives}.

Lemma encrypt_data_len_nonneg (type : IORequest) (e : Encryption) (page_type len : Z) :
  0 <= encrypt_data_len type e page_type len < 2 ^ 64.
Proof.
  unfold encrypt_data_len. repeat destruct (_ && _); apply ulint_range.
Qed.

(** A run of [encrypt_low_cbc] stores nothing below [H], and nothing from
    [H + n] on. *)
Lemma encrypt_low_cbc_frame (e : Encryption) (src : buffer) (n H : Z)
    (dst : buffer) (ok : bool) (dst1 : buffer) :
  0 <= n ->
  encrypt_low_cbc e src n H dst = Ok (ok, dst1) ->
  forall i, 0 <= i -> (i < H /\ (ok = true -> 2 * MY_AES_BLOCK_SIZE <= n)) \/ H + n <= i ->
    byte_at dst1 i = byte_at dst i.
Proof.
  intros Hn Hrun i Hi Hout.
  pose proof (block_floor n Hn) as Hm.
  unfold encrypt_low_cbc in Hrun.
  remember (n / MY_AES_BLOCK_SIZE * MY_AES_BLOCK_SIZE) as m eqn:Em.
  unfold MY_AES_BLOCK_SIZE in *.
  run_inv; try absurd_case; bool_facts; subst; try reflexivity.
  all: change (uint32 (16 * 2)) with 32 in *; change (16 * 2) with 32 in *.
  all: try (destruct Hout as [[Hlo Hok] | Hhi]; [try specialize (Hok eq_refl) |];
            bytes; try reflexivity; lia).
Qed.

End PageEdges2.

(** X2.  What a run of [encrypt_low] that returns needs: a mode other than
    [NONE] (the switch stops at [ut_error] otherwise), a compressed page whose
    compressed size, with the header and at least [MIN_ENCRYPTION_LEN], is
    within [src_len], and in a [UNIV_DEBUG] build a page that is not encrypted
    yet, a key of [KEY_LEN] bytes, an initial vector and two cipher blocks of
    data. *)
Theorem encrypt_low_requirements {fc : FilConsts} {prim : Primitives}
    (type : IORequest) (e : Encryption) (src : buffer) (src_len : Z)
    (dst : buffer) (dst_len : Z) (ok : bool) (st : crypt_state) :
  encrypt_low type e src src_len dst dst_len = Ok (ok, st) ->
  m_type e <> NONE
  /\ (rd2 src FIL_PAGE_TYPE = FIL_PAGE_COMPRESSED ->
      rd2 src FIL_PAGE_COMPRESS_SIZE_V1 + FIL_PAGE_DATA <= src_len
      /\ MIN_ENCRYPTION_LEN <= src_len)
  /\ (UNIV_DEBUG = true ->
      is_encrypted_page src = Ok false
      /\ m_klen e = KEY_LEN /\ m_iv e <> None
      /\ exists len,
           encrypt_src_enc_len (rd2 src FIL_PAGE_TYPE) src src_len = Ok len
           /\ 2 * MY_AES_BLOCK_SIZE <= encrypt_data_len type e (rd2 src FIL_PAGE_TYPE) len).
Proof.
  unfold encrypt_low. intros Hrun.
  apply bind_Ok in Hrun. destruct Hrun as (page_type & Hpt & Hrun).
  apply mach_read_from_2_Ok in Hpt. destruct Hpt as (Hb0 & Hb1 & ->).
  apply bind_Ok in Hrun. destruct Hrun as (u & Hdbg & Hrun).
  apply bind_Ok in Hrun. destruct Hrun as (len & Hlen & Hrun).
  split; [| split].
  - destruct (m_type e); [discriminate | discriminate | discriminate].
  - intros Hc. apply encrypt_src_enc_len_Ok in Hlen.
    rewrite Hc, Z.eqb_refl in Hlen. lia.
  - intros Hd. unfold ut_ad_m in Hdbg. rewrite Hd in Hdbg.
    apply bind_Ok in Hdbg. destruct Hdbg as (c & Hc & Ha).
    apply ut_a_Ok in Ha. subst c.
    apply bind_Ok in Hc. destruct Hc as (enc & Henc & Hc).
    injection Hc as Hc. apply negb_true_iff in Hc. subst enc.
    split; [exact Henc |].
    assert (Hcbc : exists r H n, n = encrypt_data_len type e (rd2 src FIL_PAGE_TYPE) len
                     /\ encrypt_low_cbc e src n H dst = Ok r).
    { destruct (m_type e); [discriminate | |];
        apply bind_Ok in Hrun; destruct Hrun as (r & Hr & _); eauto. }
    destruct Hcbc as (r & H & n & -> & Hcbc).
    unfold encrypt_low_cbc in Hcbc. rewrite Hd in Hcbc. cbn [ut_ad] in Hcbc.
    apply bind_Ok in Hcbc. destruct Hcbc as (u1 & Hk & Hcbc). apply ut_a_Ok in Hk.
    apply bind_Ok in Hcbc. destruct Hcbc as (u2 & Hiv & Hcbc). apply ut_a_Ok in Hiv.
    apply bind_Ok in Hcbc. destruct Hcbc as (u3 & Hn & Hcbc). apply ut_a_Ok in Hn.
    bool_facts.
    split; [assumption | split].
    + destruct (m_iv e); [discriminate | discriminate Hiv].
    + exists len. split; [exact Hlen | assumption].
Qed.

(** X3.  A run of [encrypt_low] that returns [false], because the cipher gave
    [MY_AES_BAD_DATA], leaves [*dst_len == src_len], the source page and the
    context as they were, and the first [FIL_PAGE_DATA] bytes of the
    destination as well: no header is copied and no page type is written. *)
Theorem encrypt_low_failure_leaves_pages {fc : FilConsts} {prim : Primitives}
    (type : IORequest) (e : Encryption) (src : buffer) (src_len : Z)
    (dst : buffer) (dst_len : Z) (st : crypt_state) :
  encrypt_low type e src src_len dst dst_len = Ok (false, st) ->
  cs_src st = src /\ cs_enc st = e /\ cs_dst_len st = src_len
  /\ blen (cs_dst st) = blen dst
  /\ forall i, 0 <= i < FIL_PAGE_DATA -> byte_at (cs_dst st) i = byte_at dst i.
Proof.
  intros Hrun. pose proof (encrypt_low_lengths _ _ _ _ _ _ _ _ Hrun) as (Hl & Hb & _).
  unfold encrypt_low in Hrun.
  apply bind_Ok in Hrun. destruct Hrun as (page_type & Hpt & Hrun).
  apply bind_Ok in Hrun. destruct Hrun as (u & _ & Hrun).
  apply bind_Ok in Hrun. destruct Hrun as (len & Hlen & Hrun).
  pose proof (encrypt_data_len_nonneg type e page_type len) as Hn.
  assert (H38 : forall H, H = FIL_PAGE_DATA \/ H = FIL_PAGE_DATA + 8 -> FIL_PAGE_DATA <= H)
    by (intros ? [-> | ->]; lia).
  destruct (m_type e) eqn:Ht; [discriminate | |];
    apply bind_Ok in Hrun; destruct Hrun as ([ok dst1] & Hcbc & Hrun);
    (destruct ok; cbn [negb] in Hrun;
     [ exfalso; run_inv; bool_facts
     | injection Hrun as <-; cbn [cs_src cs_enc cs_dst cs_dst_len] in *;
       repeat split; try reflexivity; try assumption;
       intros i Hi; eapply encrypt_low_cbc_frame; [| eassumption | lia |];
       [lia | left; split; [| discriminate]] ]).
  - cbn. lia.
  - cbn [is_KEYRING andb]. destruct (page_type =? FIL_PAGE_COMPRESSED); lia.
Qed.

Section PageEdges3.
Context {fc : FilConsts} {prim : Primitives}.



End PageEdges3.



(** X5.  [encrypt] returns the destination exactly when [encrypt_low] returned
    [true]: the page there is one that [is_encrypted_page] takes as encrypted,
    [is_encrypted_and_compressed] tells whether the source was a compressed
    page, and the counter of encrypted pages has advanced.  When it returns
    the source, the source page is as it was and the counter too. *)
Theorem encrypt_returns_encrypted_page {fc : FilConsts} {prim : Primitives}
    (is_log : bool) (type : IORequest) (e : Encryption) (src : buffer)
    (src_len : Z) (dst : buffer) (pages_encrypted : Z)
    (ptr : returned) (st : crypt_state) (pages_encrypted' : Z) :
  fil_consts_ok = true ->
  FIL_PAGE_DATA + 4 <= src_len ->
  encrypt is_log type e src src_len dst src_len pages_encrypted
  = Ok (ptr, st, pages_encrypted') ->
  cs_dst_len st = src_len
  /\ (UNIV_DEBUG = true -> is_log = false /\ m_type e <> NONE)
  /\ match ptr with
     | returned_dst =>
       encrypt_low type e src src_len dst src_len = Ok (true, st)
       /\ is_encrypted_page (cs_dst st) = Ok true
       /\ is_encrypted_and_compressed (cs_dst st)
          = Ok (rd2 src FIL_PAGE_TYPE =? FIL_PAGE_COMPRESSED)
       /\ pages_encrypted' = pages_encrypted + 1
     | returned_src =>
       encrypt_low type e src src_len dst src_len = Ok (false, st)
       /\ cs_src st = src
       /\ pages_encrypted' = pages_encrypted
     end.
Proof.
  intros Hok Hlen Hrun. unfold encrypt in Hrun.
  apply bind_Ok in Hrun. destruct Hrun as (u1 & Hl & Hrun).
  apply bind_Ok in Hrun. destruct Hrun as (u2 & Hn & Hrun).
  apply bind_Ok in Hrun. destruct Hrun as ([ok st0] & Hlow & Hrun).
  pose proof (encrypt_low_lengths _ _ _ _ _ _ _ _ Hlow) as (Hdl & Hb & _).
  assert (Hdbg : UNIV_DEBUG = true -> is_log = false /\ m_type e <> NONE).
  { intros Hd. apply ut_ad_Ok in Hl, Hn; try assumption.
    apply negb_true_iff in Hl, Hn. split; [assumption |].
    intros Ht. rewrite Ht in Hn. discriminate. }
  destruct ok; cbn [negb] in Hrun; injection Hrun as <- <- <-.
  - split; [assumption | split; [assumption |]].
    split; [assumption |].
    destruct (encrypt_low_type_fields _ _ _ _ _ _ _ Hok Hlen Hlow) as [Hty _].
    destruct (fil_consts_fields Hok) as (_ & (Ht0 & Ht1) & _).
    pose proof Hlow as Hsrc. unfold encrypt_low in Hsrc.
    apply bind_Ok in Hsrc. destruct Hsrc as (pt & Hpt & Hsrc).
    apply bind_Ok in Hsrc. destruct Hsrc as (u3 & _ & Hsrc).
    apply bind_Ok in Hsrc. destruct Hsrc as (len & Hsl & Hsrc).
    assert (Hcbc : exists n H d1, 0 <= n /\ FIL_PAGE_DATA <= H
                     /\ encrypt_low_cbc e src n H dst = Ok (true, d1)
                     /\ exists d2, encrypt_low_header pt src d1 = Ok d2).
    { pose proof (encrypt_data_len_nonneg type e pt len) as Hnn.
      destruct (m_type e); [discriminate | |];
        apply bind_Ok in Hsrc; destruct Hsrc as ([ok d1] & Hc & Hsrc);
        (destruct ok; cbn [negb] in Hsrc; [| discriminate]);
        apply bind_Ok in Hsrc; destruct Hsrc as (d2 & Hh & _);
        do 3 eexists; (split; [| split; [| split; [exact Hc | eauto]]]);
        try lia; cbn [is_KEYRING andb]; try destruct (_ =? _); lia. }
    destruct Hcbc as (n & H & d1 & Hn0 & H38 & Hcbc & d2 & Hh).
    apply encrypt_low_cbc_blen in Hcbc.
    unfold encrypt_low_header in Hh.
    apply bind_Ok in Hh. destruct Hh as (hdr & Hr & Hh).
    apply mem_read_Ok in Hr. destruct Hr as (_ & _ & _ & Hr & _).
    apply bind_Ok in Hh. destruct Hh as (d3 & Hw & _).
    apply mem_write_Ok in Hw. destruct Hw as (_ & Hw & _).
    assert (Hbl : FIL_PAGE_TYPE + 2 <= blen (cs_dst st0)).
    { rewrite Hb. unfold FIL_PAGE_DATA in *. lia. }
    destruct (encrypted_type_tests (rd2 src FIL_PAGE_TYPE) Hok) as (Ec & Er & Ee).
    split; [| split; [| reflexivity]].
    + rewrite is_encrypted_page_ok by lia. rewrite Hty, Ec, Er, Ee.
      destruct (rd2 src FIL_PAGE_TYPE =? FIL_PAGE_COMPRESSED);
        destruct (rd2 src FIL_PAGE_TYPE =? FIL_PAGE_RTREE); reflexivity.
    + unfold is_encrypted_and_compressed.
      rewrite mach_read_from_2_ok by lia. cbn [bind]. rewrite Hty, Ec. reflexivity.
  - split; [assumption | split; [assumption |]].
    split; [assumption |].
    split; [| reflexivity].
    unfold encrypt_low in Hlow.
    repeat match goal with
    | H : encrypt_low_cbc _ _ _ _ _ = Ok _ |- _ => clear H
    | H : encrypt_low_header _ _ _ = Ok _ |- _ => clear H
    | H : encrypt_low_keyring _ _ _ _ _ _ _ = Ok _ |- _ => clear H
    | _ => run_step
    end; subst; try reflexivity; bool_facts.
Qed.

(** ** The encrypted bit of a log block *)

Lemma testbit_above (f n k : Z) : 0 <= f < 2 ^ k -> 0 <= k <= n -> Z.testbit f n = false.
Proof.
  intros Hf Hk. destruct (Z.eq_dec f 0) as [-> | Hne]; [apply Z.bits_0 |].
  apply Z.bits_above_log2; [lia |].
  assert (Z.log2 f < k) by (apply Z.log2_lt_pow2; lia). lia.
Qed.

(** Setting and then clearing the bits of [M] in a two-byte field clears
    them. *)
Lemma clear_bit_field (f M : Z) :
  0 <= f < 2 ^ 16 ->
  uint16 (Z.land (uint16 (Z.lor f M)) (uint32 (Z.lnot M))) = Z.land f (Z.lnot M).
Proof.
  intros Hf. unfold uint16, uint32. apply Z.bits_inj'. intros n Hn.
  rewrite Z.land_spec, Z.lnot_spec by lia.
  destruct (Z_lt_ge_dec n 16) as [Hlt | Hge].
  - rewrite Z.mod_pow2_bits_low by lia.
    rewrite Z.land_spec.
    rewrite !Z.mod_pow2_bits_low by lia.
    rewrite Z.lor_spec, Z.lnot_spec by lia.
    destruct (Z.testbit f n), (Z.testbit M n); reflexivity.
  - rewrite Z.mod_pow2_bits_high by lia.
    rewrite (testbit_above f n 16) by lia. reflexivity.
Qed.

Lemma set_bit_field (f M : Z) :
  Z.land M (uint16 (Z.lor f M)) = uint16 M.
Proof.
  unfold uint16. apply Z.bits_inj'. intros n Hn.
  rewrite Z.land_spec.
  destruct (Z_lt_ge_dec n 16) as [Hlt | Hge].
  - rewrite !Z.mod_pow2_bits_low by lia. rewrite Z.lor_spec.
    destruct (Z.testbit f n), (Z.testbit M n); reflexivity.
  - rewrite !Z.mod_pow2_bits_high by lia. apply andb_false_r.
Qed.

Lemma cleared_bit_field (f M : Z) :
  Z.land M (Z.land f (Z.lnot M)) = 0.
Proof.
  apply Z.bits_inj'. intros n Hn.
  rewrite !Z.land_spec, Z.lnot_spec, Z.bits_0 by lia.
  destruct (Z.testbit f n), (Z.testbit M n); reflexivity.
Qed.

Lemma clear_bit_kept (f M : Z) : Z.land M f = 0 -> Z.land f (Z.lnot M) = f.
Proof.
  intros H. apply Z.bits_inj'. intros n Hn.
  rewrite Z.land_spec, Z.lnot_spec by lia.
  assert (Hb : Z.testbit (Z.land M f) n = false) by (rewrite H; apply Z.bits_0).
  rewrite Z.land_spec in Hb.
  destruct (Z.testbit f n), (Z.testbit M n); try reflexivity; discriminate.
Qed.

(** Two-byte fields that read the same hold the same bytes. *)
Lemma rd2_bytes (a b : buffer) (off i : Z) :
  rd2 a off = rd2 b off -> off <= i < off + 2 -> byte_at a i = byte_at b i.
Proof.
  intros H Hi. pose proof (enc2_rd2 a off) as Ha. pose proof (enc2_rd2 b off) as Hb.
  rewrite H, Hb in Ha. injection Ha as H0 H1.
  assert (Hc : i = off \/ i = off + 1) by lia.
  destruct Hc as [-> | ->]; congruence.
Qed.

Lemma log_layout_ok_true {lc : LogConsts} :
  log_layout_ok = true ->
  0 <= LOG_BLOCK_HDR_DATA_LEN /\ LOG_BLOCK_HDR_DATA_LEN + 2 <= LOG_BLOCK_HDR_SIZE
  /\ 0 <= LOG_BLOCK_TRL_SIZE /\ 4 <= LOG_BLOCK_CHECKSUM <= LOG_BLOCK_TRL_SIZE
  /\ LOG_BLOCK_HDR_SIZE + 32 + LOG_BLOCK_TRL_SIZE <= 512.
Proof.
  unfold log_layout_ok, MY_AES_BLOCK_SIZE, OS_FILE_LOG_BLOCK_SIZE.
  rewrite !andb_true_iff. lia.
Qed.

Section LogBits.
Context {lc : LogConsts} {prim : Primitives} {rk : RedoLogKeys}.

Lemma log_block_set_encrypt_bit_ok (block : buffer) (val : bool) :
  0 <= LOG_BLOCK_HDR_DATA_LEN -> LOG_BLOCK_HDR_DATA_LEN + 2 <= blen block ->
  exists block',
    log_block_set_encrypt_bit block val = Ok block'
    /\ blen block' = blen block
    /\ (forall i, 0 <= i ->
          byte_at block' i
          = if in_range LOG_BLOCK_HDR_DATA_LEN 2 i
            then byte_at (enc2 (if val
                                then Z.lor (rd2 block LOG_BLOCK_HDR_DATA_LEN)
                                       LOG_BLOCK_ENCRYPT_BIT_MASK
                                else Z.land (rd2 block LOG_BLOCK_HDR_DATA_LEN)
                                       (uint32 (Z.lnot LOG_BLOCK_ENCRYPT_BIT_MASK))))
                   (i - LOG_BLOCK_HDR_DATA_LEN)
            else byte_at block i)
    /\ rd2 block' LOG_BLOCK_HDR_DATA_LEN
       = uint16 (if val then Z.lor (rd2 block LOG_BLOCK_HDR_DATA_LEN) LOG_BLOCK_ENCRYPT_BIT_MASK
                 else Z.land (rd2 block LOG_BLOCK_HDR_DATA_LEN)
                        (uint32 (Z.lnot LOG_BLOCK_ENCRYPT_BIT_MASK))).
Proof.
  intros H0 H1. unfold log_block_set_encrypt_bit.
  rewrite mach_read_from_2_ok by lia. cbn [bind].
  destruct (mach_write_to_2_ok block LOG_BLOCK_HDR_DATA_LEN
              (if val then Z.lor (rd2 block LOG_BLOCK_HDR_DATA_LEN) LOG_BLOCK_ENCRYPT_BIT_MASK
               else Z.land (rd2 block LOG_BLOCK_HDR_DATA_LEN)
                      (uint32 (Z.lnot LOG_BLOCK_ENCRYPT_BIT_MASK))) H0 H1)
    as (b' & Hw & Hl & Hb).
  exists b'. split; [exact Hw | split; [exact Hl | split]].
  - exact Hb.
  - eapply rd2_stored; eassumption.
Qed.

Lemma is_encrypted_log_ok (block : buffer) :
  0 <= LOG_BLOCK_HDR_DATA_LEN -> LOG_BLOCK_HDR_DATA_LEN + 2 <= blen block ->
  is_encrypted_log block
  = Ok (negb (Z.land LOG_BLOCK_ENCRYPT_BIT_MASK (rd2 block LOG_BLOCK_HDR_DATA_LEN) =? 0)).
Proof.
  intros H0 H1. unfold is_encrypted_log, log_block_get_encrypt_bit.
  rewrite mach_read_from_2_ok by lia. reflexivity.
Qed.

(** The checksum of a block is computed and stored: the block then carries
    its own checksum. *)
Lemma log_block_checksum_ok (b : buffer) :
  log_layout_ok = true -> OS_FILE_LOG_BLOCK_SIZE <= blen b ->
  exists crc b',
    log_block_calc_checksum_crc32 b = Ok crc
    /\ log_block_set_checksum b crc = Ok b'
    /\ blen b' = blen b
    /\ (forall i, 0 <= i ->
          byte_at b' i
          = if in_range (512 - LOG_BLOCK_CHECKSUM) 4 i
            then byte_at (enc4 crc) (i - (512 - LOG_BLOCK_CHECKSUM))
            else byte_at b i)
    /\ log_block_get_checksum b' = log_block_calc_checksum_crc32 b'.
Proof.
  intros Hok Hlen. pose proof (log_layout_ok_true Hok) as (HF0 & HF1 & HT0 & HC & Hfit).
  unfold OS_FILE_LOG_BLOCK_SIZE in *.
  assert (Hc : log_consts_ok = true).
  { unfold log_consts_ok. apply andb_true_iff. split; apply Z.leb_le; lia. }
  unfold log_block_calc_checksum_crc32 at 1.
  destruct (mem_read_ok b 0 (OS_FILE_LOG_BLOCK_SIZE - LOG_BLOCK_TRL_SIZE))
    as (d & Hd & _); unfold OS_FILE_LOG_BLOCK_SIZE; try lia.
  unfold OS_FILE_LOG_BLOCK_SIZE in Hd. rewrite Hd. cbn [bind].
  set (crc := uint32 (ut_crc32 d)).
  assert (Hcrc : log_block_calc_checksum_crc32 b = Ok crc).
  { unfold log_block_calc_checksum_crc32, OS_FILE_LOG_BLOCK_SIZE. now rewrite Hd. }
  destruct (mach_write_to_4_ok b (512 - LOG_BLOCK_CHECKSUM) crc) as (b' & Hw & Hl & Hb);
    try lia.
  exists crc, b'. split; [reflexivity |].
  assert (Hset : log_block_set_checksum b crc = Ok b') by exact Hw.
  split; [exact Hset | split; [exact Hl | split]].
  - exact Hb.
  - destruct (log_block_set_checksum_crc b b' crc crc Hc Hcrc Hset) as (-> & ->).
    f_equal. subst crc. unfold uint32. apply Z.mod_mod. lia.
Qed.

End LogBits.

(** ** The round trip of a log block *)

Section LogRoundTrip.
Context {lc : LogConsts} {prim : Primitives} {rk : RedoLogKeys}.

Lemma log_data_len_eq (e : Encryption) :
  log_layout_ok = true ->
  log_data_len e
  = 512 - LOG_BLOCK_HDR_SIZE - (if is_KEYRING (m_type e) then LOG_BLOCK_TRL_SIZE else 0).
Proof.
  intros Hok. apply log_layout_ok_true in Hok.
  unfold log_data_len, OS_FILE_LOG_BLOCK_SIZE.
  rewrite (ulint_small (512 - LOG_BLOCK_HDR_SIZE)) by lia.
  destruct (is_KEYRING (m_type e)); apply ulint_small; lia.
Qed.

Lemma decrypt_log_load_key_cipher (d d1 : Encryption) (enc : buffer) :
  decrypt_log_load_key d enc = Ok d1 ->
  m_type d1 = m_type d /\ m_klen d1 = m_klen d /\ m_iv d1 = m_iv d.
Proof.
  unfold decrypt_log_load_key. intros Hrun.
  apply bind_Ok in Hrun. destruct Hrun as (v & _ & Hrun).
  destruct (_ && _).
  - destruct (load_key_version _ _) as [[version key] |]; [| discriminate].
    injection Hrun as <-. repeat split.
  - injection Hrun as <-. repeat split.
Qed.

End LogRoundTrip.

(** ** The bytes that the cryptors leave alone

    [decrypt] and the two log block functions store into the buffers without
    a check of the length; what bounds their stores is the length of what the
    cipher gives. *)




Section Frames.
Context {fc : FilConsts} {prim : Primitives}.






End Frames.

Section LogFrames.
Context {lc : LogConsts} {prim : Primitives} {rk : RedoLogKeys}.






End LogFrames.

(** ** C5: the lengths, and where the cryptors store *)





(** The steps of a run of [decrypt_log_block] on a block that
    [encrypt_log_block] left. *)
Ltac log_block_steps Hinv Hsame Hok Hty :=
  run_inv; try absurd_case; bool_facts;
  try match goal with
  | A : ?x = ?b, B : ?b = ?y |- _ => is_var b; subst b; discriminate
  end;
  repeat match goal with
  | A : ?x = rd2 _ _ |- _ => is_var x; subst x
  end;
  repeat match goal with
  | A : my_aes_encrypt _ _ _ _ _ _ = Some _ |- _ =>
    apply Hinv in A; destruct A as (? & ?)
  end;
  repeat match goal with
  | A : UNIV_DEBUG = true -> _ |- context [ut_ad UNIV_DEBUG ?c] =>
    rewrite (ut_ad_ok UNIV_DEBUG c) by exact A; cbn [bind]
  end;
  repeat match goal with
  | A : ?x = ?y |- _ => is_var x; is_var y; first [subst x | subst y]
  end;
  repeat match goal with
  | A : context [ulint ?z] |- _ => rewrite (ulint_small z) in A by lia
  end;
  cbn [negb]; fwd Hsame; cbn [negb]; fwd Hsame;
  try match goal with
  | |- context [log_block_set_encrypt_bit ?b false] =>
    let b' := fresh "cleared" in
    let Hl := fresh "Hlen" in
    let Hb := fresh "Hbytes" in
    let Hf := fresh "Hfield" in
    destruct (log_block_set_encrypt_bit_ok b false) as (b' & -> & Hl & Hb & Hf);
    [lia | lia |]; cbn [bind]
  end;
  rewrite ?Hty; cbn [is_KEYRING];
  try match goal with
  | |- context [log_block_calc_checksum_crc32 ?b] =>
    let crc := fresh "crc" in
    let b' := fresh "summed" in
    let Hl := fresh "Hlen" in
    let Hb := fresh "Hbytes" in
    let Hc := fresh "Hsum" in
    let H1 := fresh "Hcrc" in
    let H2 := fresh "Hset" in
    destruct (log_block_checksum_ok b Hok) as (crc & b' & H1 & H2 & Hl & Hb & Hc);
    [unfold OS_FILE_LOG_BLOCK_SIZE; lia |];
    rewrite H1; cbn [bind]; rewrite H2; cbn [bind]
  end.

(** [decrypt_log_block] on memory that holds in its first 512 bytes a block
    that [encrypt_log_block] left: the source block is there again, but for
    the encrypted bit and, in [KEYRING] mode, the checksum. *)
Lemma decrypt_log_block_encrypt_log_block {lc : LogConsts} {prim : Primitives}
    {rk : RedoLogKeys}
    (e d d1 : Encryption) (src dst blk enc scratch : buffer)
    (junk : Z -> byte) :
  cbc_inverse -> log_layout_ok = true ->
  encrypt_log_block e src dst junk = Ok (true, blk) ->
  OS_FILE_LOG_BLOCK_SIZE <= blen enc ->
  (forall i, 0 <= i < OS_FILE_LOG_BLOCK_SIZE -> byte_at enc i = byte_at blk i) ->
  log_data_len e <= blen scratch ->
  m_type d = m_type e ->
  (if is_KEYRING (m_type d) then decrypt_log_load_key d enc else Ok d) = Ok d1 ->
  m_key d1 = m_key e -> m_klen d1 = m_klen e -> m_iv d1 = m_iv e ->
  exists out scratch',
    decrypt_log_block d enc scratch = Ok (DB_SUCCESS, (d1, out, scratch'))
    /\ (blen out = blen enc /\ blen scratch' = blen scratch)
    /\ (forall i, 0 <= i ->
          in_range LOG_BLOCK_HDR_DATA_LEN 2 i = false ->
          is_KEYRING (m_type e)
          && in_range (OS_FILE_LOG_BLOCK_SIZE - LOG_BLOCK_CHECKSUM) 4 i = false ->
          byte_at out i
          = if i <? OS_FILE_LOG_BLOCK_SIZE then byte_at src i else byte_at enc i)
    /\ rd2 out LOG_BLOCK_HDR_DATA_LEN
       = Z.land (rd2 src LOG_BLOCK_HDR_DATA_LEN) (Z.lnot LOG_BLOCK_ENCRYPT_BIT_MASK)
    /\ is_encrypted_log out = Ok false
    /\ (is_KEYRING (m_type e) = true ->
        log_block_get_checksum out = log_block_calc_checksum_crc32 out)
    /\ (is_encrypted_log src = Ok false ->
        forall i, LOG_BLOCK_HDR_DATA_LEN <= i < LOG_BLOCK_HDR_DATA_LEN + 2 ->
          byte_at out i = byte_at src i).
Proof.
  intros Hinv Hok Henc Hblen Hsame Hscr Hty Hload Hkey Hklen Hiv.
  pose proof (log_data_len_eq e Hok) as Hdl.
  pose proof (log_layout_ok_true Hok) as (HF0 & HF1 & HT0 & HC & Hfit).
  assert (Hty1 : m_type d1 = m_type e).
  { rewrite <- Hty. destruct (is_KEYRING (m_type d)).
    - now apply decrypt_log_load_key_cipher in Hload.
    - now injection Hload as <-. }
  unfold decrypt_log_block. unfold encrypt_log_block in Henc.
  replace (log_data_len d) with (log_data_len e) by (unfold log_data_len; now rewrite Hty).
  set (n := log_data_len e) in *.
  assert (Hn : 32 <= n <= 512 - LOG_BLOCK_HDR_SIZE)
    by (rewrite Hdl; destruct (is_KEYRING (m_type e)); lia).
  pose proof (block_floor n ltac:(lia)) as Hm.
  remember (n / MY_AES_BLOCK_SIZE * MY_AES_BLOCK_SIZE) as m eqn:Em.
  unfold MY_AES_BLOCK_SIZE, OS_FILE_LOG_BLOCK_SIZE in *.
  rewrite (uint32_small m) in * by lia.
  change (uint32 (16 * 2)) with 32 in *; change (16 * 2) with 32 in *.
  rewrite Hty in Hload |- *. clearbody n.
  assert (Hfield : forall b1 b2 b3 : buffer,
            (forall i, 0 <= i < LOG_BLOCK_HDR_SIZE -> byte_at b1 i = byte_at src i) ->
            rd2 b2 LOG_BLOCK_HDR_DATA_LEN
            = uint16 (Z.lor (rd2 b1 LOG_BLOCK_HDR_DATA_LEN) LOG_BLOCK_ENCRYPT_BIT_MASK) ->
            (forall i, 0 <= i < LOG_BLOCK_HDR_SIZE -> byte_at b3 i = byte_at b2 i) ->
            uint16 (Z.land (rd2 b3 LOG_BLOCK_HDR_DATA_LEN)
                      (uint32 (Z.lnot LOG_BLOCK_ENCRYPT_BIT_MASK)))
            = Z.land (rd2 src LOG_BLOCK_HDR_DATA_LEN) (Z.lnot LOG_BLOCK_ENCRYPT_BIT_MASK)).
  { intros b1 b2 b3 H1 H2 H3.
    rewrite (rd2_same b3 b2) by (intros; apply H3; lia).
    rewrite H2. rewrite (rd2_same b1 src) by (intros; apply H1; lia).
    apply clear_bit_field. apply rd2_range. }
  assert (Hplain : forall out,
            blen src >= LOG_BLOCK_HDR_SIZE ->
            rd2 out LOG_BLOCK_HDR_DATA_LEN
            = Z.land (rd2 src LOG_BLOCK_HDR_DATA_LEN) (Z.lnot LOG_BLOCK_ENCRYPT_BIT_MASK) ->
            is_encrypted_log src = Ok false ->
            forall i, LOG_BLOCK_HDR_DATA_LEN <= i < LOG_BLOCK_HDR_DATA_LEN + 2 ->
              byte_at out i = byte_at src i).
  { intros out Hb Hrd Hbit i Hi. rewrite is_encrypted_log_ok in Hbit by lia.
    injection Hbit as Hbit. apply negb_false_iff, Z.eqb_eq in Hbit.
    apply clear_bit_kept in Hbit. rewrite Hbit in Hrd.
    eapply rd2_bytes; eassumption. }
  destruct (m_type e) eqn:Hte; cbn [is_KEYRING andb] in *.
  - run_inv.
  - (* AES *)
    injection Hload as <-. cbn [bind].
    rewrite Hkey, Hklen, Hiv.
    unfold log_block_set_encrypt_bit in Henc.
    log_block_steps Hinv Hsame Hok Hty.
    all: do 2 eexists; (split; [reflexivity |]); (split; [split; lia |]).
    all: split; [intros i Hi Hf _; bool_facts; destruct (Z.ltb_spec i 512); chase Hsame |].
    all: assert (Hrd : rd2 cleared LOG_BLOCK_HDR_DATA_LEN
                       = Z.land (rd2 src LOG_BLOCK_HDR_DATA_LEN)
                           (Z.lnot LOG_BLOCK_ENCRYPT_BIT_MASK))
           by (rewrite Hfield0; eapply Hfield;
               [ | eapply rd2_stored; [| eassumption]; lia | ];
               intros j Hj; chase Hsame).
    all: split; [exact Hrd | split; [| split; [discriminate | apply Hplain; [lia | exact Hrd]]]].
    all: rewrite is_encrypted_log_ok by lia; rewrite Hrd, cleared_bit_field; reflexivity.
  - (* KEYRING *)
    rewrite Hload. cbn [bind].
    rewrite Hkey, Hklen, Hiv.
    unfold log_block_set_encrypt_bit, log_block_set_checksum,
      log_block_calc_checksum_crc32 in Henc.
    unfold OS_FILE_LOG_BLOCK_SIZE in Henc.
    log_block_steps Hinv Hsame Hok Hty1.
    all: do 2 eexists; (split; [reflexivity |]); (split; [split; lia |]).
    all: split; [intros i Hi Hf Hc; bool_facts; destruct (Z.ltb_spec i 512); chase Hsame |].
    all: assert (Hrd : rd2 summed LOG_BLOCK_HDR_DATA_LEN
                       = Z.land (rd2 src LOG_BLOCK_HDR_DATA_LEN)
                           (Z.lnot LOG_BLOCK_ENCRYPT_BIT_MASK))
           by (rewrite (rd2_same summed cleared) by (intros j Hj; chase Hsame);
               rewrite Hfield0; eapply Hfield;
               [ | eapply rd2_stored; [| eassumption]; lia | ];
               intros j Hj; chase Hsame).
    all: split; [exact Hrd | split; [| split; [intros _; assumption
                                              | apply Hplain; [lia | exact Hrd]]]].
    all: rewrite is_encrypted_log_ok by lia; rewrite Hrd, cleared_bit_field; reflexivity.
Qed.

(** A block that [encrypt_log_block] left has the bits of the mask set in
    the field of its data length. *)
Lemma encrypt_log_block_bit {lc : LogConsts} {prim : Primitives} {rk : RedoLogKeys}
    (e : Encryption) (src dst blk : buffer)
    (junk : Z -> byte) :
  log_layout_ok = true ->
  encrypt_log_block e src dst junk = Ok (true, blk) ->
  is_encrypted_log blk = Ok (negb (LOG_BLOCK_ENCRYPT_BIT_MASK mod 2 ^ 16 =? 0)).
Proof.
  intros Hok Henc.
  pose proof (log_layout_ok_true Hok) as (HF0 & HF1 & HT0 & HC & Hfit).
  assert (Hset : forall b b', log_block_set_encrypt_bit b true = Ok b' ->
            LOG_BLOCK_HDR_DATA_LEN + 2 <= blen b'
            /\ rd2 b' LOG_BLOCK_HDR_DATA_LEN
               = uint16 (Z.lor (rd2 b LOG_BLOCK_HDR_DATA_LEN) LOG_BLOCK_ENCRYPT_BIT_MASK)).
  { intros b b' Hb. unfold log_block_set_encrypt_bit in Hb.
    apply bind_Ok in Hb. destruct Hb as (f & Hf & Hw).
    apply mach_read_from_2_Ok in Hf. destruct Hf as (_ & _ & ->).
    apply mach_write_to_2_Ok in Hw. destruct Hw as (_ & Hw1 & Hw2 & Hw3).
    split; [lia |]. eapply rd2_stored; eassumption. }
  assert (Hsum : forall b b' n, LOG_BLOCK_HDR_DATA_LEN + 2 <= blen b ->
            log_block_set_checksum b n = Ok b' ->
            LOG_BLOCK_HDR_DATA_LEN + 2 <= blen b'
            /\ rd2 b' LOG_BLOCK_HDR_DATA_LEN = rd2 b LOG_BLOCK_HDR_DATA_LEN).
  { intros b b' n Hl Hs. unfold log_block_set_checksum in Hs.
    apply mach_write_to_4_Ok in Hs. destruct Hs as (Hs0 & Hs1 & Hs2 & Hs3).
    split; [lia |]. apply rd2_same. intros i Hi. rewrite Hs3 by lia.
    unfold OS_FILE_LOG_BLOCK_SIZE. rewrite in_range_false by lia. reflexivity. }
  unfold encrypt_log_block in Henc.
  repeat match goal with
  | H : mem_read _ _ _ = Ok _ |- _ => clear H
  | H : mem_write _ _ _ = Ok _ |- _ => clear H
  | H : log_block_calc_checksum_crc32 _ = Ok _ |- _ => clear H
  | H : log_block_set_encrypt_bit _ true = Ok _ |- _ =>
    apply Hset in H; destruct H as [? ?]
  | H : log_block_set_checksum _ _ = Ok _ |- _ =>
    apply Hsum in H; [destruct H as [? ?] | lia]
  | _ => run_step
  end; subst; try discriminate.
  all: rewrite is_encrypted_log_ok by lia.
  all: repeat match goal with H : rd2 _ _ = _ |- _ => rewrite H; clear H end.
  all: rewrite set_bit_field; reflexivity.
Qed.

(** X8.  [decrypt_log_block] undoes [encrypt_log_block]: on the block that
    [encrypt_log_block] left it returns [DB_SUCCESS], and the block that it
    leaves is the source block at every byte outside the field of the data
    length, where the encrypted bit is clear (so the whole block when the bit
    was clear in the source), and in [KEYRING] mode outside the checksum,
    which is the CRC-32 of the block once more.  The decrypting context has
    the key and the initial vector of the encryption, after the key of the
    block's version has been loaded in [KEYRING] mode. *)
Theorem log_block_round_trip {lc : LogConsts} {prim : Primitives} {rk : RedoLogKeys}
    (e d d1 : Encryption) (src dst blk scratch : buffer)
    (junk : Z -> byte) :
  cbc_inverse -> log_layout_ok = true ->
  encrypt_log_block e src dst junk = Ok (true, blk) ->
  OS_FILE_LOG_BLOCK_SIZE <= blen dst ->
  log_data_len e <= blen scratch ->
  m_type d = m_type e ->
  (if is_KEYRING (m_type d) then decrypt_log_load_key d blk else Ok d) = Ok d1 ->
  m_key d1 = m_key e -> m_klen d1 = m_klen e -> m_iv d1 = m_iv e ->
  is_encrypted_log blk
  = Ok (negb (LOG_BLOCK_ENCRYPT_BIT_MASK mod 2 ^ 16 =? 0))
  /\ exists out scratch',
       decrypt_log_block d blk scratch = Ok (DB_SUCCESS, (d1, out, scratch'))
       /\ blen out = blen dst
       /\ (forall i, 0 <= i < OS_FILE_LOG_BLOCK_SIZE ->
             in_range LOG_BLOCK_HDR_DATA_LEN 2 i = false ->
             is_KEYRING (m_type e)
             && in_range (OS_FILE_LOG_BLOCK_SIZE - LOG_BLOCK_CHECKSUM) 4 i = false ->
             byte_at out i = byte_at src i)
       /\ rd2 out LOG_BLOCK_HDR_DATA_LEN
          = Z.land (rd2 src LOG_BLOCK_HDR_DATA_LEN) (Z.lnot LOG_BLOCK_ENCRYPT_BIT_MASK)
       /\ is_encrypted_log out = Ok false
       /\ (is_KEYRING (m_type e) = true ->
           log_block_get_checksum out = log_block_calc_checksum_crc32 out)
       /\ (is_encrypted_log src = Ok false ->
           forall i, LOG_BLOCK_HDR_DATA_LEN <= i < LOG_BLOCK_HDR_DATA_LEN + 2 ->
             byte_at out i = byte_at src i).
Proof.
  intros Hinv Hok Henc Hdst Hscr Hty Hload Hkey Hklen Hiv.
  pose proof (encrypt_log_block_blen _ _ _ _ _ _ Henc) as Hbl.
  split.
  - eapply encrypt_log_block_bit; eassumption.
  - destruct (decrypt_log_block_encrypt_log_block e d d1 src dst blk blk scratch junk)
      as (out & scratch' & Hrun & (Hlen & _) & Hbytes & Hrest); try assumption; try lia.
    + reflexivity.
    + exists out, scratch'. split; [exact Hrun | split; [lia | split; [| exact Hrest]]].
      intros i Hi Hf Hc. rewrite Hbytes by (assumption || lia).
      replace (i <? OS_FILE_LOG_BLOCK_SIZE) with true by (symmetry; apply Z.ltb_lt; lia).
      reflexivity.
Qed.

(** ** Pages that are decrypted, and pages that are not encrypted at all *)

(** X6.  A page that [encrypt_low] wrote and [decrypt] took back is not taken
    as encrypted any more: whatever the context and the request, another
    [decrypt] returns [DB_SUCCESS] and leaves it as it is. *)
Theorem decrypted_page_is_left_alone {fc : FilConsts} {prim : Primitives}
    (type : IORequest) (e : Encryption) (P : buffer) (src_len : Z) (dst : buffer)
    (st : crypt_state) (type1 : IORequest) (d : Encryption) (scratch : option buffer)
    (scratch_len : Z) (page : buffer) (scratch' : option buffer) :
  fil_consts_ok = true ->
  FIL_PAGE_DATA + 4 <= src_len ->
  is_encrypted_page P = Ok false ->
  encrypt_low type e P src_len dst src_len = Ok (true, st) ->
  decrypt type1 d (cs_dst st) src_len scratch scratch_len
  = Ok (DB_SUCCESS, (page, scratch')) ->
  rd2 page FIL_PAGE_TYPE = rd2 P FIL_PAGE_TYPE
  /\ is_encrypted_page page = Ok false
  /\ forall type2 d2 len2 scratch2 scratch_len2,
       decrypt type2 d2 page len2 scratch2 scratch_len2
       = Ok (DB_SUCCESS, (page, scratch2)).
Proof.
  intros Hok Hlen Hplain Henc Hdec.
  destruct (encrypt_low_type_fields _ _ _ _ _ _ _ Hok Hlen Henc) as [Hty Hor].
  pose proof (rd2_range P FIL_PAGE_TYPE) as Hpt.
  assert (Htype : rd2 page FIL_PAGE_TYPE = rd2 P FIL_PAGE_TYPE).
  { eapply decrypt_page_type; try eassumption. }
  pose proof (decrypt_lengths _ _ _ _ _ _ _ _ _ Hdec) as Hbl.
  assert (Hb : 0 <= FIL_PAGE_TYPE /\ FIL_PAGE_TYPE + 2 <= blen (cs_dst st)).
  { unfold decrypt in Hdec. apply bind_Ok in Hdec. destruct Hdec as (enc & Hen & _).
    unfold is_encrypted_page in Hen. apply bind_Ok in Hen.
    destruct Hen as (pt & Hr & _). apply mach_read_from_2_Ok in Hr. lia. }
  assert (Hnot : is_encrypted_page page = Ok false).
  { rewrite is_encrypted_page_ok by lia. rewrite Htype.
    unfold is_encrypted_page in Hplain. apply bind_Ok in Hplain.
    destruct Hplain as (pt & Hr & Hplain). apply mach_read_from_2_Ok in Hr.
    destruct Hr as (_ & _ & ->). exact Hplain. }
  split; [exact Htype | split; [exact Hnot |]].
  intros type2 d2 len2 scratch2 scratch_len2.
  unfold decrypt. rewrite Hnot. reflexivity.
Qed.

(** X7.  The page types that [can_page_be_keyring_encrypted] lets through are
    those for which [decrypt] takes the data length that [encrypt_low] took:
    on a tablespace that is not a zip tablespace the two lengths of a page
    that is not compressed differ exactly for the R-tree page, by the four
    bytes of the trailer, and that type is refused. *)
Theorem keyring_pages_keep_data_len {fc : FilConsts} {kp : KeyringPageTypes}
    (type : IORequest) (e d : Encryption) (page_type len : Z) :
  fil_consts_ok = true ->
  m_type e = KEYRING -> m_type d = KEYRING ->
  is_page_zip_compressed type = false ->
  page_type <> FIL_PAGE_COMPRESSED ->
  MIN_ENCRYPTION_LEN + 4 <= len < 2 ^ 32 ->
  let enc_len := encrypt_data_len type e page_type len in
  let dec_len := decrypt_data_len type d (encrypted_type page_type) len FIL_PAGE_DATA in
  enc_len = len - FIL_PAGE_DATA - 4
  /\ dec_len = (if page_type =? FIL_PAGE_RTREE then enc_len + 4 else enc_len)
  /\ (can_page_be_keyring_encrypted page_type = true -> dec_len = enc_len).
Proof.
  intros Hok He Hd Hzip Hc Hlen enc_len dec_len.
  destruct (encrypted_type_tests page_type Hok) as (Ec & Er & Ee).
  apply Z.eqb_neq in Hc.
  assert (Henc : enc_len = len - FIL_PAGE_DATA - 4).
  { subst enc_len. rewrite encrypt_data_len_range; try assumption; try lia.
    rewrite He, Hzip. reflexivity. }
  assert (Hdec : dec_len = if page_type =? FIL_PAGE_RTREE then enc_len + 4 else enc_len).
  { rewrite Henc. subst dec_len. unfold decrypt_data_len.
    rewrite Ec, Ee, Hd, Hzip, Hc. cbn [is_KEYRING andb negb].
    unfold MIN_ENCRYPTION_LEN, MY_AES_BLOCK_SIZE, FIL_PAGE_DATA in *.
    rewrite (ulint_small (len - 38)) by lia.
    destruct (page_type =? FIL_PAGE_RTREE); cbn [negb andb]; [lia |].
    apply ulint_small. lia. }
  split; [exact Henc | split; [exact Hdec |]].
  intros Hcan. rewrite Hdec. unfold can_page_be_keyring_encrypted in Hcan.
  destruct (page_type =? FIL_PAGE_RTREE); [| reflexivity].
  rewrite orb_true_r in Hcan. discriminate.
Qed.

(** ** The encryption information: what is filled in is what is decoded *)

Section InfoRoundTrip.
Context {K : Type} {ks : KeyringService K} {ic : InfoConsts} {il : InfoLayout}
  {prim : Primitives}.

Lemma info_layout_ok_true :
  info_layout_ok = true ->
  3 <= blen KEY_MAGIC_V1 /\ 3 <= blen KEY_MAGIC_V2 /\ 3 <= blen KEY_MAGIC_V3
  /\ sub KEY_MAGIC_V3 0 3 <> sub KEY_MAGIC_V1 0 3
  /\ sub KEY_MAGIC_V3 0 3 <> sub KEY_MAGIC_V2 0 3
  /\ 111 <= INFO_SIZE.
Proof.
  unfold info_layout_ok, MAGIC_SIZE, SERVER_UUID_LEN, KEY_LEN. intros H.
  repeat (apply andb_prop in H; destruct H as [H ?]).
  bool_facts.
  repeat split; try lia.
  - intros E. apply buffer_eqb_eq in E. congruence.
  - intros E. apply buffer_eqb_eq in E. congruence.
Qed.

(** The 64 bytes that [fill_info] puts together. *)
Lemma key_info_eq (key iv k v ki1 ki : buffer) :
  mem_read key 0 KEY_LEN = Ok k ->
  mem_write (repeat x00 (Z.to_nat (KEY_LEN * 2))) 0 k = Ok ki1 ->
  mem_read iv 0 KEY_LEN = Ok v ->
  mem_write ki1 KEY_LEN v = Ok ki ->
  ki = sub key 0 KEY_LEN ++ sub iv 0 KEY_LEN
  /\ KEY_LEN <= blen key /\ KEY_LEN <= blen iv.
Proof.
  unfold KEY_LEN. intros Hk Hw1 Hv Hw2.
  pose proof (mem_read_eq _ _ _ _ Hk) as Ek. pose proof (mem_read_eq _ _ _ _ Hv) as Ev.
  run_inv. split; [| lia].
  assert (Hz : blen (repeat x00 (Z.to_nat (32 * 2))) = 64) by (rewrite blen_repeat; lia).
  apply buffer_ext.
  - rewrite blen_app, !blen_sub by lia. lia.
  - intros i Hi. rewrite byte_at_app by lia. rewrite blen_sub by lia.
    rewrite <- Ek, <- Ev.
    destruct (Z.ltb_spec i 32); bytes; try reflexivity; f_equal; lia.
Qed.

(** What a run of [fill_info] that returns [true] leaves in the
    information. *)
Lemma fill_info_bytes (s : server K) (ready : bool) (key iv info0 : buffer)
    (master_key : option buffer) (id : Z) (ek : bool) (info : buffer) :
  fill_info s ready key iv info0 master_key id ek = Ok (true, info) ->
  let key_info := sub key 0 KEY_LEN ++ sub iv 0 KEY_LEN in
  blen info = blen info0 /\ INFO_SIZE <= blen info0
  /\ KEY_LEN <= blen key /\ KEY_LEN <= blen iv
  /\ SERVER_UUID_LEN + 1 <= blen (s_uuid s)
  /\ (UNIV_DEBUG = true -> ready = true -> cstring (s_uuid s) <> [])
  /\ exists wrapped,
       (if ek
        then my_aes_encrypt key_info master_key (uint32 KEY_LEN) my_aes_256_ecb None false
             = Some wrapped
        else wrapped = key_info)
       /\ 43 + blen wrapped <= blen info0
       /\ forall i, 0 <= i ->
            byte_at info i =
              if in_range 107 4 i
              then byte_at (enc4 (uint32 (ut_crc32 key_info))) (i - 107)
              else if in_range 43 (blen wrapped) i then byte_at wrapped (i - 43)
              else if in_range 7 37 i then byte_at (s_uuid s) (i - 7)
              else if in_range 3 4 i then byte_at (enc4 id) (i - 3)
              else if in_range 0 3 i then byte_at KEY_MAGIC_V3 i
              else if in_range 0 INFO_SIZE i then x00
              else byte_at info0 i.
Proof.
  unfold fill_info. intros Hrun. cbv zeta.
  apply bind_Ok in Hrun. destruct Hrun as (i1 & Hset & Hrun).
  apply bind_Ok in Hrun. destruct Hrun as (magic & Hmg & Hrun).
  apply bind_Ok in Hrun. destruct Hrun as (i2 & Hw2 & Hrun).
  apply bind_Ok in Hrun. destruct Hrun as (i3 & Hw3 & Hrun).
  apply bind_Ok in Hrun. destruct Hrun as (u & Hu & Hrun).
  apply bind_Ok in Hrun. destruct Hrun as (i4 & Hw4 & Hrun).
  apply bind_Ok in Hrun. destruct Hrun as (t & Hdbg & Hrun).
  apply bind_Ok in Hrun. destruct Hrun as (k & Hk & Hrun).
  apply bind_Ok in Hrun. destruct Hrun as (ki1 & Hki1 & Hrun).
  apply bind_Ok in Hrun. destruct Hrun as (v & Hv & Hrun).
  apply bind_Ok in Hrun. destruct Hrun as (ki & Hki & Hrun).
  destruct (key_info_eq _ _ _ _ _ _ Hk Hki1 Hv Hki) as (-> & Hkey & Hiv).
  clear Hk Hki1 Hv Hki.
  pose proof (ut_ad_Ok _ _ _ Hdbg) as Hd. clear Hdbg.
  unfold MAGIC_SIZE, SERVER_UUID_LEN, KEY_LEN in *.
  change (0 + 3 + 4 + (36 + 1) - 1) with 43 in Hrun.
  change (0 + 3 + 4) with 7 in Hw4. change (0 + 3) with 3 in Hw3.
  change (43 + 32 * 2) with 107 in Hrun.
  apply bind_Ok in Hrun. destruct Hrun as (r & Hr & Hrun).
  destruct r as [i5 |]; [| discriminate].
  apply bind_Ok in Hrun. destruct Hrun as (i6 & Hw6 & Hrun).
  apply bind_Ok in Hrun. destruct Hrun as (t2 & _ & Hrun).
  injection Hrun as <-.
  assert (Hwr : exists wrapped,
            (if ek
             then my_aes_encrypt (sub key 0 32 ++ sub iv 0 32) master_key (uint32 32)
                    my_aes_256_ecb None false = Some wrapped
             else wrapped = sub key 0 32 ++ sub iv 0 32)
            /\ mem_write i4 43 wrapped = Ok i5).
  { destruct ek.
    - destruct (my_aes_encrypt _ _ _ _ _ _) as [out |] eqn:E; [| discriminate].
      apply bind_Ok in Hr. destruct Hr as (i5' & Hw5 & Hr). injection Hr as <-.
      exists out. split; [reflexivity | assumption].
    - apply bind_Ok in Hr. destruct Hr as (i5' & Hw5 & Hr). injection Hr as <-.
      eexists. split; [reflexivity | assumption]. }
  destruct Hwr as (wrapped & Hwrapped & Hw5). clear Hr.
  run_inv.
  repeat split; try lia.
  - intros Hdb Hready E. specialize (Hd Hdb). rewrite Hready, E in Hd. discriminate.
  - exists wrapped. split; [assumption | split; [lia |]].
    intros i Hi. bytes; try reflexivity; try (f_equal; lia); try lia.
Qed.

Lemma sub_app_left (a b : buffer) : sub (a ++ b) 0 (blen a) = a.
Proof.
  unfold sub, blen. cbn [Z.to_nat skipn]. rewrite Nat2Z.id.
  rewrite firstn_app, firstn_all, Nat.sub_diag. cbn. apply app_nil_r.
Qed.

Lemma sub_app_right (a b : buffer) : sub (a ++ b) (blen a) (blen b) = b.
Proof.
  unfold sub, blen. rewrite !Nat2Z.id.
  rewrite skipn_app, skipn_all, Nat.sub_diag. cbn. apply firstn_all.
Qed.

Lemma mem_write_blit (b : buffer) (off : Z) (d : buffer) :
  0 <= off -> off + blen d <= blen b -> mem_write b off d = Ok (blit b off d).
Proof.
  intros Ho Hb. pose proof (blen_nonneg d). unfold mem_write.
  now rewrite (proj2 (in_bounds_true b off (blen d))) by lia.
Qed.

Lemma blen_uninitialised (junk : Z -> byte) (n : Z) :
  0 <= n -> blen (uninitialised junk n) = n.
Proof.
  intros Hn. unfold blen, uninitialised. rewrite length_map, length_seq. lia.
Qed.

Lemma blit_all (z d : buffer) : blen z = blen d -> blit z 0 d = d.
Proof.
  intros H. apply buffer_ext.
  - rewrite blen_blit; lia.
  - intros i Hi. rewrite blen_blit in Hi by lia.
    rewrite byte_at_blit by lia.
    replace ((0 <=? i) && (i <? 0 + blen d)) with true
      by (symmetry; apply andb_true_iff; split; [apply Z.leb_le | apply Z.ltb_lt]; lia).
    f_equal. lia.
Qed.

Lemma info_version_3 (info : buffer) :
  info_layout_ok = true ->
  3 <= blen info ->
  (forall i, 0 <= i < 3 -> byte_at info i = byte_at KEY_MAGIC_V3 i) ->
  info_version info = Ok (Some VERSION_3).
Proof.
  intros Hok Hlen Hb.
  destruct (info_layout_ok_true Hok) as (H1 & H2 & H3 & N1 & N2 & _).
  assert (E : sub info 0 3 = sub KEY_MAGIC_V3 0 3).
  { apply buffer_ext.
    - rewrite !blen_sub by lia. reflexivity.
    - intros i Hi. rewrite blen_sub in Hi by lia.
      rewrite !byte_at_sub by lia. apply Hb. lia. }
  unfold info_version, memcmp_eq, MAGIC_SIZE.
  rewrite !mem_read_sub by lia. cbn [bind]. rewrite E.
  destruct (buffer_eqb (sub KEY_MAGIC_V3 0 3) (sub KEY_MAGIC_V1 0 3)) eqn:E1.
  { apply buffer_eqb_eq in E1. contradiction. }
  destruct (buffer_eqb (sub KEY_MAGIC_V3 0 3) (sub KEY_MAGIC_V2 0 3)) eqn:E2.
  { apply buffer_eqb_eq in E2. contradiction. }
  rewrite (proj2 (buffer_eqb_eq _ _) eq_refl). reflexivity.
Qed.

(** The decoder on an information that holds the wrapped bytes of
    [key_info] at offset 43 and their checksum behind them. *)
Lemma decode_filled_info (s : server K) (key iv key0 iv0 info wrapped : buffer)
    (ek : bool) (junk : Z -> byte) :
  let key_info := sub key 0 KEY_LEN ++ sub iv 0 KEY_LEN in
  info_layout_ok = true ->
  111 <= blen info ->
  KEY_LEN <= blen key -> KEY_LEN <= blen iv ->
  KEY_LEN <= blen key0 -> KEY_LEN <= blen iv0 ->
  blen wrapped = 64 ->
  (forall i, 0 <= i < 3 -> byte_at info i = byte_at KEY_MAGIC_V3 i) ->
  (forall i, 0 <= i < 64 -> byte_at info (43 + i) = byte_at wrapped i) ->
  rd4 info 107 = uint32 (ut_crc32 key_info) ->
  (if ek
   then exists mki,
          get_master_key_from_info s info MAGIC_SIZE VERSION_3
            (uninitialised junk (SERVER_UUID_LEN + 1)) = Ok mki
          /\ mki_ptr mki = 43
          /\ is_null (mki_master_key mki) = false
          /\ mki_key_id mki <= s_master_key_id s
          /\ my_aes_decrypt wrapped (mki_master_key mki) (uint32 KEY_LEN)
               my_aes_256_ecb None false = Some key_info
   else wrapped = key_info) ->
  decode_encryption_info s key0 iv0 info ek junk
  = Ok (mkDecodeResult true (blit key0 0 (sub key 0 KEY_LEN))
          (blit iv0 0 (sub iv 0 KEY_LEN)) s).
Proof.
  intros key_info Hok Hlen Hkey Hiv Hkey0 Hiv0 Hwl Hmagic Hwrapped Hcrc Hmk.
  unfold decode_encryption_info.
  rewrite (info_version_3 info Hok) by (assumption || lia). cbn [bind].
  assert (Hkl : blen key_info = 64).
  { unfold key_info. unfold KEY_LEN in *. rewrite blen_app, !blen_sub by lia. lia. }
  assert (Hsub : sub info 43 64 = wrapped).
  { apply buffer_ext.
    - rewrite blen_sub by lia. lia.
    - intros i Hi. rewrite blen_sub in Hi by lia. rewrite byte_at_sub by lia.
      apply Hwrapped. lia. }
  assert (Hz64 : blen (uninitialised (fun i => junk (SERVER_UUID_LEN + 1 + i))
                         (KEY_LEN * 2)) = 64)
    by (rewrite blen_uninitialised; unfold KEY_LEN; lia).
  assert (Hki : exists id uuid,
            decode_key_info s info VERSION_3 ek junk
            = Ok (Some (107, id, uuid, key_info))
            /\ (ek = true -> id <= s_master_key_id s)).
  { unfold decode_key_info. destruct ek.
    - destruct Hmk as (mki & -> & Hptr & Hnull & Hid & Hdec). cbn [bind].
      rewrite Hnull, Hptr. unfold KEY_LEN in *.
      change (uint32 (32 * 2)) with 64.
      rewrite mem_read_sub by lia. cbn [bind]. rewrite Hsub, Hdec.
      rewrite mem_write_blit by lia. cbn [bind].
      rewrite blit_all by lia.
      do 2 eexists. split; [reflexivity | intros _; exact Hid].
    - subst wrapped. unfold ut_ad, ut_a. unfold MAGIC_SIZE, SERVER_UUID_LEN, KEY_LEN in *.
      change (3 + 4 + 36) with 43. change (32 * 2) with 64.
      rewrite mem_read_sub by lia. rewrite Hsub.
      destruct UNIV_DEBUG; cbn [bind];
        (do 2 eexists; split; [reflexivity | discriminate]). }
  destruct Hki as (id & uuid & -> & Hid). cbn [bind].
  rewrite mach_read_from_4_ok by lia. cbn [bind].
  rewrite Hcrc, Z.eqb_refl. cbn [negb].
  assert (Hk1 : sub key_info 0 KEY_LEN = sub key 0 KEY_LEN).
  { unfold key_info.
    replace KEY_LEN with (blen (sub key 0 KEY_LEN)) at 3
      by (apply blen_sub; unfold KEY_LEN in *; lia).
    apply sub_app_left. }
  assert (Hk2 : sub key_info KEY_LEN KEY_LEN = sub iv 0 KEY_LEN).
  { unfold key_info.
    replace KEY_LEN with (blen (sub key 0 KEY_LEN)) at 3
      by (apply blen_sub; unfold KEY_LEN in *; lia).
    replace KEY_LEN with (blen (sub iv 0 KEY_LEN)) at 4
      by (apply blen_sub; unfold KEY_LEN in *; lia).
    apply sub_app_right. }
  assert (Hs1 : blen (sub key 0 KEY_LEN) = 32) by (apply blen_sub; unfold KEY_LEN in *; lia).
  assert (Hs2 : blen (sub iv 0 KEY_LEN) = 32) by (apply blen_sub; unfold KEY_LEN in *; lia).
  rewrite !mem_read_sub by (unfold KEY_LEN in *; lia). cbn [bind].
  rewrite Hk1. rewrite mem_write_blit by (unfold KEY_LEN in *; lia). cbn [bind].
  rewrite Hk2. rewrite mem_write_blit by (unfold KEY_LEN in *; lia). cbn [bind].
  destruct ek; cbn [andb]; [| reflexivity].
  replace (s_master_key_id s <? id) with false
    by (symmetry; apply Z.ltb_ge; auto).
  reflexivity.
Qed.

(** A C string is empty exactly when its first character is the NUL. *)
Lemma cstring_empty (b : buffer) : cstring b = [] <-> b = [] \/ byte_at b 0 = x00.
Proof.
  destruct b as [| c r]; cbn.
  - split; auto.
  - unfold byte_at. cbn. destruct (Byte.eqb c x00) eqn:E.
    + apply Byte.byte_dec_bl in E. subst c. split; auto.
    + split; [discriminate |]. intros [H | H]; [discriminate |].
      subst c. discriminate.
Qed.

Lemma uuid_terminated_true (u : buffer) :
  uuid_terminated u = true <-> blen u = 37 /\ byte_at u 36 = x00.
Proof.
  unfold uuid_terminated, SERVER_UUID_LEN. rewrite andb_true_iff, Z.eqb_eq.
  split; intros [H1 H2]; split; try assumption.
  - now apply Byte.byte_dec_bl.
  - now apply Byte.byte_dec_lb.
Qed.

(** The uuid that the decoder reads from an information is the uuid that
    was written there. *)
Lemma read_srv_uuid_ok (info u srv_uuid : buffer) :
  43 <= blen info ->
  blen srv_uuid = 37 ->
  uuid_terminated u = true ->
  (forall i, 0 <= i < 36 -> byte_at info (7 + i) = byte_at u i) ->
  read_srv_uuid info 7 srv_uuid = Ok u.
Proof.
  intros Hlen Hz Hu Hb. apply uuid_terminated_true in Hu. destruct Hu as [Hul Hu36].
  unfold read_srv_uuid, SERVER_UUID_LEN.
  destruct (memset_ok srv_uuid 0 x00 (36 + 1))
    as (z & -> & Hzl & Hzb); try lia. cbn [bind].
  rewrite mem_read_sub by lia. cbn [bind].
  assert (Hs : blen (sub info 7 36) = 36) by (apply blen_sub; lia).
  rewrite mem_write_blit by lia. f_equal.
  apply buffer_ext.
  - rewrite blen_blit by lia. lia.
  - intros i Hi. rewrite blen_blit in Hi by lia.
    rewrite byte_at_blit by lia. rewrite Hs.
    destruct (Z.ltb_spec i 36).
    + replace ((0 <=? i) && (i <? 0 + 36)) with true
        by (symmetry; apply andb_true_iff; split; [apply Z.leb_le | apply Z.ltb_lt]; lia).
      rewrite byte_at_sub by lia. replace (i - 0) with i by lia. apply Hb. lia.
    + replace ((0 <=? i) && (i <? 0 + 36)) with false
        by (symmetry; apply andb_false_iff; right; apply Z.ltb_ge; lia).
      rewrite Hzb by lia. rewrite in_range_true by lia.
      replace i with 36 by lia. symmetry. exact Hu36.
Qed.

(** The master key of an information that names a key of the keyring. *)
Lemma get_master_key_from_info_keyring (s : server K) (info : buffer) (id : Z)
    (mk srv_uuid : buffer) :
  43 <= blen info ->
  blen srv_uuid = 37 ->
  uuid_terminated (s_uuid s) = true ->
  (forall i, 0 <= i < 36 -> byte_at info (7 + i) = byte_at (s_uuid s) i) ->
  rd4 info 3 = id -> id <> 0 ->
  (UNIV_DEBUG = true -> cstring (s_uuid s) <> []) ->
  my_key_fetch (keyring s) (master_key_by_uuid (cstring (s_uuid s)) id) = (0, Some mk) ->
  get_master_key_from_info s info MAGIC_SIZE VERSION_3 srv_uuid
  = Ok (mkMasterKeyInfo 43 id (s_uuid s) (Some mk)).
Proof.
  intros Hlen Hz Hu Hb Hid Hne Hdbg Hfetch.
  unfold get_master_key_from_info, MAGIC_SIZE.
  rewrite mach_read_from_4_ok by lia. cbn [bind]. rewrite Hid.
  change (3 + 4) with 7.
  rewrite (read_srv_uuid_ok info (s_uuid s) srv_uuid) by assumption. cbn [bind].
  apply Z.eqb_neq in Hne. rewrite Hne.
  rewrite ut_ad_ok.
  2:{ intros Hd. specialize (Hdbg Hd). apply negb_true_iff, Nat.eqb_neq.
      destruct (cstring (s_uuid s)); [contradiction | discriminate]. }
  cbn [bind]. unfold get_master_key_by_id.
  rewrite ut_ad_ok.
  2:{ intros Hd. specialize (Hdbg Hd). apply negb_true_iff, Nat.eqb_neq.
      destruct (cstring (s_uuid s)); [contradiction | discriminate]. }
  cbn [bind]. unfold get_keyring_key. rewrite Hfetch. cbn. reflexivity.
Qed.

(** The master key of an information that was written for bootstrap. *)
Lemma get_master_key_from_info_default (s : server K) (info srv_uuid : buffer) :
  43 <= blen info ->
  blen srv_uuid = 37 ->
  rd4 info 3 = 0 ->
  blen DEFAULT_MASTER_KEY + 1 <= KEY_LEN ->
  exists uuid,
    get_master_key_from_info s info MAGIC_SIZE VERSION_3 srv_uuid
    = Ok (mkMasterKeyInfo 43 0 uuid
            (Some (blit (repeat x00 (Z.to_nat KEY_LEN)) 0 (DEFAULT_MASTER_KEY ++ [x00]))))
.
Proof.
  intros Hlen Hz Hid Hd.
  unfold get_master_key_from_info, MAGIC_SIZE.
  rewrite mach_read_from_4_ok by lia. cbn [bind]. rewrite Hid.
  change (3 + 4) with 7. unfold read_srv_uuid, SERVER_UUID_LEN, KEY_LEN in *.
  assert (Hz32 : blen (repeat x00 (Z.to_nat 32)) = 32) by (rewrite blen_repeat; lia).
  destruct (memset_ok srv_uuid 0 x00 (36 + 1))
    as (z & -> & Hzl & Hzb); try lia. cbn [bind].
  rewrite mem_read_sub by lia. cbn [bind].
  assert (Hs : blen (sub info 7 36) = 36) by (apply blen_sub; lia).
  rewrite mem_write_blit by lia. cbn [bind]. rewrite Z.eqb_refl.
  pose proof (blen_nonneg DEFAULT_MASTER_KEY) as Hd0.
  rewrite mem_write_blit by lia. cbn [bind].
  eexists. do 3 f_equal.
  assert (Hda : blen (DEFAULT_MASTER_KEY ++ [x00]) = blen DEFAULT_MASTER_KEY + 1)
    by (rewrite blen_app; reflexivity).
  apply buffer_ext.
  - rewrite !blen_blit by lia. reflexivity.
  - intros i Hi. rewrite blen_blit in Hi by lia.
    rewrite !byte_at_blit by lia. rewrite Hda.
    destruct (Z.ltb_spec i (blen DEFAULT_MASTER_KEY)).
    + replace ((0 <=? i) && (i <? 0 + blen DEFAULT_MASTER_KEY)) with true
        by (symmetry; apply andb_true_iff; split; [apply Z.leb_le | apply Z.ltb_lt]; lia).
      replace ((0 <=? i) && (i <? 0 + (blen DEFAULT_MASTER_KEY + 1))) with true
        by (symmetry; apply andb_true_iff; split; [apply Z.leb_le | apply Z.ltb_lt]; lia).
      rewrite byte_at_app by lia.
      replace (i - 0 <? blen DEFAULT_MASTER_KEY) with true
        by (symmetry; apply Z.ltb_lt; lia).
      reflexivity.
    + replace ((0 <=? i) && (i <? 0 + blen DEFAULT_MASTER_KEY)) with false
        by (symmetry; apply andb_false_iff; right; apply Z.ltb_ge; lia).
      rewrite byte_at_repeat by lia.
      destruct (Z.ltb_spec i (0 + (blen DEFAULT_MASTER_KEY + 1))).
      * replace (0 <=? i) with true by (symmetry; apply Z.leb_le; lia). cbn [andb].
        rewrite byte_at_app by lia.
        replace (i - 0 <? blen DEFAULT_MASTER_KEY) with false
          by (symmetry; apply Z.ltb_ge; lia).
        replace (i - 0 - blen DEFAULT_MASTER_KEY) with 0 by lia. reflexivity.
      * rewrite andb_false_r. reflexivity.
Qed.

(** The two ways in which [get_master_key] gives a key: the first master
    key is generated, or the current one is fetched, under the uuid of the
    server or, failing that, under the server id. *)
Lemma get_master_key_Some (s : server K) (id0 id : Z) (mk : buffer) (s' : server K) :
  get_master_key s id0 = Ok (id, Some mk, s') ->
  uuid_terminated (s_uuid s) = true ->
  cstring (server_uuid s) <> [] ->
  (s_master_key_id s = 0 /\ id = 1 /\ s_master_key_id s' = 1
   /\ uuid_terminated (s_uuid s') = true /\ cstring (s_uuid s') <> []
   /\ my_key_fetch (keyring s') (master_key_by_uuid (cstring (s_uuid s')) 1) = (0, Some mk))
  \/ (s_master_key_id s <> 0 /\ id = s_master_key_id s /\ s' = s
      /\ (my_key_fetch (keyring s) (master_key_by_uuid (cstring (s_uuid s)) id) = (0, Some mk)
          \/ (let r := my_key_fetch (keyring s)
                         (master_key_by_uuid (cstring (s_uuid s)) id) in
               negb (fst r =? 0) || is_null (snd r) = true)
              /\ my_key_fetch (keyring s) (master_key_by_server_id (server_id s) id)
                 = (0, Some mk))).
Proof.
  unfold get_master_key, DEFAULT_MASTER_KEY_ID. intros Hrun Hu Hsrv.
  apply uuid_terminated_true in Hu. destruct Hu as [Hul Hu36].
  destruct (s_master_key_id s =? 0) eqn:Hid.
  - left. apply Z.eqb_eq in Hid.
    apply bind_Ok in Hrun. destruct Hrun as (u1 & Hset & Hrun).
    apply bind_Ok in Hrun. destruct Hrun as (u2 & Hcp & Hrun).
    unfold copy_uuid in Hcp.
    apply bind_Ok in Hcp. destruct Hcp as (u & Hrd & Hwr).
    unfold SERVER_UUID_LEN in *.
    assert (Hu2 : uuid_terminated u2 = true /\ byte_at u2 0 = byte_at (server_uuid s) 0).
    { clear Hrun. run_inv. split.
      - apply uuid_terminated_true. split; [lia |]. bytes. reflexivity.
      - bytes. reflexivity. }
    destruct Hu2 as [Hterm H0].
    assert (Hne : cstring u2 <> []).
    { intros E. apply cstring_empty in E. apply Hsrv. apply cstring_empty.
      apply uuid_terminated_true in Hterm.
      destruct E as [E | E]; [subst u2; cbn in Hterm; lia |].
      right. congruence. }
    cbn [s_uuid set_s_uuid keyring set_keyring s_master_key_id set_master_key_id] in Hrun.
    destruct (my_key_generate (keyring s) _) as [g k] eqn:Hgen.
    cbn [s_uuid set_s_uuid keyring set_keyring s_master_key_id set_master_key_id] in Hrun.
    destruct (my_key_fetch k _) as [ret key] eqn:Hfetch.
    destruct (ret =? 0) eqn:Hret; cbn [negb andb] in Hrun.
    + destruct key as [key |]; cbn [is_null negb] in Hrun.
      * injection Hrun as <- <- <-. cbn. rewrite Hid. cbn.
        apply Z.eqb_eq in Hret. subst ret.
        repeat split; assumption.
      * discriminate.
    + discriminate.
  - right. apply Z.eqb_neq in Hid.
    destruct (my_key_fetch (keyring s) (master_key_by_uuid _ _)) as [ret key] eqn:Hf1.
    cbn [fst snd].
    destruct (negb (ret =? 0) || is_null key) eqn:Hfail.
    + destruct (my_key_fetch (keyring s) (master_key_by_server_id _ _)) as [ret2 key2] eqn:Hf2.
      destruct (ret2 =? 0) eqn:Hret2; cbn [negb] in Hrun; [| discriminate].
      injection Hrun as <- -> <-. apply Z.eqb_eq in Hret2. subst ret2.
      repeat split; try assumption. right.
      split; [cbv zeta; rewrite Hf1; exact Hfail | exact Hf2].
    + apply orb_false_elim in Hfail. destruct Hfail as [Hret Hnull].
      apply negb_false_iff in Hret. rewrite Hret in Hrun. cbn [negb] in Hrun.
      injection Hrun as <- Hrun <-. apply Z.eqb_eq in Hret. subst ret.
      repeat split; try assumption. left.
      destruct key as [key |]; [| discriminate Hnull].
      injection Hrun as ->. exact Hf1.
Qed.

End InfoRoundTrip.

(** X12.  [decode_encryption_info] takes back what [fill_encryption_info]
    wrote: the key and the initial vector, whether they were stored as they
    are (for clone), under the default master key (for bootstrap) or under the
    master key of the keyring, and the process-wide state stays as
    [fill_encryption_info] left it.  The current master key must be in the
    keyring under the uuid of the server: a key that is found only under the
    server id is left out. *)
Theorem encryption_info_round_trip {K : Type} {ks : KeyringService K}
    {ic : InfoConsts} {il : InfoLayout} {prim : Primitives}
    (s : server K) (srv_is_uuid_ready used : bool) (key iv encrypt_info : buffer)
    (is_boot encrypt_key : bool) (r : fill_result K) (key0 iv0 : buffer)
    (junk : Z -> byte) :
  ecb_inverse -> info_layout_ok = true ->
  KEY_LEN <= blen key0 -> KEY_LEN <= blen iv0 ->
  0 <= s_master_key_id s < 2 ^ 32 ->
  uuid_terminated (s_uuid s) = true ->
  (s_master_key_id s <> 0 ->
   (let f := my_key_fetch (keyring s)
               (master_key_by_uuid (cstring (s_uuid s)) (s_master_key_id s)) in
    negb (fst f =? 0) || is_null (snd f) = false)
   /\ (UNIV_DEBUG = true -> cstring (s_uuid s) <> [])) ->
  fill_encryption_info s srv_is_uuid_ready used key iv encrypt_info is_boot encrypt_key
  = Ok r ->
  fr_ok r = true ->
  decode_encryption_info (fr_server r) key0 iv0 (fr_info r) encrypt_key junk
  = Ok (mkDecodeResult true (blit key0 0 (sub key 0 KEY_LEN))
          (blit iv0 0 (sub iv 0 KEY_LEN)) (fr_server r)).
Proof.
  intros Hecb Hok Hkey0 Hiv0 Hid Hterm Hring Hfill Hres.
  pose proof (info_layout_ok_true Hok) as (_ & _ & _ & _ & _ & Hsize).
  assert (Hjunk : blen (uninitialised junk (SERVER_UUID_LEN + 1)) = 37)
    by (apply blen_uninitialised; unfold SERVER_UUID_LEN; lia).
  unfold fill_encryption_info in Hfill.
  assert (Hcore : forall s' mk id info,
            fill_info s' srv_is_uuid_ready key iv encrypt_info mk id encrypt_key
            = Ok (true, info) ->
            0 <= id < 2 ^ 32 ->
            (encrypt_key = true ->
             exists mki,
               get_master_key_from_info s' info MAGIC_SIZE VERSION_3
                 (uninitialised junk (SERVER_UUID_LEN + 1)) = Ok mki
               /\ mki_ptr mki = 43 /\ mki_master_key mki = mk /\ is_null mk = false
               /\ mki_key_id mki <= s_master_key_id s') ->
            decode_encryption_info s' key0 iv0 info encrypt_key junk
            = Ok (mkDecodeResult true (blit key0 0 (sub key 0 KEY_LEN))
                    (blit iv0 0 (sub iv 0 KEY_LEN)) s')).
  { intros s' mk id info Hinfo Hidr Hmk.
    destruct (fill_info_bytes _ _ _ _ _ _ _ _ _ Hinfo)
      as (Hbl & Hroom & Hkey & Hiv & Hu & _ & wrapped & Hwr & Hwl & Hbytes).
    assert (Hkl : blen (sub key 0 KEY_LEN ++ sub iv 0 KEY_LEN) = 64).
    { unfold KEY_LEN in *. rewrite blen_app, !blen_sub by lia. lia. }
    assert (Hw64 : blen wrapped = 64).
    { destruct encrypt_key; [| congruence].
      apply Hecb in Hwr. destruct Hwr as [Hl _]. lia. }
    apply (decode_filled_info s' key iv key0 iv0 info wrapped encrypt_key junk);
      try assumption; try lia.
    - intros i Hi. rewrite Hbytes by lia. rewrite Hw64. range_cases. reflexivity.
    - intros i Hi. rewrite Hbytes by lia. rewrite Hw64. range_cases. f_equal. lia.
    - rewrite <- (uint32_small (uint32 _)) by apply uint32_range.
      rewrite <- rd4_enc4. apply rd4_ext. intros j Hj.
      rewrite Hbytes by lia. range_cases. f_equal. lia.
    - destruct encrypt_key; [| assumption].
      destruct (Hmk eq_refl) as (mki & Hg & Hptr & Hkeq & Hnull & Hle).
      exists mki. repeat split; try assumption.
      + rewrite Hkeq. exact Hnull.
      + rewrite Hkeq. apply Hecb in Hwr. apply Hwr. }
  destruct encrypt_key.
  - apply bind_Ok in Hfill. destruct Hfill as ([[[mk id] s'] used'] & Hmk & Hfill).
    destruct mk as [mk |]; cbn [is_null] in Hfill;
      [| injection Hfill as <-; discriminate Hres].
    apply bind_Ok in Hfill. destruct Hfill as ([ok info] & Hinfo & Hfill).
    injection Hfill as <-. cbn [fr_ok fr_info fr_server] in *. subst ok.
    destruct (fill_info_bytes _ _ _ _ _ _ _ _ _ Hinfo)
      as (Hbl & Hroom & Hkey & Hiv & Hu & _ & wrapped & Hwr & Hwl & Hbytes).
    assert (Hw64 : blen wrapped = 64).
    { apply Hecb in Hwr. destruct Hwr as [Hl _].
      unfold KEY_LEN in *. rewrite blen_app, !blen_sub in Hl by lia. lia. }
    assert (Hrd : 0 <= id < 2 ^ 32 -> rd4 info 3 = id).
    { intros Hr. rewrite <- (uint32_small id) by assumption.
      rewrite <- rd4_enc4. apply rd4_ext. intros j Hj.
      rewrite Hbytes by lia. rewrite Hw64. range_cases. f_equal. lia. }
    assert (Huuid : forall i, 0 <= i < 36 -> byte_at info (7 + i) = byte_at (s_uuid s') i).
    { intros i Hi. rewrite Hbytes by lia. rewrite Hw64. range_cases. f_equal. lia. }
    unfold fill_master_key in Hmk.
    destruct (is_boot || (length (cstring (server_uuid s)) =? 0)%nat) eqn:Hboot.
    + (* the default master key *)
      apply bind_Ok in Hmk. destruct Hmk as (u & _ & Hmk).
      apply bind_Ok in Hmk. destruct Hmk as (m & Hm & Hmk).
      injection Hmk as <- <- <- <-.
      pose proof (mem_write_eq _ _ _ _ Hm) as ->.
      apply mem_write_Ok in Hm. destruct Hm as (_ & Hm & _).
      rewrite blen_app, blen_repeat in Hm. change (blen [x00]) with 1 in Hm.
      apply (Hcore s _ DEFAULT_MASTER_KEY_ID info Hinfo).
      * unfold DEFAULT_MASTER_KEY_ID. lia.
      * intros _.
        destruct (get_master_key_from_info_default s info
                    (uninitialised junk (SERVER_UUID_LEN + 1))) as (uuid & Hg).
        -- lia.
        -- exact Hjunk.
        -- apply Hrd. unfold DEFAULT_MASTER_KEY_ID. lia.
        -- unfold KEY_LEN in *. lia.
        -- eexists. split; [exact Hg |]. cbn. repeat split. lia.
    + (* the master key of the keyring *)
      apply orb_false_elim in Hboot. destruct Hboot as [_ Hsrv].
      apply Nat.eqb_neq in Hsrv.
      assert (Hsrv' : cstring (server_uuid s) <> []).
      { intros E. rewrite E in Hsrv. apply Hsrv. reflexivity. }
      apply bind_Ok in Hmk. destruct Hmk as ([[id' mk'] s''] & Hget & Hmk).
      injection Hmk as -> <- -> <-.
      destruct (get_master_key_Some _ _ _ _ _ Hget Hterm Hsrv')
        as [(Hs0 & -> & Hs1 & Hterm' & Hne & Hfetch)
           | (Hsn & -> & -> & Hfetch)].
      * apply (Hcore s' _ 1 info Hinfo); [lia |]. intros _.
        eexists. split.
        -- apply get_master_key_from_info_keyring; try eassumption; try lia;
             first [apply Hrd; lia | intros _; exact Hne].
        -- cbn. repeat split. lia.
      * destruct (Hring Hsn) as [Hfound Hdbg].
        destruct Hfetch as [Hfetch | [Hfail _]]; [| cbv zeta in Hfound; congruence].
        apply (Hcore s _ (s_master_key_id s) info Hinfo); [lia |]. intros _.
        eexists. split.
        -- apply get_master_key_from_info_keyring; try eassumption; try lia;
             first [apply Hrd; lia | idtac].
        -- cbn. repeat split. lia.
  - apply bind_Ok in Hfill. destruct Hfill as ([ok info] & Hinfo & Hfill).
    injection Hfill as <-. cbn [fr_ok fr_info fr_server] in *. subst ok.
    apply (Hcore s None DEFAULT_MASTER_KEY_ID info Hinfo).
    + unfold DEFAULT_MASTER_KEY_ID. lia.
    + discriminate.
Qed.

(** ** Runs of log blocks *)

Lemma byte_at_advance (b : buffer) (off i : Z) :
  0 <= off -> 0 <= i -> byte_at (advance b off) i = byte_at b (off + i).
Proof.
  intros Ho Hi. unfold byte_at, advance. rewrite nth_skipn. f_equal. lia.
Qed.

Lemma blen_advance (b : buffer) (off : Z) :
  0 <= off <= blen b -> blen (advance b off) = blen b - off.
Proof.
  unfold blen, advance. intros H. rewrite length_skipn. lia.
Qed.

Lemma blen_store_behind (b : buffer) (off : Z) (v : buffer) :
  0 <= off <= blen b -> blen (store_behind b off v) = off + blen v.
Proof.
  unfold store_behind. intros H. rewrite blen_app.
  unfold blen in *. rewrite length_firstn. lia.
Qed.

Lemma byte_at_store_behind (b : buffer) (off : Z) (v : buffer) (i : Z) :
  0 <= off <= blen b -> 0 <= i ->
  byte_at (store_behind b off v) i = if i <? off then byte_at b i else byte_at v (i - off).
Proof.
  intros Ho Hi. unfold store_behind.
  assert (Hf : blen (firstn (Z.to_nat off) b) = off).
  { unfold blen in *. rewrite length_firstn. lia. }
  rewrite byte_at_app by lia. rewrite Hf.
  destruct (Z.ltb_spec i off); [| reflexivity].
  unfold byte_at. rewrite nth_firstn.
  destruct (Nat.ltb_spec (Z.to_nat i) (Z.to_nat off)); [reflexivity | lia].
Qed.

Lemma advance_ext (a b : buffer) (off : Z) :
  0 <= off <= blen a -> blen a = blen b ->
  (forall i, off <= i < blen a -> byte_at a i = byte_at b i) ->
  advance a off = advance b off.
Proof.
  intros Ho Hl H. apply buffer_ext.
  - rewrite !blen_advance by lia. lia.
  - intros i Hi. rewrite blen_advance in Hi by lia.
    rewrite !byte_at_advance by lia. apply H. lia.
Qed.

Lemma ulint_ge (z : Z) : z < 2 ^ 64 -> z <= ulint z.
Proof.
  intros H. destruct (Z_lt_ge_dec z 0).
  - pose proof (ulint_range z). lia.
  - rewrite ulint_small by lia. lia.
Qed.

Section LogRuns.
Context {lc : LogConsts} {prim : Primitives} {rk : RedoLogKeys}.

(** What the array of [encrypt_log_block] that is not initialised holds when
    the block at an offset is encrypted. *)
Context (junk : Z -> Z -> byte).

(** With fuel for every block the loops come to an end. *)
Lemma encrypt_log_blocks_ends (e : Encryption) (src : buffer) (k : Z) :
  forall (n : nat) (fuel : nat) (j : Z) (dst : buffer),
    0 <= j <= k -> k - j = Z.of_nat n -> (n <= fuel)%nat ->
    encrypt_log_blocks fuel e src (OS_FILE_LOG_BLOCK_SIZE * k)
      (OS_FILE_LOG_BLOCK_SIZE * j) dst junk <> None.
Proof.
  unfold OS_FILE_LOG_BLOCK_SIZE.
  induction n as [| n IH]; intros fuel j dst Hj Hn Hf.
  - replace j with k by lia.
    destruct fuel; cbn [encrypt_log_blocks]; rewrite Z.eqb_refl; discriminate.
  - destruct fuel as [| fuel]; [lia |]. cbn [encrypt_log_blocks].
    replace (512 * j =? 512 * k) with false by (symmetry; apply Z.eqb_neq; lia).
    destruct (encrypt_log_block e _ _ _) as [[[] blk] | f]; try discriminate.
    replace (512 * j + OS_FILE_LOG_BLOCK_SIZE) with (512 * (j + 1))
      by (unfold OS_FILE_LOG_BLOCK_SIZE; lia).
    apply IH; lia.
Qed.

Lemma decrypt_log_blocks_ends (k : Z) :
  forall (n : nat) (fuel : nat) (j : Z) (e : Encryption) (src dst : buffer),
    0 <= j <= k -> k - j = Z.of_nat n -> (n <= fuel)%nat ->
    decrypt_log_blocks fuel e src (OS_FILE_LOG_BLOCK_SIZE * k)
      (OS_FILE_LOG_BLOCK_SIZE * j) dst <> None.
Proof.
  unfold OS_FILE_LOG_BLOCK_SIZE.
  induction n as [| n IH]; intros fuel j e src dst Hj Hn Hf.
  - replace j with k by lia.
    destruct fuel; cbn [decrypt_log_blocks]; rewrite Z.eqb_refl; discriminate.
  - destruct fuel as [| fuel]; [lia |]. cbn [decrypt_log_blocks].
    replace (512 * j =? 512 * k) with false by (symmetry; apply Z.eqb_neq; lia).
    replace (512 * j + OS_FILE_LOG_BLOCK_SIZE) with (512 * (j + 1))
      by (unfold OS_FILE_LOG_BLOCK_SIZE; lia).
    destruct (is_encrypted_log _) as [[] | f]; try discriminate.
    + destruct (decrypt_log_block e _ _) as [[[] [[e' blk] dst']] | f]; try discriminate.
      apply IH; lia.
    + apply IH; lia.
Qed.

(** What the loop of [encrypt_log] leaves when every block was encrypted:
    block by block what [encrypt_log_block] left, and below the first block
    of the loop what was there. *)
Lemma encrypt_log_blocks_Ok (e : Encryption) (src : buffer) (k : Z) :
  forall (fuel : nat) (j0 : Z) (dst enc : buffer),
    0 <= j0 <= k -> 512 * j0 <= blen dst ->
    encrypt_log_blocks fuel e src (OS_FILE_LOG_BLOCK_SIZE * k)
      (OS_FILE_LOG_BLOCK_SIZE * j0) dst junk = Some (Ok (true, enc)) ->
    blen enc = blen dst
    /\ (forall i, 0 <= i < 512 * j0 -> byte_at enc i = byte_at dst i)
    /\ forall j, j0 <= j < k ->
         512 * (j + 1) <= blen dst
         /\ exists dj blk,
              encrypt_log_block e (advance src (512 * j)) dj (junk (512 * j)) = Ok (true, blk)
              /\ forall i, 0 <= i < 512 -> byte_at enc (512 * j + i) = byte_at blk i.
Proof.
  unfold OS_FILE_LOG_BLOCK_SIZE.
  induction fuel as [| fuel IH]; intros j0 dst enc Hj Hlen Hrun;
    cbn [encrypt_log_blocks] in Hrun;
    destruct (Z.eqb_spec (512 * j0) (512 * k)) as [Heq | Hne].
  - injection Hrun as <-. repeat split; intros; lia.
  - discriminate.
  - injection Hrun as <-. repeat split; intros; lia.
  - destruct (encrypt_log_block e (advance src (512 * j0)) (advance dst (512 * j0))
                (junk (512 * j0)))
      as [[[] blk] | f] eqn:Hblk; try discriminate.
    pose proof (encrypt_log_block_blen _ _ _ _ _ _ Hblk) as Hbl.
    assert (H512 : 512 <= blen blk).
    { unfold encrypt_log_block in Hblk.
      repeat match goal with
      | H : log_block_set_encrypt_bit _ _ = Ok _ |- _ =>
        apply log_block_set_encrypt_bit_blen in H
      | H : log_block_set_checksum _ _ = Ok _ |- _ =>
        apply log_block_set_checksum_blen in H
      | H : log_block_calc_checksum_crc32 _ = Ok _ |- _ => clear H
      | _ => run_step
      end; subst; try discriminate; bool_facts.
      all: unfold OS_FILE_LOG_BLOCK_SIZE in *.
      all: match goal with
           | H : context [ulint (ulint ?a - blen ?b)] |- _ =>
             pose proof (blen_nonneg b);
             pose proof (ulint_range a);
             pose proof (ulint_ge a ltac:(lia));
             pose proof (ulint_ge (ulint a - blen b) ltac:(lia))
           end; lia. }
    rewrite blen_advance in Hbl by lia.
    replace (512 * j0 + OS_FILE_LOG_BLOCK_SIZE) with (512 * (j0 + 1)) in Hrun
      by (unfold OS_FILE_LOG_BLOCK_SIZE; lia).
    assert (Hsl : blen (store_behind dst (512 * j0) blk) = blen dst)
      by (rewrite blen_store_behind by lia; lia).
    apply IH in Hrun; [| lia | lia].
    destruct Hrun as (Hbe & Hframe & Hblocks).
    split; [lia | split].
    + intros i Hi. rewrite Hframe by lia.
      rewrite byte_at_store_behind by lia.
      replace (i <? 512 * j0) with true by (symmetry; apply Z.ltb_lt; lia).
      reflexivity.
    + intros j Hjr. destruct (Z.eq_dec j j0) as [-> | Hjn].
      * split; [lia |]. exists (advance dst (512 * j0)), blk.
        split; [exact Hblk |]. intros i Hi.
        rewrite Hframe by lia. rewrite byte_at_store_behind by lia.
        replace (512 * j0 + i <? 512 * j0) with false by (symmetry; apply Z.ltb_ge; lia).
        f_equal. lia.
      * destruct (Hblocks j ltac:(lia)) as (Hb & dj & blk' & Hr & Hby).
        split; [lia |]. exists dj, blk'. split; assumption.
Qed.

(** Whether a block is taken as encrypted depends on its first 512 bytes
    only. *)
Lemma is_encrypted_log_ext (a b : buffer) (r : bool) :
  log_layout_ok = true ->
  512 <= blen a ->
  (forall i, 0 <= i < 512 -> byte_at a i = byte_at b i) ->
  is_encrypted_log b = Ok r -> is_encrypted_log a = Ok r.
Proof.
  intros Hok Hlen Hsame Hb.
  pose proof (log_layout_ok_true Hok) as (HF0 & HF1 & HT0 & HC & Hfit).
  assert (Hbl : LOG_BLOCK_HDR_DATA_LEN + 2 <= blen b).
  { unfold is_encrypted_log, log_block_get_encrypt_bit in Hb.
    apply bind_Ok in Hb. destruct Hb as (f & Hf & _).
    apply mach_read_from_2_Ok in Hf. lia. }
  rewrite is_encrypted_log_ok in Hb by lia.
  rewrite is_encrypted_log_ok by lia.
  rewrite (rd2_same a b) by (intros; apply Hsame; lia). exact Hb.
Qed.

(** The loop of [decrypt_log] on blocks that [encrypt_log_block] left:
    every block from the one at [512 * j0] on comes back. *)
Lemma decrypt_log_blocks_undo (e d : Encryption) (src ENC : buffer) (k : Z) :
  cbc_inverse -> log_layout_ok = true ->
  LOG_BLOCK_ENCRYPT_BIT_MASK mod 2 ^ 16 <> 0 ->
  m_type d = m_type e -> m_key d = m_key e -> m_klen d = m_klen e -> m_iv d = m_iv e ->
  512 * k <= blen ENC ->
  (forall j, 0 <= j < k ->
     exists dj blk,
       encrypt_log_block e (advance src (512 * j)) dj (junk (512 * j)) = Ok (true, blk)
       /\ forall i, 0 <= i < 512 -> byte_at ENC (512 * j + i) = byte_at blk i) ->
  (is_KEYRING (m_type d) = true ->
   forall j, 0 <= j < k -> decrypt_log_load_key d (advance ENC (512 * j)) = Ok d) ->
  forall (n : nat) (fuel : nat) (j0 : Z) (cur scratch : buffer),
    0 <= j0 <= k -> k - j0 = Z.of_nat n -> (n <= fuel)%nat ->
    log_data_len e <= blen scratch ->
    blen cur = blen ENC ->
    (forall i, 512 * j0 <= i -> byte_at cur i = byte_at ENC i) ->
    exists out scratch',
      decrypt_log_blocks fuel d cur (OS_FILE_LOG_BLOCK_SIZE * k)
        (OS_FILE_LOG_BLOCK_SIZE * j0) scratch
      = Some (Ok (DB_SUCCESS, (d, out, scratch')))
      /\ blen out = blen ENC
      /\ (forall i, 0 <= i < 512 * j0 -> byte_at out i = byte_at cur i)
      /\ (forall i, 512 * k <= i -> byte_at out i = byte_at ENC i)
      /\ (forall j i, j0 <= j < k -> 0 <= i < 512 ->
            in_range LOG_BLOCK_HDR_DATA_LEN 2 i = false ->
            is_KEYRING (m_type e) && in_range (512 - LOG_BLOCK_CHECKSUM) 4 i = false ->
            byte_at out (512 * j + i) = byte_at src (512 * j + i))
      /\ (forall j, j0 <= j < k -> is_encrypted_log (advance out (512 * j)) = Ok false).
Proof.
  intros Hinv Hok Hmask Hty Hkey Hklen Hiv Hlen Hblocks Hload.
  pose proof (log_layout_ok_true Hok) as (HF0 & HF1 & HT0 & HC & Hfit).
  unfold OS_FILE_LOG_BLOCK_SIZE.
  induction n as [| n IH]; intros fuel j0 cur scratch Hj Hn Hfuel Hscr Hbl Hcur.
  - replace j0 with k in * by lia.
    exists cur, scratch.
    destruct fuel; cbn [decrypt_log_blocks]; rewrite Z.eqb_refl;
      (split; [reflexivity |]); (split; [assumption |]);
      (split; [intros; reflexivity |]); (split; [exact Hcur |]);
      split; intros; lia.
  - destruct fuel as [| fuel]; [lia |]. cbn [decrypt_log_blocks].
    replace (512 * j0 =? 512 * k) with false by (symmetry; apply Z.eqb_neq; lia).
    replace (512 * j0 + OS_FILE_LOG_BLOCK_SIZE) with (512 * (j0 + 1))
      by (unfold OS_FILE_LOG_BLOCK_SIZE; lia).
    destruct (Hblocks j0 ltac:(lia)) as (dj & blk & Hblk & Hsame).
    assert (HV : advance cur (512 * j0) = advance ENC (512 * j0)).
    { apply advance_ext; try lia. intros i Hi. apply Hcur. lia. }
    rewrite HV.
    set (V := advance ENC (512 * j0)) in *.
    assert (HVl : blen V = blen ENC - 512 * j0) by (apply blen_advance; lia).
    assert (HVb : forall i, 0 <= i < 512 -> byte_at V i = byte_at blk i).
    { intros i Hi. unfold V. rewrite byte_at_advance by lia. apply Hsame. lia. }
    pose proof (encrypt_log_block_bit _ _ _ _ _ Hok Hblk) as Hbit.
    replace (LOG_BLOCK_ENCRYPT_BIT_MASK mod 2 ^ 16 =? 0) with false in Hbit
      by (symmetry; apply Z.eqb_neq; assumption).
    cbn [negb] in Hbit.
    rewrite (is_encrypted_log_ext V blk true Hok) by (assumption || lia).
    destruct (decrypt_log_block_encrypt_log_block e d d (advance src (512 * j0)) dj blk V
                scratch (junk (512 * j0))) as (out1 & scratch1 & Hrun & (Hl1 & Hs1) & Hb1 & _ & Hbit1 & _);
      try assumption.
    { unfold OS_FILE_LOG_BLOCK_SIZE. lia. }
    { destruct (is_KEYRING (m_type d)) eqn:Hk; [| reflexivity].
      apply Hload; [reflexivity | lia]. }
    rewrite Hrun.
    set (cur1 := store_behind cur (512 * j0) out1).
    assert (Hc1l : blen cur1 = blen ENC).
    { unfold cur1. rewrite blen_store_behind by lia. lia. }
    assert (Hc1b : forall i, 0 <= i -> byte_at cur1 i
                     = if i <? 512 * j0 then byte_at cur i else byte_at out1 (i - 512 * j0)).
    { intros i Hi. unfold cur1. apply byte_at_store_behind; lia. }
    assert (Hhigh : forall i, 512 <= i -> byte_at out1 i = byte_at V i).
    { intros i Hi. rewrite Hb1; try lia.
      - unfold OS_FILE_LOG_BLOCK_SIZE.
        replace (i <? 512) with false by (symmetry; apply Z.ltb_ge; lia). reflexivity.
      - apply in_range_false. lia.
      - unfold OS_FILE_LOG_BLOCK_SIZE. rewrite in_range_false by lia. apply andb_false_r. }
    destruct (IH fuel (j0 + 1) cur1 scratch1) as (out & scratch' & Hloop & Hol & Hlow & Hup & Hdata & Hbits);
      try lia.
    { intros i Hi. rewrite Hc1b by lia.
      replace (i <? 512 * j0) with false by (symmetry; apply Z.ltb_ge; lia).
      rewrite Hhigh by lia. unfold V. rewrite byte_at_advance by lia.
      f_equal. lia. }
    exists out, scratch'. split; [exact Hloop | split; [exact Hol |]].
    assert (Hblock : forall i, 0 <= i < 512 -> byte_at out (512 * j0 + i) = byte_at out1 i).
    { intros i Hi. rewrite Hlow by lia. rewrite Hc1b by lia.
      replace (512 * j0 + i <? 512 * j0) with false by (symmetry; apply Z.ltb_ge; lia).
      f_equal. lia. }
    split; [| split; [exact Hup | split]].
    + intros i Hi. rewrite Hlow by lia. rewrite Hc1b by lia.
      replace (i <? 512 * j0) with true by (symmetry; apply Z.ltb_lt; lia). reflexivity.
    + intros j i Hjr Hi Hf Hc. destruct (Z.eq_dec j j0) as [-> | Hjn].
      * rewrite Hblock by lia. rewrite Hb1 by (assumption || lia).
        unfold OS_FILE_LOG_BLOCK_SIZE.
        replace (i <? 512) with true by (symmetry; apply Z.ltb_lt; lia).
        apply byte_at_advance; lia.
      * apply Hdata; try assumption; lia.
    + intros j Hjr. destruct (Z.eq_dec j j0) as [-> | Hjn].
      * apply (is_encrypted_log_ext _ out1 false Hok).
        -- rewrite blen_advance by lia. lia.
        -- intros i Hi. rewrite byte_at_advance by lia. apply Hblock. lia.
        -- exact Hbit1.
      * apply Hbits. lia.
Qed.

End LogRuns.

(** X9.  [decrypt_log] undoes [encrypt_log]: for a run of [k] blocks that
    [encrypt_log] encrypted, with fuel for [k] blocks it returns [DB_SUCCESS],
    every block is the source block at every byte outside the field of its
    data length and, in [KEYRING] mode, its checksum, and no block is taken as
    encrypted any more.  [encrypt_log] has left [*dst_len] as it was.  In
    [KEYRING] mode the blocks are to carry the key version of the decrypting
    context, so that no other key is loaded. *)
Theorem log_round_trip {lc : LogConsts} {prim : Primitives} {rk : RedoLogKeys}
    (e d : Encryption) (src dst enc scratch : buffer) (k : Z) (fuel fuel' : nat)
    (is_log : bool) (dst_len dst_len' scratch_len : Z) (junk : Z -> Z -> byte) :
  cbc_inverse -> log_layout_ok = true ->
  LOG_BLOCK_ENCRYPT_BIT_MASK mod 2 ^ 16 <> 0 ->
  0 <= k ->
  encrypt_log fuel is_log e src (OS_FILE_LOG_BLOCK_SIZE * k) dst dst_len junk
  = Some (Ok (returned_dst, enc, dst_len')) ->
  m_type d = m_type e -> m_key d = m_key e -> m_klen d = m_klen e -> m_iv d = m_iv e ->
  (is_KEYRING (m_type d) = true ->
   forall j, 0 <= j < k ->
     decrypt_log_load_key d (advance enc (OS_FILE_LOG_BLOCK_SIZE * j)) = Ok d) ->
  log_data_len e <= blen scratch ->
  (Z.to_nat k <= fuel')%nat ->
  exists out scratch',
    decrypt_log fuel' is_log d enc (OS_FILE_LOG_BLOCK_SIZE * k) (Some scratch) scratch_len
    = Some (Ok (DB_SUCCESS, (d, out, Some scratch')))
    /\ dst_len' = dst_len
    /\ blen out = blen dst
    /\ (forall j i, 0 <= j < k -> 0 <= i < OS_FILE_LOG_BLOCK_SIZE ->
          in_range LOG_BLOCK_HDR_DATA_LEN 2 i = false ->
          is_KEYRING (m_type e)
          && in_range (OS_FILE_LOG_BLOCK_SIZE - LOG_BLOCK_CHECKSUM) 4 i = false ->
          byte_at out (OS_FILE_LOG_BLOCK_SIZE * j + i)
          = byte_at src (OS_FILE_LOG_BLOCK_SIZE * j + i))
    /\ (forall j, 0 <= j < k ->
          is_encrypted_log (advance out (OS_FILE_LOG_BLOCK_SIZE * j)) = Ok false).
Proof.
  intros Hinv Hok Hmask Hk Henc Hty Hkey Hklen Hiv Hload Hscr Hfuel.
  unfold encrypt_log in Henc.
  destruct (ut_ad UNIV_DEBUG is_log) as [[] | f] eqn:Hlog; cbn [bind] in Henc;
    [| injection Henc as Henc; discriminate].
  destruct (bind _ _) as [u | f]; [| injection Henc as Henc; discriminate].
  destruct (encrypt_log_blocks fuel e src (OS_FILE_LOG_BLOCK_SIZE * k) 0 dst junk)
    as [[[[] enc'] | f] |] eqn:Hloop; try discriminate.
  injection Henc as -> ->.
  pose proof (blen_nonneg dst) as Hdst0.
  apply (encrypt_log_blocks_Ok junk e src k fuel 0 dst enc) in Hloop; [| lia | lia].
  destruct Hloop as (Hbl & _ & Hblocks).
  assert (Hlen : 512 * k <= blen enc).
  { destruct (Z.eq_dec k 0) as [-> | Hne]; [pose proof (blen_nonneg enc); lia |].
    destruct (Hblocks (k - 1) ltac:(lia)) as [Hb _]. lia. }
  destruct (decrypt_log_blocks_undo junk e d src enc k Hinv Hok Hmask Hty Hkey Hklen Hiv Hlen)
    with (n := Z.to_nat k) (fuel := fuel') (j0 := 0) (cur := enc) (scratch := scratch)
    as (out & scratch' & Hrun & Hol & _ & _ & Hdata & Hbits); try lia; try reflexivity.
  - intros j Hj. destruct (Hblocks j Hj) as (_ & dj & blk & H1 & H2). eauto.
  - exact Hload.
  - exists out, scratch'. unfold decrypt_log. rewrite Hlog.
    change (OS_FILE_LOG_BLOCK_SIZE * 0) with 0 in Hrun. rewrite Hrun.
    split; [reflexivity | split; [reflexivity | split; [lia | split]]].
    + intros j i Hj Hi. apply Hdata; assumption.
    + intros j Hj. apply Hbits. lia.
Qed.

(** X10.  [decrypt_log] passes over the blocks that do not carry the encrypted
    bit: on a run of [k] such blocks it returns [DB_SUCCESS] with fuel for [k]
    blocks and leaves the blocks, the context and the scratch area as they
    were, in every mode. *)
Theorem decrypt_log_skips_plain_blocks {lc : LogConsts} {prim : Primitives}
    {rk : RedoLogKeys}
    (e : Encryption) (src : buffer) (k : Z) (dst : option buffer) (dst_len : Z)
    (is_log : bool) (fuel : nat) :
  0 <= k ->
  (UNIV_DEBUG = true -> is_log = true) ->
  (forall j, 0 <= j < k ->
     is_encrypted_log (advance src (OS_FILE_LOG_BLOCK_SIZE * j)) = Ok false) ->
  (Z.to_nat k <= fuel)%nat ->
  decrypt_log fuel is_log e src (OS_FILE_LOG_BLOCK_SIZE * k) dst dst_len
  = Some (Ok (DB_SUCCESS, (e, src, dst))).
Proof.
  intros Hk Hlog Hplain Hfuel. unfold decrypt_log.
  rewrite ut_ad_ok by exact Hlog.
  assert (Hloop : forall (n : nat) (fuel : nat) (j0 : Z) (scratch : buffer),
            0 <= j0 <= k -> k - j0 = Z.of_nat n -> (n <= fuel)%nat ->
            decrypt_log_blocks fuel e src (OS_FILE_LOG_BLOCK_SIZE * k)
              (OS_FILE_LOG_BLOCK_SIZE * j0) scratch
            = Some (Ok (DB_SUCCESS, (e, src, scratch)))).
  { clear fuel Hfuel. unfold OS_FILE_LOG_BLOCK_SIZE in *.
    induction n as [| n IH]; intros fuel j0 scratch Hj Hn Hf.
    - replace j0 with k by lia.
      destruct fuel; cbn [decrypt_log_blocks]; rewrite Z.eqb_refl; reflexivity.
    - destruct fuel as [| fuel]; [lia |]. cbn [decrypt_log_blocks].
      replace (512 * j0 =? 512 * k) with false by (symmetry; apply Z.eqb_neq; lia).
      rewrite Hplain by lia.
      replace (512 * j0 + OS_FILE_LOG_BLOCK_SIZE) with (512 * (j0 + 1))
        by (unfold OS_FILE_LOG_BLOCK_SIZE; lia).
      apply IH; lia. }
  rewrite (Hloop (Z.to_nat k) fuel 0) by lia.
  destruct dst; reflexivity.
Qed.

(** X11.  [encrypt_log] comes to an end on a run of [k] blocks with fuel for
    [k] blocks.  When it returns the destination it has left [*dst_len] as it
    was, and every block of the destination carries the bits of the mask of
    the encrypted bit; when a block could not be encrypted it returns the
    source and has stored [src_len] in [*dst_len]. *)
Theorem encrypt_log_returns {lc : LogConsts} {prim : Primitives}
    (e : Encryption) (src dst : buffer) (k : Z) (fuel : nat) (is_log : bool)
    (dst_len : Z) (junk : Z -> Z -> byte) :
  log_layout_ok = true ->
  0 <= k -> (Z.to_nat k <= fuel)%nat ->
  encrypt_log fuel is_log e src (OS_FILE_LOG_BLOCK_SIZE * k) dst dst_len junk <> None
  /\ forall ptr dst' dst_len',
       encrypt_log fuel is_log e src (OS_FILE_LOG_BLOCK_SIZE * k) dst dst_len junk
       = Some (Ok (ptr, dst', dst_len')) ->
       (UNIV_DEBUG = true -> is_log = true /\ m_type e <> NONE)
       /\ match ptr with
          | returned_dst =>
            dst_len' = dst_len /\ blen dst' = blen dst
            /\ forall j, 0 <= j < k ->
                 is_encrypted_log (advance dst' (OS_FILE_LOG_BLOCK_SIZE * j))
                 = Ok (negb (LOG_BLOCK_ENCRYPT_BIT_MASK mod 2 ^ 16 =? 0))
          | returned_src => dst_len' = OS_FILE_LOG_BLOCK_SIZE * k
          end.
Proof.
  intros Hok Hk Hfuel. split.
  - unfold encrypt_log.
    destruct (bind _ _) as [u | f]; [| discriminate].
    pose proof (encrypt_log_blocks_ends junk e src k (Z.to_nat k) fuel 0 dst
                  ltac:(lia) ltac:(lia) Hfuel) as Hend.
    change (OS_FILE_LOG_BLOCK_SIZE * 0) with 0 in Hend.
    destruct (encrypt_log_blocks fuel e src (OS_FILE_LOG_BLOCK_SIZE * k) 0 dst junk)
      as [[[[] enc] | f] |]; try discriminate. contradiction.
  - intros ptr dst' dst_len' Hrun. unfold encrypt_log in Hrun.
    destruct (ut_ad UNIV_DEBUG is_log) as [[] | f] eqn:Hlog; cbn [bind] in Hrun;
      [| injection Hrun as Hrun; discriminate].
    destruct (ut_ad UNIV_DEBUG (_ mod _ =? 0)) as [[] | f] eqn:Hmod; cbn [bind] in Hrun;
      [| injection Hrun as Hrun; discriminate].
    destruct (ut_ad UNIV_DEBUG (negb (is_NONE (m_type e)))) as [[] | f] eqn:Hnone;
      cbn [bind] in Hrun; [| injection Hrun as Hrun; discriminate].
    split.
    { intros Hd. apply ut_ad_Ok in Hlog, Hnone; try assumption. split; [assumption |].
      intros E. rewrite E in Hnone. discriminate. }
    destruct (encrypt_log_blocks fuel e src (OS_FILE_LOG_BLOCK_SIZE * k) 0 dst junk)
      as [[[[] enc] | f] |] eqn:Hloop; try discriminate.
    + injection Hrun as <- <- <-.
      pose proof (blen_nonneg dst) as Hdst0.
      apply (encrypt_log_blocks_Ok junk e src k fuel 0 dst enc) in Hloop; [| lia | lia].
      destruct Hloop as (Hbl & _ & Hblocks).
      split; [reflexivity | split; [exact Hbl |]].
      intros j Hj. destruct (Hblocks j Hj) as (Hb & dj & blk & Hblk & Hsame).
      unfold OS_FILE_LOG_BLOCK_SIZE.
      apply (is_encrypted_log_ext _ blk _ Hok).
      * rewrite blen_advance by lia. lia.
      * intros i Hi. rewrite byte_at_advance by lia. apply Hsame. lia.
      * eapply encrypt_log_block_bit; eassumption.
    + injection Hrun as <- _ <-. reflexivity.
Qed.

(** X13.  An information that [fill_encryption_info] wrote under a master key
    that the keyring holds only under the server id, the name of 5.7.11, is
    not decoded:  [get_master_key] falls back to that name, the information
    carries the uuid of the server, and [decode_encryption_info] asks for the
    key under the uuid only, so it returns [false] and leaves the key, the
    initial vector and the process-wide state as they were. *)
Theorem info_under_server_id_key_is_not_decoded {K : Type} {ks : KeyringService K}
    {ic : InfoConsts} {il : InfoLayout} {prim : Primitives}
    (s : server K) (srv_is_uuid_ready used : bool) (key iv encrypt_info : buffer)
    (r : fill_result K) (key0 iv0 : buffer) (junk : Z -> byte) :
  info_layout_ok = true ->
  0 < s_master_key_id s < 2 ^ 32 ->
  uuid_terminated (s_uuid s) = true ->
  cstring (server_uuid s) <> [] ->
  (UNIV_DEBUG = true -> cstring (s_uuid s) <> []) ->
  (let f := my_key_fetch (keyring s)
              (master_key_by_uuid (cstring (s_uuid s)) (s_master_key_id s)) in
   negb (fst f =? 0) || is_null (snd f) = true) ->
  fill_encryption_info s srv_is_uuid_ready used key iv encrypt_info false true = Ok r ->
  fr_ok r = true ->
  fr_server r = s
  /\ (exists mk,
        my_key_fetch (keyring s)
          (master_key_by_server_id (server_id s) (s_master_key_id s)) = (0, Some mk))
  /\ decode_encryption_info s key0 iv0 (fr_info r) true junk
     = Ok (mkDecodeResult false key0 iv0 s).
Proof.
  intros Hok Hid Hterm Hsrv Hdbg Hfail Hfill Hres.
  pose proof (info_layout_ok_true Hok) as (_ & _ & _ & _ & _ & Hsize).
  unfold fill_encryption_info in Hfill.
  apply bind_Ok in Hfill. destruct Hfill as ([[[mk id] s'] used'] & Hmk & Hfill).
  destruct mk as [mk |]; cbn [is_null] in Hfill;
    [| injection Hfill as <-; discriminate Hres].
  apply bind_Ok in Hfill. destruct Hfill as ([ok info] & Hinfo & Hfill).
  injection Hfill as <-. cbn [fr_ok fr_info fr_server] in *. subst ok.
  unfold fill_master_key in Hmk.
  assert (Hboot : (length (cstring (server_uuid s)) =? 0)%nat = false).
  { apply Nat.eqb_neq. destruct (cstring (server_uuid s)); [contradiction | discriminate]. }
  rewrite Hboot in Hmk. cbn [orb] in Hmk.
  apply bind_Ok in Hmk. destruct Hmk as ([[id' mk'] s''] & Hget & Hmk).
  injection Hmk as -> <- -> <-.
  destruct (get_master_key_Some _ _ _ _ _ Hget Hterm Hsrv)
    as [(Hs0 & _) | (Hsn & -> & -> & Hfetch)]; [lia |].
  cbv zeta in Hfail.
  destruct Hfetch as [Hfetch | [_ Hfetch]];
    [rewrite Hfetch in Hfail; discriminate Hfail |].
  split; [reflexivity | split; [eauto |]].
  destruct (fill_info_bytes _ _ _ _ _ _ _ _ _ Hinfo)
    as (Hbl & Hroom & Hkey & Hiv & Hu & _ & wrapped & Hwr & Hwl & Hbytes).
  pose proof (blen_nonneg wrapped) as Hw0.
  unfold decode_encryption_info.
  rewrite (info_version_3 info Hok); [| lia |].
  2:{ intros i Hi. rewrite Hbytes by lia. range_cases. reflexivity. }
  cbn [bind]. unfold decode_key_info, get_master_key_from_info, MAGIC_SIZE.
  rewrite mach_read_from_4_ok by lia. cbn [bind].
  assert (Hrd : rd4 info 3 = s_master_key_id s).
  { rewrite <- (uint32_small (s_master_key_id s)) by lia.
    rewrite <- rd4_enc4. apply rd4_ext. intros j Hj.
    rewrite Hbytes by lia. range_cases. f_equal. lia. }
  rewrite Hrd. change (3 + 4) with 7.
  rewrite (read_srv_uuid_ok info (s_uuid s)); [| lia | | assumption |].
  2:{ apply blen_uninitialised. unfold SERVER_UUID_LEN. lia. }
  2:{ intros i Hi. rewrite Hbytes by lia. range_cases. f_equal. lia. }
  cbn [bind].
  replace (s_master_key_id s =? 0) with false by (symmetry; apply Z.eqb_neq; lia).
  assert (Hne : ut_ad UNIV_DEBUG (negb (length (cstring (s_uuid s)) =? 0)%nat) = Ok tt).
  { apply ut_ad_ok. intros Hd. specialize (Hdbg Hd). apply negb_true_iff, Nat.eqb_neq.
    destruct (cstring (s_uuid s)); [contradiction | discriminate]. }
  rewrite Hne. cbn [bind]. unfold get_master_key_by_id. rewrite Hne. cbn [bind].
  unfold get_keyring_key.
  destruct (my_key_fetch (keyring s) (master_key_by_uuid _ _)) as [ret k] eqn:Hf.
  cbn [fst snd] in Hfail.
  destruct (negb (ret =? 0)); cbn [orb] in Hfail.
  - cbn. reflexivity.
  - destruct k; [discriminate Hfail |]. cbn. reflexivity.
Qed.

(** X14.  [fill_encryption_info] returns [false] in two cases only, both with
    [encrypt_key]: no master key came from the keyring, and then nothing has
    been stored in [encrypt_info]; or the cipher gave [MY_AES_BAD_DATA].
    Without [encrypt_key], for clone, it returns [true]. *)
Theorem fill_encryption_info_failure {K : Type} {ks : KeyringService K}
    {ic : InfoConsts} {il : InfoLayout} {prim : Primitives}
    (s : server K) (srv_is_uuid_ready used : bool) (key iv encrypt_info : buffer)
    (is_boot encrypt_key : bool) (r : fill_result K) :
  fill_encryption_info s srv_is_uuid_ready used key iv encrypt_info is_boot encrypt_key
  = Ok r ->
  fr_ok r = false ->
  encrypt_key = true
  /\ ((fr_info r = encrypt_info
       /\ is_boot = false /\ cstring (server_uuid s) <> []
       /\ exists id, get_master_key s DEFAULT_MASTER_KEY_ID = Ok (id, None, fr_server r))
      \/ exists mk,
           my_aes_encrypt (sub key 0 KEY_LEN ++ sub iv 0 KEY_LEN) (Some mk)
             (uint32 KEY_LEN) my_aes_256_ecb None false = None).
Proof.
  intros Hfill Hres. unfold fill_encryption_info in Hfill.
  assert (Hinfo : forall (s' : server K) mk id ek info,
            fill_info s' srv_is_uuid_ready key iv encrypt_info mk id ek = Ok (false, info) ->
            ek = true
            /\ my_aes_encrypt (sub key 0 KEY_LEN ++ sub iv 0 KEY_LEN) mk
                 (uint32 KEY_LEN) my_aes_256_ecb None false = None).
  { intros s' mk id ek info Hrun. unfold fill_info in Hrun.
    apply bind_Ok in Hrun. destruct Hrun as (i1 & Hset & Hrun).
    apply bind_Ok in Hrun. destruct Hrun as (magic & Hmg & Hrun).
    apply bind_Ok in Hrun. destruct Hrun as (i2 & Hw2 & Hrun).
    apply bind_Ok in Hrun. destruct Hrun as (i3 & Hw3 & Hrun).
    apply bind_Ok in Hrun. destruct Hrun as (u & Hu & Hrun).
    apply bind_Ok in Hrun. destruct Hrun as (i4 & Hw4 & Hrun).
    apply bind_Ok in Hrun. destruct Hrun as (t & Hdbg & Hrun).
    apply bind_Ok in Hrun. destruct Hrun as (k & Hk & Hrun).
    apply bind_Ok in Hrun. destruct Hrun as (ki1 & Hki1 & Hrun).
    apply bind_Ok in Hrun. destruct Hrun as (v & Hv & Hrun).
    apply bind_Ok in Hrun. destruct Hrun as (ki & Hki & Hrun).
    destruct (key_info_eq _ _ _ _ _ _ Hk Hki1 Hv Hki) as (-> & _ & _).
    apply bind_Ok in Hrun. destruct Hrun as (r' & Hr & Hrun).
    destruct r' as [i5 |].
    - apply bind_Ok in Hrun. destruct Hrun as (i6 & _ & Hrun).
      apply bind_Ok in Hrun. destruct Hrun as (t2 & _ & Hrun). discriminate.
    - destruct ek.
      + destruct (my_aes_encrypt _ _ _ _ _ _) eqn:E; [| split; reflexivity].
        apply bind_Ok in Hr. destruct Hr as (? & _ & Hr). discriminate.
      + apply bind_Ok in Hr. destruct Hr as (? & _ & Hr). discriminate. }
  destruct encrypt_key.
  - split; [reflexivity |].
    apply bind_Ok in Hfill. destruct Hfill as ([[[mk id] s'] used'] & Hmk & Hfill).
    destruct mk as [mk |]; cbn [is_null] in Hfill.
    + apply bind_Ok in Hfill. destruct Hfill as ([ok info] & Hrun & Hfill).
      injection Hfill as <-. cbn [fr_ok] in Hres. subst ok.
      right. exists mk. eapply Hinfo. eassumption.
    + injection Hfill as <-. cbn [fr_info fr_server]. left.
      unfold fill_master_key in Hmk.
      destruct (is_boot || (length (cstring (server_uuid s)) =? 0)%nat) eqn:Hboot.
      * apply bind_Ok in Hmk. destruct Hmk as (? & _ & Hmk).
        apply bind_Ok in Hmk. destruct Hmk as (? & _ & Hmk). discriminate.
      * apply orb_false_elim in Hboot. destruct Hboot as [Hb Hsrv].
        apply Nat.eqb_neq in Hsrv.
        apply bind_Ok in Hmk. destruct Hmk as ([[id' mk'] s''] & Hget & Hmk).
        injection Hmk as -> <- -> <-.
        repeat split; try assumption.
        -- intros E. rewrite E in Hsrv. apply Hsrv. reflexivity.
        -- eauto.
  - apply bind_Ok in Hfill. destruct Hfill as ([ok info] & Hrun & Hfill).
    injection Hfill as <-. cbn [fr_ok] in Hres. subst ok.
    apply Hinfo in Hrun. destruct Hrun as [Hrun _]. discriminate.
Qed.

(** X15.  The information of a redo log key that
    [fill_encryption_info(key_version, iv, encrypt_info)] writes: the magic,
    the key version, the uuid of the server, the initial vector as it is, and
    a checksum, which is the CRC-32 of the first [KEY_LEN] bytes of the
    information itself: the magic, the key version and the first 25 characters
    of the uuid.  The initial vector comes behind them, so two informations
    that differ in the initial vector only carry one checksum. *)
Theorem key_version_info_layout {K : Type} {il : InfoLayout} {prim : Primitives}
    (s : server K) (key_version : Z) (iv encrypt_info : buffer) (ok : bool)
    (info : buffer) :
  3 + 4 + 36 + 32 + 4 <= INFO_SIZE ->
  fill_encryption_info_key_version s key_version iv encrypt_info = Ok (ok, info) ->
  ok = true /\ blen info = blen encrypt_info
  /\ sub info 0 MAGIC_SIZE = sub KEY_MAGIC_RK_V2 0 MAGIC_SIZE
  /\ rd4 info 3 = uint32 key_version
  /\ sub info 7 SERVER_UUID_LEN = sub (server_uuid s) 0 SERVER_UUID_LEN
  /\ sub info 43 KEY_LEN = sub iv 0 KEY_LEN
  /\ rd4 info 75 = uint32 (ut_crc32 (sub info 0 KEY_LEN))
  /\ (forall i, 79 <= i < INFO_SIZE -> byte_at info i = x00)
  /\ forall iv2 info2,
       fill_encryption_info_key_version s key_version iv2 encrypt_info = Ok (true, info2) ->
       rd4 info2 75 = rd4 info 75.
Proof.
  intros Hsize Hrun.
  assert (Hshape : forall v i0 b inf,
            fill_encryption_info_key_version s key_version v i0 = Ok (b, inf) ->
            b = true /\ blen inf = blen i0 /\ INFO_SIZE <= blen i0
            /\ 32 <= blen v /\ 36 <= blen (server_uuid s) /\ 3 <= blen KEY_MAGIC_RK_V2
            /\ forall i, 0 <= i ->
                 byte_at inf i =
                   if in_range 75 4 i
                   then byte_at (enc4 (ulint (ut_crc32 (sub inf 0 32)))) (i - 75)
                   else if in_range 43 32 i then byte_at v (i - 43)
                   else if in_range 7 36 i then byte_at (server_uuid s) (i - 7)
                   else if in_range 3 4 i then byte_at (enc4 key_version) (i - 3)
                   else if in_range 0 3 i then byte_at KEY_MAGIC_RK_V2 i
                   else if in_range 0 INFO_SIZE i then x00
                   else byte_at i0 i).
  { intros v i0 b inf Hr. unfold fill_encryption_info_key_version in Hr.
    unfold MAGIC_SIZE, SERVER_UUID_LEN, KEY_LEN in *.
    change (0 + 3 + 4 + 36 + 32) with 75 in Hr. change (0 + 3 + 4 + 36) with 43 in Hr.
    change (0 + 3 + 4) with 7 in Hr. change (0 + 3) with 3 in Hr.
    apply bind_Ok in Hr. destruct Hr as (i1 & H1 & Hr).
    apply bind_Ok in Hr. destruct Hr as (mg & Hmg & Hr).
    apply bind_Ok in Hr. destruct Hr as (i2 & H2 & Hr).
    apply bind_Ok in Hr. destruct Hr as (i3 & H3 & Hr).
    apply bind_Ok in Hr. destruct Hr as (u & Hu & Hr).
    apply bind_Ok in Hr. destruct Hr as (i4 & H4 & Hr).
    apply bind_Ok in Hr. destruct Hr as (w & Hw & Hr).
    apply bind_Ok in Hr. destruct Hr as (i5 & H5 & Hr).
    apply bind_Ok in Hr. destruct Hr as (c & Hc & Hr).
    apply bind_Ok in Hr. destruct Hr as (i6 & H6 & Hr).
    injection Hr as <- <-.
    pose proof (mem_read_eq _ _ _ _ Hc) as Ec.
    run_inv.
    assert (E : sub i6 0 32 = c).
    { rewrite Ec. apply buffer_ext.
      - rewrite !blen_sub by lia. reflexivity.
      - intros i Hi. rewrite blen_sub in Hi by lia. rewrite !byte_at_sub by lia.
        bytes; reflexivity. }
    rewrite E.
    repeat split; try lia.
    intros i Hi. bytes; try reflexivity; try (f_equal; lia); try lia. }
  destruct (Hshape _ _ _ _ Hrun) as (-> & Hbl & Hroom & Hiv & Hsu & Hmg & Hbytes).
  unfold MAGIC_SIZE, SERVER_UUID_LEN, KEY_LEN.
  assert (Hcrc : forall v inf,
            (forall i, 0 <= i ->
               byte_at inf i =
                 if in_range 75 4 i
                 then byte_at (enc4 (ulint (ut_crc32 (sub inf 0 32)))) (i - 75)
                 else if in_range 43 32 i then byte_at v (i - 43)
                 else if in_range 7 36 i then byte_at (server_uuid s) (i - 7)
                 else if in_range 3 4 i then byte_at (enc4 key_version) (i - 3)
                 else if in_range 0 3 i then byte_at KEY_MAGIC_RK_V2 i
                 else if in_range 0 INFO_SIZE i then x00
                 else byte_at encrypt_info i) ->
            rd4 inf 75 = uint32 (ut_crc32 (sub inf 0 32))).
  { intros v inf Hb.
    transitivity (uint32 (ulint (ut_crc32 (sub inf 0 32)))).
    - rewrite <- rd4_enc4. apply rd4_ext. intros j Hj.
      rewrite Hb by lia. range_cases. f_equal. lia.
    - unfold uint32, ulint. apply Z.mod_mod_divide.
      exists (2 ^ 32). reflexivity. }
  repeat split; try assumption.
  - apply buffer_ext.
    + rewrite !blen_sub by lia. reflexivity.
    + intros i Hi. rewrite blen_sub in Hi by lia. rewrite !byte_at_sub by lia.
      rewrite Hbytes by lia. range_cases. reflexivity.
  - rewrite <- rd4_enc4. apply rd4_ext. intros j Hj.
    rewrite Hbytes by lia. range_cases. f_equal. lia.
  - apply buffer_ext.
    + rewrite !blen_sub by lia. reflexivity.
    + intros i Hi. rewrite blen_sub in Hi by lia. rewrite !byte_at_sub by lia.
      rewrite Hbytes by lia. range_cases. f_equal. lia.
  - apply buffer_ext.
    + rewrite !blen_sub by lia. reflexivity.
    + intros i Hi. rewrite blen_sub in Hi by lia. rewrite !byte_at_sub by lia.
      rewrite Hbytes by lia. range_cases. f_equal. lia.
  - eapply Hcrc. exact Hbytes.
  - intros i Hi. rewrite Hbytes by lia. range_cases. reflexivity.
  - intros iv2 info2 Hrun2.
    destruct (Hshape _ _ _ _ Hrun2) as (_ & Hbl2 & _ & Hiv2 & _ & _ & Hbytes2).
    rewrite (Hcrc _ _ Hbytes), (Hcrc _ _ Hbytes2). do 2 f_equal.
    apply buffer_ext.
    + rewrite !blen_sub by lia. reflexivity.
    + intros i Hi. rewrite blen_sub in Hi by lia. rewrite !byte_at_sub by lia.
      rewrite Hbytes, Hbytes2 by lia. range_cases; reflexivity.
Qed.

(** ** The master key and the uuid of the server *)

Section MasterKeyUuid.
Context {K : Type} {ks : KeyringService K} {ic : InfoConsts} {prim : Primitives}.





End MasterKeyUuid.


(** X17.  [create_master_key] advances the master key id exactly when it
    returns a key; the key is then the current master key:  [get_master_key]
    returns it, with the new id, and changes nothing.  When no key is returned
    the id is as it was. *)
Theorem created_master_key_is_current {K : Type} {ks : KeyringService K}
    (s s' : server K) (master_key : option buffer) :
  create_master_key s = Ok (master_key, s') ->
  match master_key with
  | None => s_master_key_id s' = s_master_key_id s
  | Some mk =>
    s_master_key_id s' = uint32 (s_master_key_id s + 1)
    /\ (s_master_key_id s' <> 0 ->
        forall id0, get_master_key s' id0 = Ok (s_master_key_id s', Some mk, s'))
  end.
Proof.
  unfold create_master_key. intros Hrun.
  apply bind_Ok in Hrun. destruct Hrun as (u & _ & Hrun).
  cbn [s_uuid set_s_uuid keyring set_keyring s_master_key_id] in Hrun.
  destruct (my_key_generate _ _) as [g k].
  cbn [s_uuid set_s_uuid keyring set_keyring s_master_key_id] in Hrun.
  destruct (my_key_fetch k _) as [ret key] eqn:Hfetch.
  destruct (negb (ret =? 0)) eqn:Hret; cbn [orb] in Hrun.
  - injection Hrun as <- <-. reflexivity.
  - destruct key as [mk |]; cbn [is_null] in Hrun; injection Hrun as <- <-;
      [| reflexivity].
    cbn [s_master_key_id set_master_key_id set_keyring set_s_uuid].
    split; [reflexivity |]. intros Hne id0.
    unfold get_master_key, DEFAULT_MASTER_KEY_ID.
    cbn [s_master_key_id set_master_key_id set_keyring set_s_uuid s_uuid keyring].
    apply Z.eqb_neq in Hne. rewrite Hne. rewrite Hfetch, Hret. cbn [orb is_null].
    rewrite Hret. reflexivity.
Qed.

Section MasterKeyReads.
Context {K : Type} {ks : KeyringService K}.

(** [get_master_key] with a master key id other than the default one only
    reads. *)
Lemma get_master_key_reads (s s' : server K) (id id' : Z) (key : option buffer) :
  s_master_key_id s <> DEFAULT_MASTER_KEY_ID ->
  get_master_key s id = Ok (id', key, s') -> s' = s.
Proof.
  intros Hne. unfold get_master_key.
  destruct (s_master_key_id s =? DEFAULT_MASTER_KEY_ID) eqn:Hz.
  - apply Z.eqb_eq in Hz. contradiction.
  - destruct (my_key_fetch _ _) as [ret mk].
    destruct (if negb (ret =? 0) || is_null mk then _ else _) as [ret' mk'].
    intros H. injection H as _ _ <-. reflexivity.
Qed.

End MasterKeyReads.

Section SystemKeyFacts.
Import SystemKeys.
Context {K : Type} {ks : KeyringService K} {kr : SystemKeyring K} {ic : InfoConsts}
  {prim : Primitives}.

(** A run of [create_tablespace_key] from a null [*tablespace_key] that
    leaves a key: the keyring holds under the name of the tablespace key
    what [parse_system_key] takes that key from. *)
Lemma create_tablespace_key_Some (s s' : server K) (key_id : Z) (uuid key : buffer) :
  create_tablespace_key s None key_id uuid = Ok (Some key, s') ->
  s' = set_keyring s (keyring s')
  /\ exists name system_key version len,
       fill_key_name key_id uuid = Ok name
       /\ SystemKeys.get_keyring_key s' name = Some system_key
       /\ parse_system_key system_key = Some (version, key, len)
       /\ (UNIV_DEBUG = true -> version = 1 /\ len = KEY_LEN).
Proof.
  unfold create_tablespace_key. intros H.
  destruct (ut_ad_m _) as [u|f]; cbn [bind] in H; [|discriminate].
  destruct (fill_key_name key_id uuid) as [name|f] eqn:Hn; cbn [bind] in H; [|discriminate].
  destruct (my_key_generate (keyring s) name) as [ret k] eqn:Hg.
  destruct (negb (ret =? 0)); [discriminate|].
  cbn [keyring set_keyring] in H.
  destruct (my_key_fetch k name) as [ret' sk] eqn:Hf.
  destruct (negb (ret' =? 0)) eqn:Hr; [discriminate|].
  destruct sk as [sk|]; [|discriminate].
  destruct (parse_system_key sk) as [[[v kd] len]|] eqn:Hp; [|discriminate].
  unfold ut_ad, ut_a in H.
  destruct UNIV_DEBUG eqn:Hd.
  - destruct (v =? 1) eqn:Hv; cbn [bind] in H; [|discriminate].
    destruct (len =? KEY_LEN) eqn:Hl; cbn [bind] in H; [|discriminate].
    injection H as <- <-. cbn.
    split; [reflexivity |]. exists name, sk, v, len. repeat split; try assumption.
    + unfold SystemKeys.get_keyring_key. cbn. rewrite Hf, Hr. reflexivity.
    + apply Z.eqb_eq, Hv.
    + apply Z.eqb_eq, Hl.
  - cbn [bind] in H. injection H as <- <-. cbn.
    split; [reflexivity |]. exists name, sk, v, len. repeat split; try assumption.
    + unfold SystemKeys.get_keyring_key. cbn. rewrite Hf, Hr. reflexivity.
    + discriminate.
    + discriminate.
Qed.

End SystemKeyFacts.

(** X18.  A tablespace key that [create_tablespace_key(key_id)] reports
    created (it returns [false]) is in the keyring of the state it leaves:
    [tablespace_key_exists] finds it under the server uuid,
    [encryption_get_latest_version] gives the version that [parse_system_key]
    reads, which a debug build has asserted to be 1, and nothing but the
    keyring has changed. *)
Theorem created_tablespace_key_is_found {K : Type} {kr : SystemKeys.SystemKeyring K}
    {prim : Primitives} (s s' : server K) (key_id : Z) :
  SystemKeys.create_tablespace_key_of_id s key_id = Ok (false, s') ->
  SystemKeys.tablespace_key_exists s' key_id (server_uuid s') = Ok true
  /\ (exists version,
        SystemKeys.encryption_get_latest_version s' key_id (server_uuid s') = Ok version
        /\ (UNIV_DEBUG = true -> version = 1))
  /\ s' = set_keyring s (keyring s').
Proof.
  unfold SystemKeys.create_tablespace_key_of_id. intros H.
  destruct (SystemKeys.create_tablespace_key s None key_id (server_uuid s))
    as [[key s1]|f] eqn:Hc; cbn [bind] in H; [|discriminate].
  destruct key as [key|]; cbn [is_null] in H; [|discriminate].
  injection H as <-.
  apply create_tablespace_key_Some in Hc.
  destruct Hc as (Hs & name & sk & v & len & Hn & Hk & Hp & Hd).
  replace (server_uuid s1) with (server_uuid s) by (rewrite Hs; reflexivity).
  unfold SystemKeys.tablespace_key_exists, SystemKeys.encryption_get_latest_version,
    SystemKeys.get_latest_tablespace_key, SystemKeys.get_latest_system_key.
  rewrite Hn. cbn [bind]. rewrite Hk, Hp. cbn [bind fst is_null negb].
  repeat split; try assumption.
  exists v. split; [reflexivity|]. intros D. apply Hd, D.
Qed.

(** X19.  A tablespace key that [tablespace_key_exists] finds is not created
    again:  [get_latest_key_or_create] gives the key and the version that the
    keyring holds and leaves the keyring as it was, whatever its caller had in
    the two variables, and
    [tablespace_key_exists_or_create_new_one_if_does_not_exist] returns
    [true]. *)
Theorem existing_tablespace_key_is_kept {K : Type} {kr : SystemKeys.SystemKeyring K}
    {prim : Primitives} (s : server K) (key_id : Z) (uuid : buffer)
    (tablespace_key : option buffer) (tablespace_key_version : Z) :
  SystemKeys.tablespace_key_exists s key_id uuid = Ok true ->
  exists key version,
    SystemKeys.get_latest_tablespace_key s key_id uuid None 0 = Ok (Some key, version)
    /\ SystemKeys.get_latest_key_or_create s key_id uuid tablespace_key
         tablespace_key_version = Ok (Some key, version, s)
    /\ SystemKeys.tablespace_key_exists_or_create_new_one_if_does_not_exist s key_id uuid
         tablespace_key tablespace_key_version = Ok (true, s)
    /\ SystemKeys.encryption_get_latest_version s key_id uuid = Ok version.
Proof.
  unfold SystemKeys.tablespace_key_exists,
    SystemKeys.tablespace_key_exists_or_create_new_one_if_does_not_exist,
    SystemKeys.get_latest_key_or_create, SystemKeys.encryption_get_latest_version,
    SystemKeys.get_latest_tablespace_key, SystemKeys.get_latest_system_key.
  destruct (SystemKeys.fill_key_name key_id uuid) as [name|f]; cbn [bind]; [|discriminate].
  destruct (SystemKeys.get_keyring_key s name) as [sk|]; cbn [fst is_null negb];
    [|discriminate].
  destruct (SystemKeys.parse_system_key sk) as [[[v kd] len]|]; cbn [fst is_null negb];
    [|discriminate].
  intros _. exists kd, v. cbn [bind is_null]. repeat split.
Qed.

(** X20.  [check_keyring] creates no master key: it leaves the master key id
    and the uuid of the master key as they are.  With a master key id other
    than the default one it changes nothing at all, and in a bootstrap check
    nothing but the keyring. *)
Theorem check_keyring_creates_no_master_key {K : Type} {ks : KeyringService K}
    {kr : SystemKeys.SystemKeyring K} {ic : InfoConsts}
    (s s' : server K) (checked checked' ret : bool) (master_key_id : Z) :
  SystemKeys.check_keyring s checked master_key_id = Ok (ret, s', checked') ->
  s' = set_keyring s (keyring s')
  /\ s_master_key_id s' = s_master_key_id s
  /\ s_uuid s' = s_uuid s
  /\ (s_master_key_id s <> DEFAULT_MASTER_KEY_ID -> s' = s /\ checked' = checked).
Proof.
  unfold SystemKeys.check_keyring.
  destruct (s_master_key_id s =? DEFAULT_MASTER_KEY_ID) eqn:Hz.
  - apply Z.eqb_eq in Hz.
    destruct checked.
    + intros H. injection H as _ <- _. destruct s. repeat split; try contradiction.
    + destruct (SystemKeys.my_key_generate _ _) as [r k].
      cbn [keyring set_keyring].
      destruct (SystemKeys.my_key_fetch _ _) as [r' mk].
      destruct (negb (r' =? 0)).
      * intros H. injection H as _ <- _. repeat split; try contradiction.
      * destruct (SystemKeys.my_key_remove _ _) as [r2 k2].
        intros H. injection H as _ <- _. repeat split; try contradiction.
  - apply Z.eqb_neq in Hz.
    destruct (get_master_key s master_key_id) as [[[id mk] s1]|f] eqn:Hg; cbn [bind];
      [|discriminate].
    intros H. injection H as _ <- <-.
    apply get_master_key_reads in Hg; [|exact Hz]. subst s1.
    destruct s. repeat split.
Qed.

(** X21.  A bootstrap check that passed is not made again.  Under the default
    master key id the first [check_keyring] returns [true] exactly when
    [my_key_fetch] returns 0 for the dummy key it has generated, with or
    without a key; and once it has returned [true], every later call under
    that id returns [true] and leaves the keyring alone, whatever the keyring
    has become. *)
Theorem check_keyring_bootstrap_is_checked_once {K : Type} {ks : KeyringService K}
    {kr : SystemKeys.SystemKeyring K} {ic : InfoConsts}
    (s s' : server K) (ret checked' : bool) (master_key_id : Z) :
  s_master_key_id s = DEFAULT_MASTER_KEY_ID ->
  SystemKeys.check_keyring s false master_key_id = Ok (ret, s', checked') ->
  ret = (fst (SystemKeys.my_key_fetch
                (snd (SystemKeys.my_key_generate (keyring s)
                        (SystemKeys.plain_key_name DEFAULT_MASTER_KEY)))
                (SystemKeys.plain_key_name DEFAULT_MASTER_KEY)) =? 0)
  /\ checked' = ret
  /\ (ret = true ->
      forall (s2 : server K) (master_key_id2 : Z),
        s_master_key_id s2 = DEFAULT_MASTER_KEY_ID ->
        SystemKeys.check_keyring s2 checked' master_key_id2 = Ok (true, s2, checked')).
Proof.
  intros Hz. unfold SystemKeys.check_keyring. rewrite Hz, Z.eqb_refl.
  destruct (SystemKeys.my_key_generate _ _) as [r k].
  cbn [keyring set_keyring snd].
  destruct (SystemKeys.my_key_fetch _ _) as [r' mk]. cbn [fst].
  destruct (r' =? 0); cbn [negb].
  - destruct (SystemKeys.my_key_remove _ _) as [r2 k2].
    intros H. injection H as <- _ <-. repeat split.
    intros _ s2 m2 Hz2. rewrite Hz2, Z.eqb_refl. reflexivity.
  - intros H. injection H as <- _ <-. repeat split. discriminate.
Qed.

(** ** The properties on the concrete platform *)

(** Closed comparisons of numbers, by evaluation. *)
Ltac evaluated := vm_compute; repeat split; first [discriminate | reflexivity].

Lemma decrypt_outcomes_witness :
  decrypted true (request false) (context NONE 0 NO_ROTATION)
    (cs_dst (encrypted true (request false) (context AES 0 NO_ROTATION) index_page 100)) 100
  = Some (DB_IO_DECRYPT_FAIL,
          cs_dst (encrypted true (request false) (context AES 0 NO_ROTATION) index_page 100))
  /\ is_encrypted_page
       (cs_dst (encrypted true (request false) (context AES 0 NO_ROTATION) index_page 100))
     = Ok true.
Proof.
  split; [vm_compute; reflexivity |].
  refine (proj1 (proj2 (proj2 (proj2
            (@decrypt_outcomes innodb_consts (platform true) (request false)
               (context NONE 0 NO_ROTATION)
               (cs_dst (encrypted true (request false) (context AES 0 NO_ROTATION)
                          index_page 100)) 100
               (Some (repeat x00 (Z.to_nat 100))) 100 DB_IO_DECRYPT_FAIL
               (cs_dst (encrypted true (request false) (context AES 0 NO_ROTATION)
                          index_page 100))
               (Some (repeat x00 (Z.to_nat 100))) _))) eq_refl)).
  vm_compute. reflexivity.
Defined.

Lemma encrypt_low_requirements_witness :
  m_type (context AES 0 NO_ROTATION) <> NONE
  /\ @is_encrypted_page innodb_consts index_page = Ok false.
Proof.
  destruct (@encrypt_low_requirements innodb_consts (platform true) (request false)
              (context AES 0 NO_ROTATION) index_page 100 (repeat x00 (Z.to_nat 100)) 100
              true (encrypted true (request false) (context AES 0 NO_ROTATION)
                      index_page 100))
    as (Hty & _ & Hdebug).
  - vm_compute. reflexivity.
  - split; [exact Hty |]. apply Hdebug. reflexivity.
Defined.

Lemma encrypt_low_failure_leaves_pages_witness :
  cs_src (encrypted false (request false) (context_without_key AES) index_page 100)
  = index_page
  /\ byte_at (cs_dst (encrypted false (request false) (context_without_key AES)
                        index_page 100)) 10 = x00.
Proof.
  destruct (@encrypt_low_failure_leaves_pages innodb_consts (platform false)
              (request false) (context_without_key AES) index_page 100
              (repeat x00 (Z.to_nat 100)) 100
              (encrypted false (request false) (context_without_key AES) index_page 100))
    as (Hsrc & _ & _ & _ & Hhdr).
  - vm_compute. reflexivity.
  - split; [exact Hsrc |]. rewrite Hhdr; [reflexivity | evaluated].
Defined.


Lemma encrypt_returns_encrypted_page_witness :
  @is_encrypted_page innodb_consts
    (cs_dst (encrypted true (request false) (context AES 0 NO_ROTATION) index_page 100))
  = Ok true.
Proof.
  destruct (@encrypt_returns_encrypted_page innodb_consts (platform true) false
              (request false) (context AES 0 NO_ROTATION) index_page 100
              (repeat x00 (Z.to_nat 100)) 0 returned_dst
              (encrypted true (request false) (context AES 0 NO_ROTATION) index_page 100) 1)
    as (_ & _ & _ & Henc & _).
  - reflexivity.
  - evaluated.
  - vm_compute. reflexivity.
  - exact Henc.
Defined.

Lemma log_block_round_trip_witness :
  exists out scratch',
    @decrypt_log_block innodb_log_consts (platform true) redo_keys
      (context AES 0 NO_ROTATION)
      (encrypted_block true (context AES 0 NO_ROTATION) log_block)
      (repeat x00 (Z.to_nat 512))
    = Ok (DB_SUCCESS, (context AES 0 NO_ROTATION, out, scratch'))
    /\ byte_at out 100 = x5a.
Proof.
  destruct (@log_block_round_trip innodb_log_consts (platform true) redo_keys
              (context AES 0 NO_ROTATION) (context AES 0 NO_ROTATION)
              (context AES 0 NO_ROTATION) log_block (repeat x00 (Z.to_nat 512))
              (encrypted_block true (context AES 0 NO_ROTATION) log_block)
              (repeat x00 (Z.to_nat 512)) (fun _ => xcc))
    as (_ & out & scratch' & Hdec & _ & Hbytes & _).
  - apply shift_cipher_inverse.
  - reflexivity.
  - vm_compute. reflexivity.
  - evaluated.
  - evaluated.
  - reflexivity.
  - reflexivity.
  - reflexivity.
  - reflexivity.
  - reflexivity.
  - exists out, scratch'. split; [exact Hdec |].
    rewrite (Hbytes 100); [reflexivity | evaluated | reflexivity | reflexivity].
Defined.

Lemma decrypted_page_is_left_alone_witness :
  exists page,
    decrypted true (request false) (context AES 0 NO_ROTATION)
      (cs_dst (encrypted true (request false) (context AES 0 NO_ROTATION) index_page 100))
      100 = Some (DB_SUCCESS, page)
    /\ rd2 page 24 = 17855
    /\ decrypted true (request false) (context AES 0 NO_ROTATION) page 100
       = Some (DB_SUCCESS, page).
Proof.
  destruct (@decrypt innodb_consts (platform true) (request false)
              (context AES 0 NO_ROTATION)
              (cs_dst (encrypted true (request false) (context AES 0 NO_ROTATION)
                         index_page 100)) 100
              (Some (repeat x00 (Z.to_nat 100))) 100)
    as [[[| |] [page scratch']] | f] eqn:Hdec;
    try (vm_compute in Hdec; discriminate Hdec).
  destruct (@decrypted_page_is_left_alone innodb_consts (platform true) (request false)
              (context AES 0 NO_ROTATION) index_page 100 (repeat x00 (Z.to_nat 100))
              (encrypted true (request false) (context AES 0 NO_ROTATION) index_page 100)
              (request false) (context AES 0 NO_ROTATION)
              (Some (repeat x00 (Z.to_nat 100))) 100 page scratch')
    as (Hty & _ & Hagain).
  - reflexivity.
  - evaluated.
  - vm_compute. reflexivity.
  - vm_compute. reflexivity.
  - exact Hdec.
  - exists page. unfold decrypted. rewrite Hdec, Hagain. repeat split. exact Hty.
Defined.

Lemma keyring_pages_keep_data_len_witness :
  @encrypt_data_len innodb_consts (request false) (context KEYRING 5 NO_ROTATION)
    17855 16384 = 16342
  /\ @decrypt_data_len innodb_consts (request false) (context KEYRING 5 NO_ROTATION)
       (encrypted_type 17855) 16384 FIL_PAGE_DATA = 16342.
Proof.
  destruct (@keyring_pages_keep_data_len innodb_consts keyring_page_types
              (request false) (context KEYRING 5 NO_ROTATION)
              (context KEYRING 5 NO_ROTATION) 17855 16384)
    as (Henc & Hdec & _).
  - reflexivity.
  - reflexivity.
  - reflexivity.
  - reflexivity.
  - evaluated.
  - evaluated.
  - split; [exact Henc |]. rewrite Hdec. exact Henc.
Defined.

Lemma log_round_trip_witness :
  exists out scratch',
    @decrypt_log innodb_log_consts (platform true) redo_keys 2 true
      (context AES 0 NO_ROTATION)
      (encrypted_log true (context AES 0 NO_ROTATION) log_blocks 1024) 1024
      (Some (repeat x00 (Z.to_nat 512))) 512
    = Some (Ok (DB_SUCCESS, (context AES 0 NO_ROTATION, out, Some scratch')))
    /\ byte_at out 700 = x5a.
Proof.
  destruct (@log_round_trip innodb_log_consts (platform true) redo_keys
              (context AES 0 NO_ROTATION) (context AES 0 NO_ROTATION)
              log_blocks (repeat x00 (Z.to_nat 1024))
              (encrypted_log true (context AES 0 NO_ROTATION) log_blocks 1024)
              (repeat x00 (Z.to_nat 512)) 2 2%nat 2%nat true 1024 1024 512
              (fun _ _ => xcc))
    as (out & scratch' & Hdec & _ & _ & Hbytes & _).
  - apply shift_cipher_inverse.
  - reflexivity.
  - evaluated.
  - evaluated.
  - vm_compute. reflexivity.
  - reflexivity.
  - reflexivity.
  - reflexivity.
  - reflexivity.
  - intros Hk. discriminate Hk.
  - evaluated.
  - vm_compute. repeat constructor.
  - exists out, scratch'. split; [exact Hdec |].
    transitivity (byte_at log_blocks (OS_FILE_LOG_BLOCK_SIZE * 1 + 188));
      [| reflexivity].
    apply (Hbytes 1 188); [evaluated | evaluated | reflexivity | reflexivity].
Defined.

Lemma decrypt_log_skips_plain_blocks_witness :
  @decrypt_log innodb_log_consts (platform true) redo_keys 2 true
    (context AES 0 NO_ROTATION) log_blocks 1024 None 1024
  = Some (Ok (DB_SUCCESS, (context AES 0 NO_ROTATION, log_blocks, None))).
Proof.
  apply (@decrypt_log_skips_plain_blocks innodb_log_consts (platform true) redo_keys
           (context AES 0 NO_ROTATION) log_blocks 2 None 1024 true 2%nat).
  - evaluated.
  - reflexivity.
  - intros j Hj. assert (j = 0 \/ j = 1) as [-> | ->] by lia; vm_compute; reflexivity.
  - vm_compute. repeat constructor.
Defined.

Lemma encrypt_log_returns_witness :
  @is_encrypted_log innodb_log_consts
    (advance (encrypted_log true (context AES 0 NO_ROTATION) log_blocks 1024) 512)
  = Ok true.
Proof.
  destruct (@encrypt_log_returns innodb_log_consts (platform true)
              (context AES 0 NO_ROTATION) log_blocks (repeat x00 (Z.to_nat 1024)) 2
              2%nat true 1024 (fun _ _ => xcc)) as (_ & Hret).
  - reflexivity.
  - evaluated.
  - vm_compute. repeat constructor.
  - destruct (Hret returned_dst
                (encrypted_log true (context AES 0 NO_ROTATION) log_blocks 1024) 1024)
      as (_ & _ & _ & Hbit).
    + vm_compute. reflexivity.
    + apply (Hbit 1). evaluated.
Defined.

Lemma shift_cipher_ecb_inverse (debug : bool) : @ecb_inverse (platform debug).
Proof.
  intros p c key klen. cbn [my_aes_encrypt my_aes_decrypt platform].
  unfold shift_cipher. destruct key as [k |]; [| discriminate].
  intros [= <-]. split.
  - unfold blen. rewrite length_map. reflexivity.
  - rewrite map_map. f_equal. rewrite <- (map_id p) at 2.
    apply map_ext. apply shift_byte_inverse.
Qed.

Lemma encryption_info_round_trip_witness :
  @decode_encryption_info _ list_keyring info_consts (platform true)
    (fr_server (filled_info (server_with 1 [master_key_by_uuid uuid36 1] false)))
    (repeat x00 (Z.to_nat 32)) (repeat x00 (Z.to_nat 32))
    (fr_info (filled_info (server_with 1 [master_key_by_uuid uuid36 1] false))) true
    (fun _ => xcc)
  = Ok (mkDecodeResult true key32 iv32
          (fr_server (filled_info (server_with 1 [master_key_by_uuid uuid36 1] false)))).
Proof.
  rewrite (@encryption_info_round_trip _ list_keyring info_consts info_layout
             (platform true) (server_with 1 [master_key_by_uuid uuid36 1] false)
             true false key32 iv32 (repeat x00 (Z.to_nat 111)) false true
             (filled_info (server_with 1 [master_key_by_uuid uuid36 1] false))).
  - reflexivity.
  - apply shift_cipher_ecb_inverse.
  - reflexivity.
  - evaluated.
  - evaluated.
  - evaluated.
  - reflexivity.
  - intros _. split; [vm_compute; reflexivity | intros _; vm_compute; discriminate].
  - vm_compute. reflexivity.
  - reflexivity.
Defined.

Lemma info_under_server_id_key_is_not_decoded_witness :
  fr_ok (filled_info (server_with 1 [master_key_by_server_id 1 1] false)) = true
  /\ @decode_encryption_info _ list_keyring info_consts (platform true)
       (server_with 1 [master_key_by_server_id 1 1] false)
       (repeat x00 (Z.to_nat 32)) (repeat x00 (Z.to_nat 32))
       (fr_info (filled_info (server_with 1 [master_key_by_server_id 1 1] false))) true
       (fun _ => xcc)
     = Ok (mkDecodeResult false (repeat x00 (Z.to_nat 32)) (repeat x00 (Z.to_nat 32))
             (server_with 1 [master_key_by_server_id 1 1] false)).
Proof.
  split; [reflexivity |].
  apply (@info_under_server_id_key_is_not_decoded _ list_keyring info_consts info_layout
           (platform true) (server_with 1 [master_key_by_server_id 1 1] false)
           true false key32 iv32 (repeat x00 (Z.to_nat 111))
           (filled_info (server_with 1 [master_key_by_server_id 1 1] false))).
  - reflexivity.
  - evaluated.
  - reflexivity.
  - vm_compute. discriminate.
  - intros _. vm_compute. discriminate.
  - vm_compute. reflexivity.
  - vm_compute. reflexivity.
  - reflexivity.
Defined.

Lemma fill_encryption_info_failure_witness :
  fr_ok (filled_info (server_with 1 [] false)) = false
  /\ fr_info (filled_info (server_with 1 [] false)) = repeat x00 (Z.to_nat 111).
Proof.
  split; [reflexivity |].
  destruct (@fill_encryption_info_failure _ list_keyring info_consts info_layout
              (platform true) (server_with 1 [] false) true false key32 iv32
              (repeat x00 (Z.to_nat 111)) false true
              (filled_info (server_with 1 [] false)))
    as (_ & [(Hinfo & _) | (mk & Hmk)]).
  - vm_compute. reflexivity.
  - reflexivity.
  - exact Hinfo.
  - vm_compute in Hmk. discriminate Hmk.
Defined.

Lemma key_version_info_layout_witness :
  rd4 key_version_info 3 = uint32 5
  /\ sub key_version_info 43 KEY_LEN = sub iv32 0 KEY_LEN.
Proof.
  destruct (@key_version_info_layout _ info_layout (platform true)
              (server_with 1 [] false) 5 iv32 (repeat x00 (Z.to_nat 111)) true
              key_version_info)
    as (_ & _ & _ & Hversion & _ & Hiv & _).
  - evaluated.
  - vm_compute. reflexivity.
  - split; [exact Hversion | exact Hiv].
Defined.


Lemma created_master_key_is_current_witness :
  @get_master_key _ list_keyring
    (server_with 2 [master_key_by_uuid uuid36 2; master_key_by_uuid uuid36 1] false) 0
  = Ok (2, Some (repeat x02 32),
        server_with 2 [master_key_by_uuid uuid36 2; master_key_by_uuid uuid36 1] false).
Proof.
  destruct (@created_master_key_is_current _ list_keyring
              (server_with 1 [master_key_by_uuid uuid36 1] false)
              (server_with 2 [master_key_by_uuid uuid36 2; master_key_by_uuid uuid36 1]
                 false)
              (Some (repeat x02 32))) as (_ & Hcurrent).
  - vm_compute. reflexivity.
  - apply Hcurrent. evaluated.
Defined.

Lemma created_tablespace_key_is_found_witness :
  @SystemKeys.tablespace_key_exists _ system_keyring (platform true)
    (server_of_both 1 ([], [SystemKeys.tablespace_key_name 7 uuid36])) 7
    (uuid36 ++ [x00]) = Ok true.
Proof.
  apply (@created_tablespace_key_is_found _ system_keyring (platform true)
           (server_of_both 1 ([], []))
           (server_of_both 1 ([], [SystemKeys.tablespace_key_name 7 uuid36])) 7).
  vm_compute. reflexivity.
Defined.

Lemma existing_tablespace_key_is_kept_witness :
  @SystemKeys.tablespace_key_exists_or_create_new_one_if_does_not_exist _ system_keyring
    (platform true) (server_of_both 1 ([], [SystemKeys.tablespace_key_name 7 uuid36])) 7
    (uuid36 ++ [x00]) (Some [x99]) 3
  = Ok (true, server_of_both 1 ([], [SystemKeys.tablespace_key_name 7 uuid36])).
Proof.
  destruct (@existing_tablespace_key_is_kept _ system_keyring (platform true)
              (server_of_both 1 ([], [SystemKeys.tablespace_key_name 7 uuid36])) 7
              (uuid36 ++ [x00]) (Some [x99]) 3) as (key & version & _ & _ & Hkept & _).
  - vm_compute. reflexivity.
  - exact Hkept.
Defined.

Lemma check_keyring_creates_no_master_key_witness :
  server_of_both 0 ([], []) = set_keyring (server_of_both 0 ([], [])) ([], [])
  /\ s_master_key_id (server_of_both 0 ([], [])) = 0.
Proof.
  destruct (@check_keyring_creates_no_master_key _ both_keyring system_keyring info_consts
              (server_of_both 0 ([], [])) (server_of_both 0 ([], [])) false true true 0)
    as (Hs & Hid & _).
  - vm_compute. reflexivity.
  - split; [exact Hs | exact Hid].
Defined.

Lemma check_keyring_bootstrap_is_checked_once_witness :
  @SystemKeys.check_keyring _ both_keyring system_keyring info_consts
    (server_of_both 0 ([master_key_by_uuid uuid36 9], [])) true 0
  = Ok (true, server_of_both 0 ([master_key_by_uuid uuid36 9], []), true).
Proof.
  destruct (@check_keyring_bootstrap_is_checked_once _ both_keyring system_keyring
              info_consts (server_of_both 0 ([], [])) (server_of_both 0 ([], []))
              true true 0) as (_ & _ & Hlater).
  - reflexivity.
  - vm_compute. reflexivity.
  - apply Hlater; reflexivity.
Defined.
